(** * CMS localization pipeline (class [CMSLocalization])

    A shallow embedding of the string-extraction / identifier / FTL
    round-trip code of the CMS localization library, followed by the
    properties of its specification.

    Conventions.
    - A JavaScript string is the list of its UTF-16 code units, each a [Z]
      in [0, 65535]. String literals of the source are written [js "..."].
    - A JavaScript object is the list of its own enumerable properties in
      the order [Object.entries] yields them.
    - Host facilities the class calls but does not define (Unicode
      normalization data, locale collation, the clock, the GitHub REST API)
      are parameters of the definitions that use them. *)

From Stdlib Require Import String Ascii.
From Stdlib Require Import ZArith Lia List Bool.
From Stdlib Require Import Sorting.Sorted Permutation.
Import ListNotations.

Open Scope Z_scope.
Set Warnings "-register-all".

(* ================================================================== *)
(** * Part I. Definitions *)
(* ================================================================== *)

(** ** JavaScript strings *)

Definition jsstring := list Z.

(** A source literal (ASCII) as a list of code units. *)
Definition js (s : string) : jsstring :=
  map (fun a => Z.of_N (N_of_ascii a)) (list_ascii_of_string s).

Definition DASH : Z := 45.       (* hyphen-minus *)
Definition DOT : Z := 46.        (* full stop *)
Definition QUOTE : Z := 34.      (* double quote *)
Definition BACKSLASH : Z := 92.  (* backslash *)
Definition HASH : Z := 35.       (* number sign *)
Definition EQUALS : Z := 61.     (* equals sign *)
Definition LF : Z := 10.         (* line feed, \n *)
Definition CR : Z := 13.         (* carriage return, \r *)

Fixpoint str_eqb (a b : jsstring) : bool :=
  match a, b with
  | [], [] => true
  | x :: a', y :: b' => (x =? y) && str_eqb a' b'
  | _, _ => false
  end.

(** [String.prototype.startsWith] *)
Fixpoint startsWith (s p : jsstring) {struct p} : bool :=
  match p, s with
  | [], _ => true
  | _ :: _, [] => false
  | y :: p', x :: s' => (x =? y) && startsWith s' p'
  end.

(** [String.prototype.includes] *)
Fixpoint includes (s p : jsstring) : bool :=
  startsWith s p ||
  match s with
  | [] => false
  | _ :: s' => includes s' p
  end.

(** ECMAScript WhiteSpace and LineTerminator code units: the set removed by
    [String.prototype.trim] and matched by the regular-expression class
    [\s]. *)
Definition isWhiteSpace (c : Z) : bool :=
  ((9 <=? c) && (c <=? 13)) || (c =? 32) || (c =? 160) || (c =? 5760) ||
  ((8192 <=? c) && (c <=? 8202)) || (c =? 8232) || (c =? 8233) ||
  (c =? 8239) || (c =? 8287) || (c =? 12288) || (c =? 65279).

Fixpoint trimStart (s : jsstring) : jsstring :=
  match s with
  | [] => []
  | c :: s' => if isWhiteSpace c then trimStart s' else s
  end.

Definition trimEnd (s : jsstring) : jsstring := rev (trimStart (rev s)).

(** [String.prototype.trim] *)
Definition trim (s : jsstring) : jsstring := trimEnd (trimStart s).

(** [String.prototype.split] with a one-code-unit separator. *)
Fixpoint split (sep : Z) (s : jsstring) : list jsstring :=
  match s with
  | [] => [[]]
  | c :: s' =>
      if c =? sep then [] :: split sep s'
      else match split sep s' with
           | [] => [[c]]
           | seg :: rest => (c :: seg) :: rest
           end
  end.

(** [Array.prototype.join] *)
Fixpoint join (sep : jsstring) (parts : list jsstring) : jsstring :=
  match parts with
  | [] => []
  | [p] => p
  | p :: rest => p ++ sep ++ join sep rest
  end.

(** [Array.prototype.slice(start, end)], with the relative-index rule for
    negative arguments. *)
Definition slice {A} (start stop : Z) (l : list A) : list A :=
  let len := Z.of_nat (length l) in
  let k := if start <? 0 then Z.max (len + start) 0 else Z.min start len in
  let final := if stop <? 0 then Z.max (len + stop) 0 else Z.min stop len in
  firstn (Z.to_nat (final - k)) (skipn (Z.to_nat k) l).

(** [s.replace(/c/g, r)] for a one-code-unit pattern. *)
Definition replaceAllChar (c : Z) (r : jsstring) (s : jsstring) : jsstring :=
  flat_map (fun x => if x =? c then r else [x]) s.

(** ** Identifier parsing *)

(** [parseFtlIdToFieldPath]: [None] is the source's [null]. *)
Definition parseFtlIdToFieldPath (ftlId : jsstring) : option jsstring :=
  let parts := split DASH ftlId in
  if (4 <=? Z.of_nat (length parts)) then
    let fieldParts := slice 1 (-1) parts in
    Some (join [DOT] fieldParts)
  else None.

(** ** Unicode normalization *)

(** The part of the Unicode Character Database that canonical
    decomposition reads. [canonicalDecomposition c] is the full canonical
    decomposition of the code point [c] (its Decomposition_Mapping applied
    until nothing decomposes, a Hangul syllable into its jamo), and [[c]]
    when [c] has none; [combiningClass c] is its Canonical_Combining_Class,
    zero for a starter; [upperCase c] is the result of
    [String.prototype.toUpperCase] on the one-unit string [c]. *)
Record UnicodeData : Type := {
  canonicalDecomposition : Z -> list Z;
  combiningClass : Z -> Z;
  upperCase : Z -> jsstring
}.

Definition isHighSurrogate (c : Z) : bool := (55296 <=? c) && (c <=? 56319).
Definition isLowSurrogate (c : Z) : bool := (56320 <=? c) && (c <=? 57343).

(** The code points of a string: a surrogate pair is one code point, a
    lone surrogate stands for itself. *)
Fixpoint codePoints (s : jsstring) : list Z :=
  match s with
  | [] => []
  | hi :: s' =>
      match s' with
      | lo :: s'' =>
          if isHighSurrogate hi && isLowSurrogate lo
          then (65536 + (hi - 55296) * 1024 + (lo - 56320)) :: codePoints s''
          else hi :: codePoints s'
      | [] => [hi]
      end
  end.

Definition codeUnitsOf (cp : Z) : jsstring :=
  if cp <? 65536 then [cp]
  else [55296 + (cp - 65536) / 1024; 56320 + (cp - 65536) mod 1024].

Definition fromCodePoints (cps : list Z) : jsstring := flat_map codeUnitsOf cps.

(** Canonical ordering: a code point of non-zero combining class moves
    left past every neighbour of strictly greater class. [placed] is the
    text ordered so far, last code point first. *)
Fixpoint placeCodePoint (ucd : UnicodeData) (c : Z) (placed : list Z) : list Z :=
  match placed with
  | [] => [c]
  | d :: placed' =>
      if (0 <? combiningClass ucd c) &&
         (combiningClass ucd c <? combiningClass ucd d)
      then d :: placeCodePoint ucd c placed'
      else c :: placed
  end.

Definition canonicalOrder (ucd : UnicodeData) (cps : list Z) : list Z :=
  rev (fold_left (fun placed c => placeCodePoint ucd c placed) cps []).

(** [String.prototype.normalize('NFD')] *)
Definition normalizeNFD (ucd : UnicodeData) (s : jsstring) : jsstring :=
  fromCodePoints
    (canonicalOrder ucd (flat_map (canonicalDecomposition ucd) (codePoints s))).

(** The entries of the Unicode Character Database for the code points the
    examples of this development use; every other code point is treated as
    a starter without decomposition. *)
Definition unicodeExcerpt : UnicodeData := {|
  canonicalDecomposition c :=
    if c =? 232 then [101; 768]              (* e grave *)
    else if c =? 233 then [101; 769]         (* e acute *)
    else if c =? 252 then [117; 776]         (* u diaeresis *)
    else if c =? 7785 then [115; 803; 775]   (* s, dot below, dot above *)
    else if (44032 <=? c) && (c <? 55204) then
      let i := c - 44032 in
      let l := 4352 + i / 588 in
      let v := 4449 + (i mod 588) / 28 in
      let t := i mod 28 in
      if t =? 0 then [l; v] else [l; v; 4519 + t]
    else [c];
  combiningClass c :=
    if (768 <=? c) && (c <=? 788) then 230   (* U+0300 to U+0314 *)
    else if c =? 803 then 220                (* U+0323 dot below *)
    else if c =? 2364 then 7                 (* U+093C Devanagari nukta *)
    else if c =? 2381 then 9                 (* U+094D Devanagari virama *)
    else 0;
  upperCase c :=
    if (97 <=? c) && (c <=? 122) then [c - 32]      (* a to z *)
    else if (c =? 232) || (c =? 233) || (c =? 252) then [c - 32]
    else [c]
|}.

(** ** Sanitizer *)

Definition inRange (lo hi c : Z) : bool := (lo <=? c) && (c <=? hi).

(** [s.replace(/[...]/g, '')] for a class of code units. *)
Definition removeAll (cls : Z -> bool) (s : jsstring) : jsstring :=
  filter (fun c => negb (cls c)) s.

(** Combining diacritical marks, U+0300 to U+036F. *)
Definition isCombiningMark (c : Z) : bool := inRange 768 879 c.

(** C0 and C1 controls and DEL, save tab, line feed and carriage return. *)
Definition isControl (c : Z) : bool :=
  inRange 0 8 c || (c =? 11) || (c =? 12) || inRange 14 31 c ||
  inRange 127 159 c.

(** Zero-width space, non-joiner, joiner, and the byte-order mark. *)
Definition isZeroWidth (c : Z) : bool := inRange 8203 8205 c || (c =? 65279).

(** Directional isolates, U+2066 to U+2069. *)
Definition isDirectionalIsolate (c : Z) : bool :=
  (c =? 8294) || (c =? 8295) || (c =? 8296) || (c =? 8297).

(** [sanitizeContent] *)
Definition sanitizeContent (ucd : UnicodeData) (content : jsstring) : jsstring :=
  match content with
  | [] => []
  | _ =>
      trim
        (removeAll isDirectionalIsolate
           (removeAll isZeroWidth
              (removeAll isControl
                 (removeAll isCombiningMark
                    (normalizeNFD ucd content)))))
  end.

(** ** UTF-8 and MD5

    [crypto.createHash('md5').update(value).digest('hex')]: the string is
    encoded in UTF-8 and hashed as RFC 1321 describes. A byte is a [Z] in
    [0, 255], a word a [Z] in [0, 2^32). *)

Definition isSurrogate (c : Z) : bool := (55296 <=? c) && (c <=? 57343).

(** A lone surrogate is encoded as U+FFFD. *)
Definition utf8OfCodePoint (cp : Z) : list Z :=
  if cp <? 128 then [cp]
  else if cp <? 2048 then [192 + cp / 64; 128 + cp mod 64]
  else if cp <? 65536 then
    if isSurrogate cp then [239; 191; 189]
    else [224 + cp / 4096; 128 + (cp / 64) mod 64; 128 + cp mod 64]
  else [240 + cp / 262144; 128 + (cp / 4096) mod 64;
        128 + (cp / 64) mod 64; 128 + cp mod 64].

Definition utf8Encode (s : jsstring) : list Z :=
  flat_map utf8OfCodePoint (codePoints s).

Module MD5.

Definition wordModulus : Z := 4294967296.

Definition add32 (x y : Z) : Z := (x + y) mod wordModulus.
Definition not32 (x : Z) : Z := 4294967295 - x.
Definition rotl32 (x n : Z) : Z :=
  (Z.shiftl x n) mod wordModulus + Z.shiftr x (32 - n).

(** floor(2^32 * abs(sin(i + 1))), for i from 0 to 63 *)
Definition K : list Z :=
[
 3614090360; 3905402710; 606105819; 3250441966;
 4118548399; 1200080426; 2821735955; 4249261313;
 1770035416; 2336552879; 4294925233; 2304563134;
 1804603682; 4254626195; 2792965006; 1236535329;
 4129170786; 3225465664; 643717713; 3921069994;
 3593408605; 38016083; 3634488961; 3889429448;
 568446438; 3275163606; 4107603335; 1163531501;
 2850285829; 4243563512; 1735328473; 2368359562;
 4294588738; 2272392833; 1839030562; 4259657740;
 2763975236; 1272893353; 4139469664; 3200236656;
 681279174; 3936430074; 3572445317; 76029189;
 3654602809; 3873151461; 530742520; 3299628645;
 4096336452; 1126891415; 2878612391; 4237533241;
 1700485571; 2399980690; 4293915773; 2240044497;
 1873313359; 4264355552; 2734768916; 1309151649;
 4149444226; 3174756917; 718787259; 3951481745
].

Definition shifts : list Z :=
  [7; 12; 17; 22; 7; 12; 17; 22; 7; 12; 17; 22; 7; 12; 17; 22;
   5; 9; 14; 20; 5; 9; 14; 20; 5; 9; 14; 20; 5; 9; 14; 20;
   4; 11; 16; 23; 4; 11; 16; 23; 4; 11; 16; 23; 4; 11; 16; 23;
   6; 10; 15; 21; 6; 10; 15; 21; 6; 10; 15; 21; 6; 10; 15; 21].

Record state : Type := { A : Z; B : Z; C : Z; D : Z }.

Definition initial : state :=
  {| A := 1732584193; B := 4023233417; C := 2562383102; D := 271733878 |}.

(** Little-endian word of four bytes. *)
Definition wordOfBytes (bs : list Z) : Z :=
  nth 0 bs 0 + 256 * nth 1 bs 0 + 65536 * nth 2 bs 0 + 16777216 * nth 3 bs 0.

Definition bytesOfWord (w : Z) : list Z :=
  [w mod 256; (w / 256) mod 256; (w / 65536) mod 256; (w / 16777216) mod 256].

Fixpoint chunks (size : nat) (count : nat) (bs : list Z) : list (list Z) :=
  match count with
  | O => []
  | S count' => firstn size bs :: chunks size count' (skipn size bs)
  end.

(** The message, the byte 128, zero bytes up to 56 modulo 64, and the
    length in bits as eight little-endian bytes. *)
Definition pad (message : list Z) : list Z :=
  let len := Z.of_nat (length message) in
  let zeros := Z.to_nat ((55 - len) mod 64) in
  let bits := 8 * len in
  message ++ [128] ++ repeat 0 zeros ++
  bytesOfWord (bits mod wordModulus) ++
  bytesOfWord ((bits / wordModulus) mod wordModulus).

Definition round (M : list Z) (s : state) (i : nat) : state :=
  let i' := Z.of_nat i in
  let '(F, g) :=
    if i' <? 16 then
      (Z.lor (Z.land (B s) (C s)) (Z.land (not32 (B s)) (D s)), i')
    else if i' <? 32 then
      (Z.lor (Z.land (D s) (B s)) (Z.land (not32 (D s)) (C s)),
       (5 * i' + 1) mod 16)
    else if i' <? 48 then
      (Z.lxor (B s) (Z.lxor (C s) (D s)), (3 * i' + 5) mod 16)
    else
      (Z.lxor (C s) (Z.lor (B s) (not32 (D s))), (7 * i') mod 16) in
  let F' := add32 (add32 (add32 F (A s)) (nth i K 0)) (nth (Z.to_nat g) M 0) in
  {| A := D s; D := C s; C := B s;
     B := add32 (B s) (rotl32 F' (nth i shifts 0)) |}.

Definition processBlock (s : state) (block : list Z) : state :=
  let M := map wordOfBytes (chunks 4 16 block) in
  let r := fold_left (round M) (seq 0 64) s in
  {| A := add32 (A s) (A r); B := add32 (B s) (B r);
     C := add32 (C s) (C r); D := add32 (D s) (D r) |}.

(** The sixteen bytes of the digest. *)
Definition digest (message : list Z) : list Z :=
  let padded := pad message in
  let blocks := chunks 64 (length padded / 64) padded in
  let s := fold_left processBlock blocks initial in
  bytesOfWord (A s) ++ bytesOfWord (B s) ++
  bytesOfWord (C s) ++ bytesOfWord (D s).

End MD5.

Definition hexDigit (d : Z) : Z := if d <? 10 then 48 + d else 87 + d.

(** [digest('hex')]: two lower-case digits per byte. *)
Definition hexEncode (bytes : list Z) : jsstring :=
  flat_map (fun b => [hexDigit (b / 16); hexDigit (b mod 16)]) bytes.

(** [String.prototype.substring(0, n)] *)
Definition substring0 (n : nat) (s : jsstring) : jsstring := firstn n s.

(** ** Identifier generator *)

Definition valueHash (value : jsstring) : jsstring :=
  substring0 8 (hexEncode (MD5.digest (utf8Encode value))).

(** [generateFtlIdWithL10nId] *)
Definition generateFtlIdWithL10nId (l10nId fieldPath value : jsstring)
  : jsstring :=
  let hash := valueHash value in
  let fieldPathWithDashes := replaceAllChar DOT (js "-") fieldPath in
  l10nId ++ js "-" ++ fieldPathWithDashes ++ js "-" ++ hash.

(** ** JavaScript values and objects *)

(** The values a parsed JSON payload can hold. A number is kept as an
    integer: the pipeline only ever tests a number for truthiness. *)
Inductive JsVal : Type :=
| JNull
| JUndefined
| JBool (b : bool)
| JNum (n : Z)
| JStr (s : jsstring)
| JArr (items : list JsVal)
| JObj (props : list (jsstring * JsVal)).

(** ToBoolean *)
Definition truthy (v : JsVal) : bool :=
  match v with
  | JNull | JUndefined => false
  | JBool b => b
  | JNum n => negb (n =? 0)
  | JStr s => negb (str_eqb s [])
  | JArr _ | JObj _ => true
  end.

(** [o[k]] on a property list; a missing property reads as [undefined]. *)
Fixpoint getProp {V} (o : list (jsstring * V)) (k : jsstring) : option V :=
  match o with
  | [] => None
  | (k', v) :: o' => if str_eqb k' k then Some v else getProp o' k
  end.

Definition getField (o : list (jsstring * JsVal)) (k : jsstring) : JsVal :=
  match getProp o k with
  | Some v => v
  | None => JUndefined
  end.

Definition isDigit (c : Z) : bool := (48 <=? c) && (c <=? 57).

Fixpoint digitsValue (acc : Z) (s : jsstring) : Z :=
  match s with
  | [] => acc
  | c :: s' => digitsValue (10 * acc + (c - 48)) s'
  end.

(** A property key that is an array index: the canonical decimal form of
    an integer below 2^32 - 1. Such keys are enumerated first, in numeric
    order; all other keys follow in creation order. *)
Definition arrayIndex (k : jsstring) : option Z :=
  match k with
  | [] => None
  | c :: rest =>
      if forallb isDigit k &&
         (negb (c =? 48) || match rest with [] => true | _ => false end)
      then let n := digitsValue 0 k in
           if n <? 4294967295 then Some n else None
      else None
  end.

(** Position of a newly created property among the existing ones. *)
Fixpoint insertNewProp {V} (o : list (jsstring * V)) (k : jsstring) (v : V)
  : list (jsstring * V) :=
  match o with
  | [] => [(k, v)]
  | (k', v') :: o' =>
      match arrayIndex k, arrayIndex k' with
      | Some n, Some n' =>
          if n <? n' then (k, v) :: o else (k', v') :: insertNewProp o' k v
      | Some _, None => (k, v) :: o
      | None, _ => (k', v') :: insertNewProp o' k v
      end
  end.

Fixpoint updateProp {V} (o : list (jsstring * V)) (k : jsstring) (v : V)
  : list (jsstring * V) :=
  match o with
  | [] => []
  | (k', v') :: o' =>
      if str_eqb k' k then (k', v) :: o' else (k', v') :: updateProp o' k v
  end.

(** [o[k] = v] on an ordinary object: an existing property keeps its
    place, a new one is created. *)
Definition setProp {V} (o : list (jsstring * V)) (k : jsstring) (v : V)
  : list (jsstring * V) :=
  match getProp o k with
  | Some _ => updateProp o k v
  | None => insertNewProp o k v
  end.

(** Names every ordinary object inherits from [Object.prototype]. A read
    of such a name on an object without an own property of that name finds
    the built-in member, which is truthy. *)
Definition objectPrototypeMembers : list jsstring :=
  [js "constructor"; js "__proto__"; js "hasOwnProperty"; js "isPrototypeOf";
   js "propertyIsEnumerable"; js "toLocaleString"; js "toString";
   js "valueOf"; js "__defineGetter__"; js "__defineSetter__";
   js "__lookupGetter__"; js "__lookupSetter__"].

Inductive member (V : Type) : Type :=
| Own (v : V)
| Inherited
| Missing.
Arguments Own {V} v.
Arguments Inherited {V}.
Arguments Missing {V}.

(** The read [o[k]], telling apart where the value is found. *)
Definition lookupMember {V} (o : list (jsstring * V)) (k : jsstring)
  : member V :=
  match getProp o k with
  | Some v => Own v
  | None =>
      if existsb (str_eqb k) objectPrototypeMembers then Inherited
      else Missing
  end.

(** The assignment [o[k] = s] of a primitive string: as [setProp], except
    that on an object without an own [__proto__] property the inherited
    setter of that name takes the write and ignores a primitive. *)
Definition assignProp {V} (o : list (jsstring * V)) (k : jsstring) (v : V)
  : list (jsstring * V) :=
  match getProp o k with
  | None => if str_eqb k (js "__proto__") then o else insertNewProp o k v
  | Some _ => updateProp o k v
  end.

(** [Object.assign(target, source)] for a source of primitive strings. *)
Definition objectAssign {V} (target source : list (jsstring * V))
  : list (jsstring * V) :=
  fold_left (fun t kv => assignProp t (fst kv) (snd kv)) source target.

(** ** Extractor *)

Definition isStringValue (value : JsVal) : bool :=
  match value with
  | JStr s => negb (str_eqb (trim s) [])
  | _ => false
  end.

Definition isUrl (value : JsVal) : bool :=
  match value with
  | JStr s =>
      startsWith s (js "http://") ||
      startsWith s (js "https://") ||
      startsWith s (js "//")
  | _ => false
  end.

(** A regular expression anchored at the start, made of one-code-unit
    classes only. *)
Fixpoint testPrefix (pattern : list (Z -> bool)) (s : jsstring)
    {struct pattern} : bool :=
  match pattern, s with
  | [], _ => true
  | _ :: _, [] => false
  | cls :: pattern', c :: s' => cls c && testPrefix pattern' s'
  end.

(** [/^\d{4}-\d{2}-\d{2}T\d{2}:\d{2}:\d{2}/] *)
Definition datePattern : list (Z -> bool) :=
  let d := isDigit in
  let lit (x : Z) := fun c => c =? x in
  [d; d; d; d; lit 45; d; d; lit 45; d; d; lit 84;
   d; d; lit 58; d; d; lit 58; d; d].

Definition isDate (value : JsVal) : bool :=
  match value with
  | JStr s => testPrefix datePattern s
  | _ => false
  end.

Definition isColor (value : JsVal) : bool :=
  match value with
  | JStr s =>
      startsWith s (js "#") ||
      startsWith s (js "rgb(") ||
      startsWith s (js "rgba(") ||
      includes s (js "linear-gradient")
  | _ => false
  end.

Definition metadataFields : list jsstring :=
  [js "id"; js "documentId"; js "clientId"; js "createdAt"; js "updatedAt";
   js "publishedAt"; js "entrypoint"; js "name"; js "l10nId"].

Definition shouldIncludeField (key : jsstring) (value : JsVal) : bool :=
  if existsb (str_eqb key) metadataFields then false
  else if negb (isStringValue value) then false
  else negb (isUrl value || isDate value || isColor value).

(** The template [prefix ? `${prefix}.${key}` : key]. *)
Definition fieldKeyOf (prefix key : jsstring) : jsstring :=
  match prefix with
  | [] => key
  | _ => prefix ++ js "." ++ key
  end.

(** [extractStringsFromObject]: the result record is a property list from
    field path to string. The method is only ever called on plain objects;
    on any other value the model returns the empty record. *)
Fixpoint extractStringsFromObject (obj : JsVal) (prefix : jsstring)
  : list (jsstring * jsstring) :=
  match obj with
  | JObj props =>
      (fix loop (entries : list (jsstring * JsVal))
                (strings : list (jsstring * jsstring)) :=
         match entries with
         | [] => strings
         | (key, value) :: rest =>
             loop rest
               match value with
               | JNull | JUndefined => strings
               | JObj _ =>
                   let nestedStrings :=
                     extractStringsFromObject value (fieldKeyOf prefix key) in
                   objectAssign strings nestedStrings
               | JStr s =>
                   if shouldIncludeField key value
                   then assignProp strings (fieldKeyOf prefix key) s
                   else strings
               | _ => strings
               end
         end) props []
  | _ => []
  end.

(** ** Serializer *)

Module Entry.
(** An element of [allEntries]. *)
Record t : Type := {
  l10nId : jsstring;
  ftlId : jsstring;
  value : jsstring;
  fieldPath : jsstring;
  entryName : JsVal;
  entrypoint : JsVal
}.
End Entry.

(** How a method call ends. [OutsideModel] marks the inputs whose effect
    this development does not represent: a truthy [l10nId] or [name] that
    is not a string, against the declared type of the entry record, and a
    named property written onto an array. *)
Inductive outcome (A : Type) : Type :=
| Returns (a : A)
| ThrowsTypeError
| OutsideModel.
Arguments Returns {A} a.
Arguments ThrowsTypeError {A}.
Arguments OutsideModel {A}.

Definition bind {A B} (m : outcome A) (f : A -> outcome B) : outcome B :=
  match m with
  | Returns a => f a
  | ThrowsTypeError => ThrowsTypeError
  | OutsideModel => OutsideModel
  end.

Notation "x <- m ;; k" := (bind m (fun x => k))
  (at level 61, m at next level, right associativity).

(** [s.replace(/([A-Z])/g, ' $1')] *)
Definition spaceBeforeCapitals (s : jsstring) : jsstring :=
  flat_map (fun c => if inRange 65 90 c then [32; c] else [c]) s.

Definition isLineTerminator (c : Z) : bool :=
  (c =? LF) || (c =? CR) || (c =? 8232) || (c =? 8233).

(** [s.replace(/^./, str => str.toUpperCase())] *)
Definition upperCaseFirst (ucd : UnicodeData) (s : jsstring) : jsstring :=
  match s with
  | [] => []
  | c :: s' => if isLineTerminator c then s else upperCase ucd c ++ s'
  end.

Definition readableName (ucd : UnicodeData) (name : jsstring) : jsstring :=
  trim (upperCaseFirst ucd (spaceBeforeCapitals name)).

(** [x || 'Unknown'] for an array element that may be missing. *)
Definition orUnknown (x : option jsstring) : jsstring :=
  match x with
  | Some ((_ :: _) as s) => s
  | _ => js "Unknown"
  end.

(** [generateFieldComment]; its other three parameters are not used. *)
Definition generateFieldComment (ucd : UnicodeData) (fieldPath : jsstring)
  : jsstring :=
  let parts := split DOT fieldPath in
  let componentName := orUnknown (nth_error parts 0) in
  let fieldName := orUnknown (nth_error parts 1) in
  let readableComponentName := readableName ucd componentName in
  let readableFieldName := readableName ucd fieldName in
  readableFieldName ++ js " for " ++ readableComponentName.

Definition isEntryLevelKey (k : jsstring) : bool :=
  str_eqb k (js "l10nId") || str_eqb k (js "name") ||
  str_eqb k (js "entrypoint").

(** The body of the first loop: the entries one element of [strapiData]
    adds to [allEntries]. *)
Definition collectEntry (ucd : UnicodeData) (entry : JsVal)
  : outcome (list Entry.t) :=
  match entry with
  | JObj props =>
      let l10nId := getField props (js "l10nId") in
      let name := getField props (js "name") in
      let entrypoint := getField props (js "entrypoint") in
      let entryData :=
        filter (fun kv => negb (isEntryLevelKey (fst kv))) props in
      match l10nId with
      | JStr ((_ :: _) as l10nId) =>
          let strings := extractStringsFromObject (JObj entryData) [] in
          Returns
            (map (fun kv =>
                    let fieldPath := fst kv in
                    let sanitizedValue := sanitizeContent ucd (snd kv) in
                    let ftlId :=
                      generateFtlIdWithL10nId l10nId fieldPath sanitizedValue in
                    {| Entry.l10nId := l10nId;
                       Entry.ftlId := ftlId;
                       Entry.value := sanitizedValue;
                       Entry.fieldPath := fieldPath;
                       Entry.entryName := name;
                       Entry.entrypoint := entrypoint |})
                 strings)
      | _ => if truthy l10nId then OutsideModel else Returns []
      end
  | _ => Returns []
  end.

Fixpoint collectEntries (ucd : UnicodeData) (strapiData : list JsVal)
  : outcome (list Entry.t) :=
  match strapiData with
  | [] => Returns []
  | entry :: rest =>
      fromEntry <- collectEntry ucd entry ;;
      fromRest <- collectEntries ucd rest ;;
      Returns (fromEntry ++ fromRest)
  end.

(** The comparator handed to [sort]; [localeCompare] is the host's
    collation. *)
Definition compareEntries (localeCompare : jsstring -> jsstring -> Z)
    (a b : Entry.t) : Z :=
  if negb (str_eqb (Entry.l10nId a) (Entry.l10nId b))
  then localeCompare (Entry.l10nId a) (Entry.l10nId b)
  else localeCompare (Entry.fieldPath a) (Entry.fieldPath b).

(** [Array.prototype.sort(compare)]: the sort is stable, so with a
    consistent comparator its result is the one of any stable sorting
    algorithm; insertion from the right is one. *)
Fixpoint insertSorted {A} (compare : A -> A -> Z) (x : A) (l : list A) : list A :=
  match l with
  | [] => [x]
  | y :: l' =>
      if compare x y <=? 0 then x :: l else y :: insertSorted compare x l'
  end.

Definition sortWith {A} (compare : A -> A -> Z) (l : list A) : list A :=
  fold_right (insertSorted compare) [] l.

(** The second loop; [seenFtlIds] is the set of identifiers met so far. *)
Fixpoint uniqueByFtlId (entries : list Entry.t) (seenFtlIds : list jsstring)
  : list Entry.t :=
  match entries with
  | [] => []
  | entry :: rest =>
      if negb (existsb (str_eqb (Entry.ftlId entry)) seenFtlIds)
      then entry :: uniqueByFtlId rest (Entry.ftlId entry :: seenFtlIds)
      else uniqueByFtlId rest seenFtlIds
  end.

(** [entry.entryName || 'CMS Entry'] inside the template. *)
Definition entryNameOrDefault (entryName : JsVal) : outcome jsstring :=
  match entryName with
  | JStr ((_ :: _) as s) => Returns s
  | v => if truthy v then OutsideModel else Returns (js "CMS Entry")
  end.

Definition dataLine (entry : Entry.t) : jsstring :=
  Entry.ftlId entry ++ js " = " ++ Entry.value entry.

(** The third loop: the lines pushed for [uniqueEntries], from the state
    [currentL10nId]. *)
Fixpoint renderEntries (ucd : UnicodeData) (uniqueEntries : list Entry.t)
    (currentL10nId : jsstring) : outcome (list jsstring) :=
  match uniqueEntries with
  | [] => Returns []
  | entry :: rest =>
      let changed := negb (str_eqb (Entry.l10nId entry) currentL10nId) in
      header <-
        (if changed then
           name <- entryNameOrDefault (Entry.entryName entry) ;;
           Returns
             ((if negb (str_eqb currentL10nId []) then [[]] else []) ++
              [js "# " ++ Entry.l10nId entry ++ js " - " ++ name])
         else Returns []) ;;
      let currentL10nId' :=
        if changed then Entry.l10nId entry else currentL10nId in
      let comment := generateFieldComment ucd (Entry.fieldPath entry) in
      lines <- renderEntries ucd rest currentL10nId' ;;
      Returns (header ++ [js "# " ++ comment; dataLine entry] ++ lines)
  end.

(** [strapiToFtl]; [timestamp] is [new Date().toISOString()]. *)
Definition strapiToFtl (ucd : UnicodeData)
    (localeCompare : jsstring -> jsstring -> Z) (timestamp : jsstring)
    (strapiData : list JsVal) : outcome jsstring :=
  allEntries <- collectEntries ucd strapiData ;;
  let sorted := sortWith (compareEntries localeCompare) allEntries in
  let uniqueEntries := uniqueByFtlId sorted [] in
  lines <- renderEntries ucd uniqueEntries [] ;;
  Returns
    (join [LF]
       ([js "# Generated on " ++ timestamp;
         js "# FTL file for CMS localization";
         []] ++ lines)).

(** A collation for the examples: lexicographic by code unit. *)
Fixpoint codeUnitCompare (a b : jsstring) : Z :=
  match a, b with
  | [], [] => 0
  | [], _ :: _ => -1
  | _ :: _, [] => 1
  | x :: a', y :: b' =>
      if x <? y then -1 else if y <? x then 1 else codeUnitCompare a' b'
  end.

(** ** Deserializer *)

(** The class [[a-zA-Z0-9_-]] *)
Definition isIdChar (c : Z) : bool :=
  ((97 <=? c) && (c <=? 122)) || ((65 <=? c) && (c <=? 90)) ||
  isDigit c || (c =? 95) || (c =? DASH).

Fixpoint takeWhile (p : Z -> bool) (s : jsstring) : jsstring :=
  match s with
  | [] => []
  | c :: s' => if p c then c :: takeWhile p s' else []
  end.

Fixpoint dropWhile (p : Z -> bool) (s : jsstring) : jsstring :=
  match s with
  | [] => []
  | c :: s' => if p c then dropWhile p s' else s
  end.

Definition notQuote (c : Z) : bool := negb (c =? QUOTE).

(** The match of the data-line pattern: an identifier, optional white
    space, the equals sign, optional white space, and a value between
    double quotes that reaches the end of the line and holds no double
    quote. No class of the pattern overlaps the one that follows it, so the
    match, when there is one, is found by reading the line once from the
    left; the result is the pair of captures (identifier, value). *)
Definition matchDataLine (line : jsstring) : option (jsstring * jsstring) :=
  match takeWhile isIdChar line with
  | [] => None
  | ftlId =>
      match dropWhile isWhiteSpace (dropWhile isIdChar line) with
      | c :: afterEq =>
          if c =? EQUALS then
            match dropWhile isWhiteSpace afterEq with
            | q :: quoted =>
                if q =? QUOTE then
                  match rev quoted with
                  | q' :: revValue =>
                      if (q' =? QUOTE) && forallb notQuote revValue
                      then Some (ftlId, rev revValue)
                      else None
                  | [] => None
                  end
                else None
            | [] => None
            end
          else None
      | [] => None
      end
  end.

(** [s.replace(/ab/g, r)] for a pattern of two literal code units. *)
Fixpoint replaceAllPair (a b : Z) (r : jsstring) (s : jsstring) : jsstring :=
  match s with
  | x :: s' =>
      match s' with
      | y :: s'' =>
          if (x =? a) && (y =? b) then r ++ replaceAllPair a b r s''
          else x :: replaceAllPair a b r s'
      | [] => s
      end
  | [] => s
  end.

(** The three replacements applied to a captured value. *)
Definition unescapeQuote (value : jsstring) : jsstring :=
  replaceAllPair BACKSLASH QUOTE [QUOTE] value.

Definition unescapeValue (value : jsstring) : jsstring :=
  replaceAllPair BACKSLASH 114 [CR]
    (replaceAllPair BACKSLASH 110 [LF] (unescapeQuote value)).

(** [if (!target[componentName]) target[componentName] = {}] *)
Definition ensureComponent (target : list (jsstring * JsVal))
    (componentName : jsstring) : list (jsstring * JsVal) :=
  match lookupMember target componentName with
  | Own v => if truthy v then target
             else setProp target componentName (JObj [])
  | Inherited => target
  | Missing => setProp target componentName (JObj [])
  end.

(** The fields of a built-in function that an assignment cannot change:
    [name] and [length] are read-only. *)
Definition isReadOnlyOfFunction (fieldName : jsstring) : bool :=
  str_eqb fieldName (js "name") || str_eqb fieldName (js "length").

(** [target[componentName][fieldName] = value] for a string [value], in
    strict-mode code.
    - On a plain object the field is assigned.
    - On [null] and [undefined] the write throws a TypeError.
    - On a string, a number or a boolean the write throws a TypeError,
      except for the field [__proto__], whose inherited setter takes the
      write and ignores a primitive.
    - When [target] has no own property of that name and the read finds a
      member of [Object.prototype] (a built-in function, or
      [Object.prototype] itself under the name [__proto__]), the write
      goes to that built-in: the field [__proto__] is taken by the setter
      and ignored; the read-only fields [name] and [length] of a built-in
      function throw a TypeError; any other write changes an object that
      the whole program shares, which is outside this model.
    - Arrays are outside this model. *)
Definition assignComponentField (target : list (jsstring * JsVal))
    (componentName fieldName value : jsstring)
  : outcome (list (jsstring * JsVal)) :=
  match lookupMember target componentName with
  | Own (JObj fields) =>
      Returns (setProp target componentName
                 (JObj (assignProp fields fieldName (JStr value))))
  | Own (JArr _) => OutsideModel
  | Own JNull | Own JUndefined => ThrowsTypeError
  | Own _ =>
      if str_eqb fieldName (js "__proto__") then Returns target
      else ThrowsTypeError
  | Inherited =>
      if str_eqb fieldName (js "__proto__") then Returns target
      else if negb (str_eqb componentName (js "__proto__")) &&
              isReadOnlyOfFunction fieldName
      then ThrowsTypeError
      else OutsideModel
  | Missing => ThrowsTypeError
  end.

Definition setComponentField (target : list (jsstring * JsVal))
    (componentName fieldName value : jsstring)
  : outcome (list (jsstring * JsVal)) :=
  assignComponentField (ensureComponent target componentName)
    componentName fieldName value.

(** The body of the loop over the lines of the file. *)
Definition convertFtlLine (l10nId : jsstring)
    (strapiFormat : list (jsstring * JsVal)) (line : jsstring)
  : outcome (list (jsstring * JsVal)) :=
  let trimmedLine := trim line in
  if str_eqb trimmedLine [] || startsWith trimmedLine (js "#")
  then Returns strapiFormat
  else
    match matchDataLine trimmedLine with
    | None => Returns strapiFormat
    | Some (ftlId, value) =>
        let ftlIdParts := split DASH ftlId in
        if (3 <=? Z.of_nat (length ftlIdParts)) then
          let ftlL10nId := nth 0 ftlIdParts [] in
          if str_eqb ftlL10nId l10nId then
            match parseFtlIdToFieldPath ftlId with
            | None => Returns strapiFormat
            | Some [] => Returns strapiFormat
            | Some fieldPath =>
                let parts := split DOT fieldPath in
                if (2 <=? Z.of_nat (length parts)) then
                  let componentName := nth 0 parts [] in
                  let fieldName := nth 1 parts [] in
                  let unescapedValue := unescapeValue value in
                  setComponentField strapiFormat componentName fieldName
                    unescapedValue
                else Returns strapiFormat
            end
          else Returns strapiFormat
        else Returns strapiFormat
    end.

Fixpoint convertFtlLines (l10nId : jsstring)
    (strapiFormat : list (jsstring * JsVal)) (lines : list jsstring)
  : outcome (list (jsstring * JsVal)) :=
  match lines with
  | [] => Returns strapiFormat
  | line :: rest =>
      strapiFormat' <- convertFtlLine l10nId strapiFormat line ;;
      convertFtlLines l10nId strapiFormat' rest
  end.

(** [convertFtlToStrapiFormat]; [baseData] is the base entry object. *)
Definition convertFtlToStrapiFormat (l10nId ftlContent : jsstring)
    (baseData : list (jsstring * JsVal))
  : outcome (list (jsstring * JsVal)) :=
  let strapiFormat :=
    [ (js "clientId", getField baseData (js "clientId"));
      (js "entrypoint", getField baseData (js "entrypoint"));
      (js "name", getField baseData (js "name"));
      (js "l10nId", getField baseData (js "l10nId")) ] in
  let lines := split LF ftlContent in
  convertFtlLines l10nId strapiFormat lines.

(** ** Merger *)

Fixpoint decimalDigits (fuel : nat) (n : Z) (acc : jsstring) : jsstring :=
  match fuel with
  | O => acc
  | S fuel' =>
      let acc' := (48 + n mod 10) :: acc in
      if n <? 10 then acc' else decimalDigits fuel' (n / 10) acc'
  end.

(** The decimal form of a non-negative integer; it has no more digits
    than the integer has bits. *)
Definition decimal (n : Z) : jsstring :=
  decimalDigits (S (Z.to_nat (Z.log2 n))) n [].

Fixpoint indexed {A} (i : Z) (l : list A) : list (jsstring * A) :=
  match l with
  | [] => []
  | x :: l' => (decimal i, x) :: indexed (i + 1) l'
  end.

(** The own enumerable properties of a value, as [Object.entries] and the
    spread [{...v}] read them. *)
Definition ownEntries (v : JsVal) : list (jsstring * JsVal) :=
  match v with
  | JObj props => props
  | JArr items => indexed 0 items
  | JStr s => indexed 0 (map (fun c => JStr [c]) s)
  | _ => []
  end.

(** [typeof v === 'object' && v !== null] *)
Definition isObjectTyped (v : JsVal) : bool :=
  match v with
  | JObj _ | JArr _ => true
  | _ => false
  end.

Definition isReservedKey (k : jsstring) : bool :=
  str_eqb k (js "clientId") || str_eqb k (js "entrypoint") ||
  str_eqb k (js "name") || str_eqb k (js "l10nId").

(** The inner loop, over the fields of one component. *)
Fixpoint mergeComponentFields (merged : list (jsstring * JsVal))
    (componentName : jsstring) (fields : list (jsstring * JsVal))
  : outcome (list (jsstring * JsVal)) :=
  match fields with
  | [] => Returns merged
  | (fieldName, fieldValue) :: rest =>
      match fieldValue with
      | JStr s =>
          merged' <- assignComponentField merged componentName fieldName s ;;
          mergeComponentFields merged' componentName rest
      | _ => mergeComponentFields merged componentName rest
      end
  end.

(** The body of the outer loop. *)
Definition mergeComponent (merged : list (jsstring * JsVal))
    (componentName : jsstring) (componentData : JsVal)
  : outcome (list (jsstring * JsVal)) :=
  if isReservedKey componentName then Returns merged
  else if isObjectTyped componentData then
    mergeComponentFields (ensureComponent merged componentName)
      componentName (ownEntries componentData)
  else Returns merged.

Fixpoint mergeComponents (merged : list (jsstring * JsVal))
    (components : list (jsstring * JsVal))
  : outcome (list (jsstring * JsVal)) :=
  match components with
  | [] => Returns merged
  | (componentName, componentData) :: rest =>
      merged' <- mergeComponent merged componentName componentData ;;
      mergeComponents merged' rest
  end.

(** [mergeCmsWithLocalization]. The result is described as a value: the
    components the copy shares with [baseData] are shown as they are after
    the call. *)
Definition mergeCmsWithLocalization (baseData localizedData : JsVal)
  : outcome JsVal :=
  if negb (truthy baseData) then Returns localizedData
  else if negb (truthy localizedData) then Returns baseData
  else
    let merged := ownEntries baseData in
    merged' <- mergeComponents merged (ownEntries localizedData) ;;
    Returns (JObj merged').

(** ** Repository reconciler

    The methods that talk to GitHub are sequences of awaited calls with
    [try]/[catch] around them. A method is modelled as a program: a tree
    whose nodes are the calls it awaits, with one continuation for the
    fulfilled promise and one for the rejected one. What the host answers
    is not part of the program; it is supplied when the program is run. *)

Module GitHub.

(** What the methods read of a pull request. *)
Record PullRequest : Type := {
  number : Z;
  title : jsstring;
  state : jsstring;
  head_ref : jsstring
}.

(** The data of [repos.getContent]: a file, with its blob [sha], or the
    array that lists a directory. *)
Inductive fileData : Type :=
| File (sha : jsstring)
| Directory.

Definition error : Type := jsstring.

(** The calls awaited by the methods, indexed by the type of the data they
    resolve to. The content to commit is given as the bytes of the file;
    the request carries them in base64. *)
Inductive call : Type -> Type :=
| PullsList (owner repo state : jsstring) (per_page : Z)
    : call (list PullRequest)
| PullsGet (owner repo : jsstring) (pull_number : Z) : call PullRequest
| ReposGetContent (owner repo path ref : jsstring) : call fileData
| ReposCreateOrUpdateFileContents (owner repo path message : jsstring)
    (content : list Z) (sha : option jsstring) (branch : jsstring) : call unit
| GitGetRef (owner repo ref : jsstring) : call jsstring
| GitCreateRef (owner repo ref sha : jsstring) : call unit
| PullsCreate (owner repo title body head base : jsstring) : call PullRequest
| DateNow : call Z
| DateToISOString : call jsstring
| Log (level event : jsstring) : call unit.

Inductive program (A : Type) : Type :=
| Return (a : A)
| Throw (e : error)
| Await {R : Type} (c : call R)
    (onRejected : error -> program A) (onFulfilled : R -> program A).
Arguments Return {A} a.
Arguments Throw {A} e.
Arguments Await {A R} c onRejected onFulfilled.

Definition await {R} (c : call R) : program R := Await c Throw Return.

Fixpoint andThen {A B} (p : program A) (f : A -> program B) : program B :=
  match p with
  | Return a => f a
  | Throw e => Throw e
  | Await c onRejected onFulfilled =>
      Await c (fun e => andThen (onRejected e) f)
              (fun r => andThen (onFulfilled r) f)
  end.

Fixpoint tryCatch {A} (p : program A) (handler : error -> program A)
  : program A :=
  match p with
  | Return a => Return a
  | Throw e => handler e
  | Await c onRejected onFulfilled =>
      Await c (fun e => tryCatch (onRejected e) handler)
              (fun r => tryCatch (onFulfilled r) handler)
  end.

Notation "x <~ p ;; k" := (andThen p (fun x => k))
  (at level 61, p at next level, right associativity).

(** [config.cmsl10n.github] *)
Record Config : Type := {
  owner : jsstring;
  repo : jsstring;
  branch : jsstring
}.

(** The optional [webhookDetails]. *)
Record WebhookDetails : Type := {
  eventType : option jsstring;
  entryId : option Z;
  model : option jsstring;
  entriesCount : option Z
}.

Definition isLocalizationPR (pr : PullRequest) : bool :=
  (includes (title pr) (js "cms.ftl") ||
   includes (title pr) (js "CMS localization")) &&
  str_eqb (state pr) (js "open").

(** [findExistingPR]; [None] is the source's [null]. *)
Definition findExistingPR (owner repo : jsstring)
  : program (option PullRequest) :=
  tryCatch
    (pullRequests <~ await (PullsList owner repo (js "open") 100) ;;
     let existingPR := find isLocalizationPR pullRequests in
     match existingPR with
     | Some pr =>
         _ <~ await (Log (js "info") (js "cms.integrations.github.pr.found")) ;;
         Return (Some pr)
     | None =>
         _ <~ await (Log (js "info") (js "cms.integrations.github.pr.notFound")) ;;
         Return None
     end)
    (fun error =>
       _ <~ await (Log (js "error") (js "cms.integrations.github.pr.search.error")) ;;
       Throw error).

Definition fileName : jsstring := js "cms.ftl".
Definition filePath : jsstring := js "locales/en/" ++ fileName.

(** The commit messages; each starts with an emoji outside the Basic
    Multilingual Plane, two code units. *)
Definition updateMessage : jsstring :=
  [55357; 56580] ++
  js " Update CMS localization file (cms.ftl) - Strapi webhook sync".
Definition addMessage : jsstring :=
  [55356; 57104] ++
  js " Add CMS localization file (cms.ftl) - Strapi webhook generated".

(** The inner [try]: the blob sha of the file on [ref], when there is
    one. *)
Definition currentFileSha (config : Config) (ref notFoundEvent : jsstring)
  : program (option jsstring) :=
  tryCatch
    (fileData <~ await (ReposGetContent (owner config) (repo config)
                          filePath ref) ;;
     match fileData with
     | File sha => Return (Some sha)
     | Directory => Return None
     end)
    (fun fileError =>
       _ <~ await (Log (js "info") notFoundEvent) ;;
       Return None).

(** [updateExistingPR] *)
Definition updateExistingPR (config : Config) (prNumber : Z)
    (ftlContent : jsstring) (webhookDetails : option WebhookDetails)
  : program unit :=
  tryCatch
    (pr <~ await (PullsGet (owner config) (repo config) prNumber) ;;
     fileSha <~ currentFileSha config (head_ref pr)
                  (js "cms.integrations.github.pr.fileNotFound") ;;
     let commitMessage :=
       match fileSha with
       | Some (_ :: _) => updateMessage
       | _ => addMessage
       end in
     _ <~ await (ReposCreateOrUpdateFileContents (owner config) (repo config)
                   filePath commitMessage (utf8Encode ftlContent) fileSha
                   (head_ref pr)) ;;
     _ <~ await (Log (js "info") (js "cms.integrations.github.pr.updated")) ;;
     Return tt)
    (fun error =>
       _ <~ await (Log (js "error") (js "cms.integrations.github.pr.update.error")) ;;
       Throw error).

Definition prTitle : jsstring :=
  [55356; 57104] ++ js " Add CMS localization file (cms.ftl)".

Definition orText (x : option jsstring) (fallback : jsstring) : jsstring :=
  match x with
  | Some ((_ :: _) as s) => s
  | _ => fallback
  end.

(** [x || fallback] inside a template, for a number: the text of a
    non-zero number is the one the engine's number-to-string conversion
    gives. The conversion is the parameter [numberToString]; on integers
    of fewer than 22 digits it is [integerToString]. *)
Definition orNumber (numberToString : Z -> jsstring) (x : option Z)
    (fallback : jsstring) : jsstring :=
  match x with
  | Some n => if n =? 0 then fallback else numberToString n
  | None => fallback
  end.

Definition integerToString (n : Z) : jsstring :=
  if n <? 0 then js "-" ++ decimal (- n) else decimal n.

(** The body of the pull request, a template over the entrypoint, the
    time and the webhook details. *)
Definition prBody (numberToString : Z -> jsstring)
    (entrypoint generated : jsstring)
    (webhookDetails : option WebhookDetails) : jsstring :=
  js "This pull request was automatically generated from a Strapi CMS webhook event." ++
  [LF; LF] ++ js "### " ++ [55357; 56523] ++ js " Details" ++
  [LF] ++ js "- **Entrypoint**: `" ++ entrypoint ++ js "`" ++
  [LF] ++ js "- **File**: `locales/en/" ++ fileName ++ js "`" ++
  [LF] ++ js "- **Format**: FTL (Fluent Translation List)" ++
  [LF] ++ js "- **Generated**: " ++ generated ++
  [LF] ++ js "- **Source**: Strapi CMS webhook" ++
  match webhookDetails with
  | Some d =>
      [LF; LF] ++ js "### " ++ [55357; 56599] ++ js " Webhook Details" ++
      [LF] ++ js "- **Event Type**: `" ++ orText (eventType d) (js "unknown") ++ js "`" ++
      [LF] ++ js "- **Model**: `" ++ orText (model d) (js "unknown") ++ js "`" ++
      [LF] ++ js "- **Entry ID**: `" ++
      orNumber numberToString (entryId d) (js "N/A") ++ js "`" ++
      [LF] ++ js "- **Total Entries Processed**: `" ++
      orNumber numberToString (entriesCount d) (js "unknown") ++ js "`"
  | None => []
  end.

(** [createGitHubPR]; the two numbers it prints, the time in the name of
    the branch and the numbers of the webhook details, go through the
    engine's number-to-string conversion. *)
Definition createGitHubPR (numberToString : Z -> jsstring) (config : Config)
    (ftlContent entrypoint : jsstring)
    (webhookDetails : option WebhookDetails) : program unit :=
  tryCatch
    (now <~ await DateNow ;;
     let branchName := js "cms-localization-" ++ numberToString now in
     refSha <~ await (GitGetRef (owner config) (repo config)
                        (js "heads/" ++ branch config)) ;;
     _ <~ await (GitCreateRef (owner config) (repo config)
                   (js "refs/heads/" ++ branchName) refSha) ;;
     fileSha <~ currentFileSha config (branch config)
                  (js "cms.integrations.github.pr.fileNotFoundInBase") ;;
     _ <~ await (ReposCreateOrUpdateFileContents (owner config) (repo config)
                   filePath addMessage (utf8Encode ftlContent) fileSha
                   branchName) ;;
     generated <~ await DateToISOString ;;
     prData <~ await (PullsCreate (owner config) (repo config) prTitle
                        (prBody numberToString entrypoint generated
                           webhookDetails)
                        branchName (branch config)) ;;
     _ <~ await (Log (js "info") (js "cms.integrations.github.pr.created")) ;;
     Return tt)
    (fun error =>
       _ <~ await (Log (js "error") (js "cms.integrations.github.pr.create.error")) ;;
       Throw error).

(** Modelled from the spec: the caller of the three methods above, the
    webhook handler, is not among the sources. Following sections 3 and 4.7
    of the specification, the pull request for the localization file is
    either found and updated, or, when none is found, created. *)
Definition reconcile (numberToString : Z -> jsstring) (config : Config)
    (ftlContent entrypoint : jsstring)
    (webhookDetails : option WebhookDetails) : program unit :=
  existingPR <~ findExistingPR (owner config) (repo config) ;;
  match existingPR with
  | Some pr => updateExistingPR config (number pr) ftlContent webhookDetails
  | None =>
      createGitHubPR numberToString config ftlContent entrypoint webhookDetails
  end.

(** *** Running a program *)

(** The host: how each call is answered, and what it changes. *)
Definition host (S : Type) : Type :=
  forall R, call R -> S -> (error + R) * S.

Inductive event : Type :=
| Issued {R : Type} (c : call R).

(** The result of a program, the final state of the host, and the calls
    issued, in order. *)
Fixpoint run {S A} (h : host S) (p : program A) (s : S)
  : (error + A) * S * list event :=
  match p with
  | Return a => (inr a, s, [])
  | Throw e => (inl e, s, [])
  | Await c onRejected onFulfilled =>
      let '(answer, s') := h _ c s in
      let '(result, s'', issued) :=
        match answer with
        | inl e => run h (onRejected e) s'
        | inr r => run h (onFulfilled r) s'
        end in
      (result, s'', Issued c :: issued)
  end.

Definition isPullsCreate (e : event) : bool :=
  match e with
  | Issued (PullsCreate _ _ _ _ _ _) => true
  | _ => false
  end.

Definition isGitCreateRef (e : event) : bool :=
  match e with
  | Issued (GitCreateRef _ _ _ _) => true
  | _ => false
  end.

(** *** A repository host

    A small GitHub, for running the methods on examples. The pull requests
    are kept in the order in which the list endpoint returns them, and the
    endpoint returns one page of at most [per_page] of those in the state
    asked for. *)

Record Repository : Type := {
  pulls : list PullRequest;
  branches : list (jsstring * jsstring);           (* name, head commit *)
  files : list (jsstring * jsstring * list Z);     (* branch, path, content *)
  clock : Z
}.

Definition notFound : error := js "Not Found".

Definition fileAt (s : Repository) (ref path : jsstring) : option (list Z) :=
  match find (fun f => str_eqb (fst (fst f)) ref && str_eqb (snd (fst f)) path)
             (files s) with
  | Some f => Some (snd f)
  | None => None
  end.

(** The identifier of a blob; any function of the content will do here. *)
Definition blobSha (content : list Z) : jsstring :=
  hexEncode (MD5.digest content).

Definition hasBranch (s : Repository) (name : jsstring) : bool :=
  existsb (fun b => str_eqb (fst b) name) (branches s).

Definition nextNumber (s : Repository) : Z :=
  1 + fold_right Z.max 0 (map number (pulls s)).

Definition gitHub : host Repository :=
  fun R (c : call R) (s : Repository) =>
    match c in call R return (error + R) * Repository with
    | PullsList _ _ st per_page =>
        (inr (firstn (Z.to_nat per_page)
                (filter (fun pr => str_eqb (state pr) st) (pulls s))), s)
    | PullsGet _ _ n =>
        (match find (fun pr => number pr =? n) (pulls s) with
         | Some pr => inr pr
         | None => inl notFound
         end, s)
    | ReposGetContent _ _ path ref =>
        (match fileAt s ref path with
         | Some content => inr (File (blobSha content))
         | None => inl notFound
         end, s)
    | ReposCreateOrUpdateFileContents _ _ path _ content _ branchName =>
        if hasBranch s branchName then
          (inr tt,
           {| pulls := pulls s; branches := branches s; clock := clock s;
              files := (branchName, path, content) ::
                       filter (fun f => negb (str_eqb (fst (fst f)) branchName &&
                                              str_eqb (snd (fst f)) path))
                              (files s) |})
        else (inl notFound, s)
    | GitGetRef _ _ ref =>
        (match find (fun b => str_eqb (js "heads/" ++ fst b) ref) (branches s) with
         | Some b => inr (snd b)
         | None => inl notFound
         end, s)
    | GitCreateRef _ _ ref sha =>
        let name := skipn 11 ref in
        (inr tt,
         {| pulls := pulls s; clock := clock s;
            branches := (name, sha) :: branches s;
            files := files s |})
    | PullsCreate _ _ t _ head _ =>
        let pr := {| number := nextNumber s; title := t;
                     state := js "open"; head_ref := head |} in
        (inr pr,
         {| pulls := pr :: pulls s; branches := branches s;
            files := files s; clock := clock s |})
    | DateNow =>
        (inr (clock s),
         {| pulls := pulls s; branches := branches s; files := files s;
            clock := clock s + 1 |})
    | DateToISOString => (inr (js "2024-01-01T00:00:00.000Z"), s)
    | Log _ _ => (inr tt, s)
    end.

End GitHub.

(** ** Fetching over HTTP

    The two methods that call [fetch], and the check of the GitHub
    settings. They are programs of the same kind as the methods above,
    over the calls they await. The settings are typed as strings, so a
    falsy setting is the empty string. *)

Module Fetching.

(** A thrown value: an [Error] (or the reason of a rejection) with its
    message, or the TypeError the engine raises on a read of a property
    of [null] or [undefined]. *)
Inductive failure : Type :=
| Failure (message : jsstring)
| TypeErrorThrown.

(** What the methods read of a [Response]. The body is read at most once
    on every path, as text or as JSON; either read may reject. *)
Record Response : Type := {
  status : Z;
  statusText : jsstring;
  text : failure + jsstring;
  json : failure + JsVal
}.

(** [response.ok]: the status is in the range 200 to 299. *)
Definition ok (response : Response) : bool :=
  (200 <=? status response) && (status response <=? 299).

Inductive call : Type -> Type :=
| Fetch (url : jsstring) (headers : list (jsstring * jsstring)) : call Response
| ReposGet (owner repo : jsstring) : call unit
| Log (level event : jsstring) : call unit.

Inductive program (A : Type) : Type :=
| Return (a : A)
| Throw (e : failure)
| Await {R : Type} (c : call R)
    (onRejected : failure -> program A) (onFulfilled : R -> program A).
Arguments Return {A} a.
Arguments Throw {A} e.
Arguments Await {A R} c onRejected onFulfilled.

Definition await {R} (c : call R) : program R := Await c Throw Return.

(** The [await] of a promise that has already been settled. *)
Definition settled {A} (x : failure + A) : program A :=
  match x with
  | inl e => Throw e
  | inr a => Return a
  end.

Fixpoint andThen {A B} (p : program A) (f : A -> program B) : program B :=
  match p with
  | Return a => f a
  | Throw e => Throw e
  | Await c onRejected onFulfilled =>
      Await c (fun e => andThen (onRejected e) f)
              (fun r => andThen (onFulfilled r) f)
  end.

Fixpoint tryCatch {A} (p : program A) (handler : failure -> program A)
  : program A :=
  match p with
  | Return a => Return a
  | Throw e => handler e
  | Await c onRejected onFulfilled =>
      Await c (fun e => tryCatch (onRejected e) handler)
              (fun r => tryCatch (onFulfilled r) handler)
  end.

Notation "x <~ p ;; k" := (andThen p (fun x => k))
  (at level 61, p at next level, right associativity).

(** [config.cmsl10n.github], [config.cms.strapiClient.apiKey] and
    [config.cmsl10n.strapiWebhook.strapiUrl]. *)
Record Settings : Type := {
  token : jsstring;
  owner : jsstring;
  repo : jsstring;
  apiKey : jsstring;
  strapiUrl : jsstring
}.

Definition ftlUrl (settings : Settings) (locale : jsstring) : jsstring :=
  js "https://raw.githubusercontent.com/" ++ owner settings ++
  js "/mza-cms-l10n/main/locale/" ++ locale ++ js "/cms.ftl".

(** [fetchLocalizationFromGitHub] *)
Definition fetchLocalizationFromGitHub (settings : Settings)
    (locale : jsstring) : program jsstring :=
  tryCatch
    (_ <~ await (Log (js "info") (js "cms.localization.github.fetch")) ;;
     response <~ await (Fetch (ftlUrl settings locale)
                          [ (js "Authorization", js "token " ++ token settings);
                            (js "Accept", js "text/plain") ]) ;;
     if negb (ok response) then
       if status response =? 404 then
         _ <~ await (Log (js "warn") (js "cms.localization.github.notFound")) ;;
         Return []
       else
         body <~ settled (text response) ;;
         Throw (Failure (js "GitHub API returned " ++ decimal (status response) ++
                         js ": " ++ body))
     else
       ftlContent <~ settled (text response) ;;
       _ <~ await (Log (js "info") (js "cms.localization.github.fetch.success")) ;;
       Return ftlContent)
    (fun error =>
       _ <~ await (Log (js "error") (js "cms.localization.github.fetch.error")) ;;
       Throw error).

(** [validateGitHubConfig] *)
Definition validateGitHubConfig (settings : Settings) : program unit :=
  if str_eqb (token settings) [] then
    Throw (Failure (js "GitHub token is required for Strapi webhook"))
  else if str_eqb (owner settings) [] || str_eqb (repo settings) [] then
    Throw (Failure (js "GitHub owner and repo are required for Strapi webhook"))
  else
    tryCatch
      (_ <~ await (ReposGet (owner settings) (repo settings)) ;;
       _ <~ await (Log (js "info") (js "cms.integrations.github.config.validated")) ;;
       Return tt)
      (fun error =>
         _ <~ await (Log (js "error")
                       (js "cms.integrations.github.config.validation.failed")) ;;
         Throw error).

Definition strapiBaseUrl (settings : Settings) : jsstring :=
  match strapiUrl settings with
  | [] => js "http://localhost:1337"
  | url => url
  end.

(** The read [data.data]: it throws on [null] and [undefined], and finds
    nothing on a value that is not an object with that property. *)
Definition dataOf (data : JsVal) : failure + JsVal :=
  match data with
  | JNull | JUndefined => inl TypeErrorThrown
  | JObj props => inr (getField props (js "data"))
  | _ => inr JUndefined
  end.

(** [x || []] *)
Definition orEmptyArray (x : JsVal) : JsVal :=
  if truthy x then x else JArr [].

(** [fetchAllStrapiEntries] *)
Definition fetchAllStrapiEntries (settings : Settings) : program JsVal :=
  tryCatch
    (_ <~ await (Log (js "info") (js "cms.integrations.strapi.fetchingEntries")) ;;
     response <~ await (Fetch (strapiBaseUrl settings ++
                               js "/api/relying-parties?populate=*")
                          [ (js "Authorization", js "Bearer " ++ apiKey settings);
                            (js "Content-Type", js "application/json") ]) ;;
     if negb (ok response) then
       errorText <~ settled (text response) ;;
       _ <~ await (Log (js "error") (js "cms.integrations.strapi.fetchError")) ;;
       Throw (Failure (js "Failed to fetch Strapi entries: " ++
                       decimal (status response) ++ js " " ++
                       statusText response ++ js " - " ++ errorText))
     else
       data <~ settled (json response) ;;
       found <~ settled (dataOf data) ;;
       let entries := orEmptyArray found in
       _ <~ await (Log (js "info") (js "cms.integrations.strapi.fetchedEntries")) ;;
       Return entries)
    (fun error =>
       _ <~ await (Log (js "error") (js "cms.integrations.strapi.fetchEntriesError")) ;;
       Throw error).

(** The host, and the run of a program: its result, the final state of
    the host, and the calls issued, in order. *)
Definition host (S : Type) : Type :=
  forall R, call R -> S -> (failure + R) * S.

Inductive event : Type :=
| Issued {R : Type} (c : call R).

Fixpoint run {S A} (h : host S) (p : program A) (s : S)
  : (failure + A) * S * list event :=
  match p with
  | Return a => (inr a, s, [])
  | Throw e => (inl e, s, [])
  | Await c onRejected onFulfilled =>
      let '(answer, s') := h _ c s in
      let '(result, s'', issued) :=
        match answer with
        | inl e => run h (onRejected e) s'
        | inr r => run h (onFulfilled r) s'
        end in
      (result, s'', Issued c :: issued)
  end.

Definition isFetch (e : event) : bool :=
  match e with
  | Issued (Fetch _ _) => true
  | _ => false
  end.

(** A host that answers every fetch with the same response, accepts
    every other call, and counts the calls. *)
Definition fixedResponse (response : Response) : host Z :=
  fun R (c : call R) (n : Z) =>
    match c in call R return (failure + R) * Z with
    | Fetch _ _ => (inr response, n + 1)
    | ReposGet _ _ => (inr tt, n + 1)
    | Log _ _ => (inr tt, n + 1)
    end.

End Fetching.

(* ================================================================== *)
(** * Part II. Properties *)
(* ================================================================== *)

(** ** Strings *)

Lemma str_eqb_eq (a b : jsstring) : str_eqb a b = true <-> a = b.
Proof.
  revert b; induction a as [|x a IH]; intros [|y b]; simpl; split;
    try congruence; try reflexivity.
  - intros H. apply andb_true_iff in H as [H1 H2].
    apply Z.eqb_eq in H1. apply IH in H2. congruence.
  - intros H. injection H as -> ->. rewrite Z.eqb_refl. simpl.
    now apply IH.
Qed.

Lemma split_nonempty (sep : Z) (s : jsstring) : split sep s <> [].
Proof.
  destruct s as [|c s]; simpl; [discriminate|].
  destruct (c =? sep); [discriminate|].
  destruct (split sep s); discriminate.
Qed.

Lemma join_cons2 (sep p q : jsstring) (rest : list jsstring) :
  join sep (p :: q :: rest) = p ++ sep ++ join sep (q :: rest).
Proof. reflexivity. Qed.

(** Splitting is determined by its result: the only way to write [s] as
    separator-free segments joined by the separator. *)
Lemma split_join (sep : Z) (segs : list jsstring) :
  segs <> [] ->
  Forall (fun seg => ~ In sep seg) segs ->
  split sep (join [sep] segs) = segs.
Proof.
  induction segs as [|p segs IH]; [congruence|].
  intros _ Hall. inversion Hall as [|? ? Hp Hrest]; subst.
  destruct segs as [|q segs].
  - simpl. clear IH Hall Hrest.
    induction p as [|c p IHp]; [reflexivity|].
    simpl. destruct (Z.eqb_spec c sep) as [->|_].
    + exfalso. apply Hp. now left.
    + rewrite IHp; [reflexivity|]. intros Hin. apply Hp. now right.
  - rewrite join_cons2.
    assert (IH' : split sep (join [sep] (q :: segs)) = q :: segs)
      by (apply IH; [discriminate|assumption]).
    clear IH Hall Hrest.
    induction p as [|c p IHp].
    + change ([] ++ [sep] ++ join [sep] (q :: segs))
        with (sep :: join [sep] (q :: segs)).
      cbn [split]. rewrite Z.eqb_refl. now rewrite IH'.
    + change ((c :: p) ++ [sep] ++ join [sep] (q :: segs))
        with (c :: (p ++ [sep] ++ join [sep] (q :: segs))).
      cbn [split]. destruct (Z.eqb_spec c sep) as [->|_].
      * exfalso. apply Hp. now left.
      * rewrite IHp; [reflexivity|]. intros Hin. apply Hp. now right.
Qed.

Lemma firstn_pred_removelast {A} (l : list A) :
  firstn (length l - 1) l = removelast l.
Proof.
  induction l as [|y l IH]; [reflexivity|].
  destruct l as [|z l]; [reflexivity|].
  change (removelast (y :: z :: l)) with (y :: removelast (z :: l)).
  rewrite <- IH. simpl. now rewrite Nat.sub_0_r.
Qed.

Lemma slice_middle {A} (l : list A) :
  (2 <= length l)%nat -> slice 1 (-1) l = removelast (tl l).
Proof.
  intros Hlen. unfold slice.
  change (1 <? 0) with false. change (-1 <? 0) with true. cbv iota.
  destruct l as [|x l]; [simpl in Hlen; lia|].
  cbn [tl]. cbn [length] in *.
  replace (Z.to_nat (Z.min 1 (Z.of_nat (S (length l))))) with 1%nat by lia.
  replace (Z.to_nat _) with (length l - 1)%nat by lia.
  cbn [skipn]. apply firstn_pred_removelast.
Qed.

(** ** C5: parseFtlIdToFieldPath *)

(** C5. For every identifier [id], written as the dash-free segments
    [segs] joined by ['-'] (that is, split on ['-']): with at least four
    segments the result is the middle segments, all but the first and the
    last, rejoined with ['.']; with fewer the result is null. *)
Theorem parseFtlIdToFieldPath_spec (id : jsstring) (segs : list jsstring) :
  segs <> [] ->
  Forall (fun seg => ~ In DASH seg) segs ->
  id = join (js "-") segs ->
  parseFtlIdToFieldPath id =
    if (4 <=? length segs)%nat
    then Some (join (js ".") (removelast (tl segs)))
    else None.
Proof.
  intros Hne Hall ->. unfold parseFtlIdToFieldPath.
  change (js "-") with [DASH]. change (js ".") with [DOT].
  rewrite split_join by assumption.
  destruct (Nat.leb_spec 4 (length segs)) as [H|H].
  - replace (4 <=? Z.of_nat (length segs)) with true
      by (symmetry; apply Z.leb_le; lia).
    now rewrite slice_middle by lia.
  - replace (4 <=? Z.of_nat (length segs)) with false
      by (symmetry; apply Z.leb_gt; lia).
    reflexivity.
Qed.

Lemma parseFtlIdToFieldPath_spec_witness :
  parseFtlIdToFieldPath (js "signin-headline-text-0a1b2c3d") =
    Some (js "headline.text").
Proof.
  apply (parseFtlIdToFieldPath_spec (js "signin-headline-text-0a1b2c3d")
           [js "signin"; js "headline"; js "text"; js "0a1b2c3d"]).
  - discriminate.
  - repeat constructor; vm_compute; intuition discriminate.
  - reflexivity.
Defined.

(** ** Objects *)

Lemma JsVal_ind_nested (P : JsVal -> Prop) :
  P JNull -> P JUndefined ->
  (forall b, P (JBool b)) -> (forall n, P (JNum n)) ->
  (forall s, P (JStr s)) ->
  (forall items, Forall P items -> P (JArr items)) ->
  (forall props, Forall (fun kv => P (snd kv)) props -> P (JObj props)) ->
  forall v, P v.
Proof.
  intros Hnull Hundef Hbool Hnum Hstr Harr Hobj.
  fix IH 1. intros [ | | b | n | s | items | props].
  - exact Hnull.
  - exact Hundef.
  - apply Hbool.
  - apply Hnum.
  - apply Hstr.
  - apply Harr.
    revert items. fix IHitems 1. intros [|v items]; constructor.
    + apply IH.
    + apply IHitems.
  - apply Hobj.
    revert props. fix IHprops 1. intros [|[k v] props]; constructor.
    + apply IH.
    + apply IHprops.
Qed.

Section PropertyValues.
Context {V : Type} (Q : V -> Prop).

Let allQ (o : list (jsstring * V)) := Forall (fun kv => Q (snd kv)) o.

Lemma updateProp_values o k v : Q v -> allQ o -> allQ (updateProp o k v).
Proof.
  intros Hv. induction 1 as [|[k' v'] o' Hkv Ho IH]; simpl.
  - constructor.
  - destruct (str_eqb k' k); constructor; auto.
Qed.

Lemma insertNewProp_values o k v : Q v -> allQ o -> allQ (insertNewProp o k v).
Proof.
  intros Hv. induction 1 as [|[k' v'] o' Hkv Ho IH]; simpl.
  - repeat constructor. exact Hv.
  - destruct (arrayIndex k) as [n|].
    + destruct (arrayIndex k') as [n'|].
      * destruct (n <? n'); repeat (constructor; auto).
      * repeat (constructor; auto).
    + constructor; auto.
Qed.

Lemma setProp_values o k v : Q v -> allQ o -> allQ (setProp o k v).
Proof.
  intros Hv Ho. unfold setProp. destruct (getProp o k).
  - now apply updateProp_values.
  - now apply insertNewProp_values.
Qed.

Lemma assignProp_values o k v : Q v -> allQ o -> allQ (assignProp o k v).
Proof.
  intros Hv Ho. unfold assignProp. destruct (getProp o k).
  - now apply updateProp_values.
  - destruct (str_eqb k (js "__proto__")); [exact Ho|].
    now apply insertNewProp_values.
Qed.

Lemma objectAssign_values target source :
  allQ target -> allQ source -> allQ (objectAssign target source).
Proof.
  intros Ht Hs. revert target Ht. unfold objectAssign.
  induction Hs as [|[k v] source Hkv Hs IH]; intros target Ht; simpl.
  - exact Ht.
  - apply IH. now apply assignProp_values.
Qed.
End PropertyValues.

(** ** C6: the extractor's filter *)

(** What [shouldIncludeField] demands of a value, whatever its key. *)
Definition localizable (value : jsstring) : Prop :=
  isStringValue (JStr value) = true /\
  isUrl (JStr value) = false /\
  isDate (JStr value) = false /\
  isColor (JStr value) = false.

Lemma shouldIncludeField_localizable (key s : jsstring) :
  shouldIncludeField key (JStr s) = true -> localizable s.
Proof.
  unfold shouldIncludeField, localizable.
  destruct (existsb (str_eqb key) metadataFields); [discriminate|].
  destruct (isStringValue (JStr s)); [|discriminate]. cbn [negb].
  destruct (isUrl (JStr s)), (isDate (JStr s)), (isColor (JStr s));
    simpl; intros H; try discriminate; auto.
Qed.

Lemma extractStringsFromObject_values (obj : JsVal) :
  forall prefix,
    Forall (fun kv => localizable (snd kv))
           (extractStringsFromObject obj prefix).
Proof.
  induction obj as [ | | b | n | s | items _ | props IH]
    using JsVal_ind_nested; intros prefix; try (simpl; constructor).
  cbn [extractStringsFromObject].
  generalize (@nil (jsstring * jsstring)) as strings,
             (Forall_nil (fun kv : jsstring * jsstring => localizable (snd kv))).
  induction IH as [|[key value] rest Hvalue _ IHrest]; intros strings Hstrings.
  - exact Hstrings.
  - apply IHrest. cbn [snd] in Hvalue.
    destruct value; try exact Hstrings.
    + destruct (shouldIncludeField key (JStr s)) eqn:Hinc; [|exact Hstrings].
      apply assignProp_values; [|exact Hstrings].
      now apply shouldIncludeField_localizable with (key := key).
    + apply objectAssign_values; [exact Hstrings|apply Hvalue].
Qed.

(** C6. At every nesting depth, a value appears in the extracted record
    only if it is a string that is non-empty after trimming and is neither
    a URL, nor an ISO date-time, nor a CSS colour; so a string recognised as
    URL, date or colour is in no extracted record, however deep it sits. *)
Theorem extractor_includes_only_localizable
  (obj : JsVal) (prefix path value : jsstring) :
  (In (path, value) (extractStringsFromObject obj prefix) ->
     isStringValue (JStr value) = true /\
     isUrl (JStr value) = false /\
     isDate (JStr value) = false /\
     isColor (JStr value) = false) /\
  (isUrl (JStr value) || isDate (JStr value) || isColor (JStr value) = true ->
     ~ In (path, value) (extractStringsFromObject obj prefix)).
Proof.
  assert (H : In (path, value) (extractStringsFromObject obj prefix) ->
              localizable value).
  { intros Hin.
    pose proof (extractStringsFromObject_values obj prefix) as Hall.
    rewrite Forall_forall in Hall. exact (Hall _ Hin). }
  split; [exact H|].
  intros Hbad Hin. destruct (H Hin) as (_ & Hu & Hd & Hc).
  rewrite Hu, Hd, Hc in Hbad. discriminate.
Qed.

(** The entry of the specification's examples, with the excluded values
    nested at several depths. *)
Definition exampleEntryData : JsVal :=
  JObj [ (js "headline", JObj [ (js "text", JStr (js "Welcome back"));
                               (js "color", JStr (js "#ff0000")) ]);
         (js "page", JObj [ (js "logo", JObj [ (js "url", JStr (js "https://example.com"));
                                             (js "updated", JStr (js "2024-01-01T00:00:00Z"));
                                             (js "alt", JStr (js "Logo")) ]) ]);
         (js "id", JNum 7) ].

Example extract_exampleEntryData :
  extractStringsFromObject exampleEntryData [] =
    [ (js "headline.text", js "Welcome back"); (js "page.logo.alt", js "Logo") ].
Proof. vm_compute. reflexivity. Qed.

Lemma extractor_includes_only_localizable_witness :
  isStringValue (JStr (js "Logo")) = true /\
  isUrl (JStr (js "Logo")) = false /\
  isDate (JStr (js "Logo")) = false /\
  isColor (JStr (js "Logo")) = false.
Proof.
  apply (proj1 (extractor_includes_only_localizable
                  exampleEntryData [] (js "page.logo.alt") (js "Logo"))).
  vm_compute. right. left. reflexivity.
Defined.

(** ** C9: the data-line pattern of the deserializer *)

(** Boolean comparisons on code units, as linear arithmetic. *)
Ltac code_unit_lia :=
  repeat rewrite ?orb_true_iff, ?andb_true_iff, ?orb_false_iff,
    ?andb_false_iff, ?negb_true_iff, ?negb_false_iff, ?Z.leb_le, ?Z.leb_gt,
    ?Z.eqb_eq, ?Z.eqb_neq, ?Z.ltb_lt, ?Z.ltb_ge in *;
  lia.

Lemma whiteSpace_not_idChar (c : Z) : isWhiteSpace c = true -> isIdChar c = false.
Proof. unfold isWhiteSpace, isIdChar, isDigit, DASH. code_unit_lia. Qed.

Lemma takeWhile_dropWhile (p : Z -> bool) (s : jsstring) :
  s = takeWhile p s ++ dropWhile p s.
Proof.
  induction s as [|c s IH]; [reflexivity|].
  simpl. destruct (p c); [|reflexivity]. simpl. now rewrite <- IH.
Qed.

Lemma takeWhile_all (p : Z -> bool) (s : jsstring) :
  forallb p (takeWhile p s) = true.
Proof.
  induction s as [|c s IH]; [reflexivity|].
  simpl. destruct (p c) eqn:Hc; [|reflexivity]. simpl. now rewrite Hc.
Qed.

Lemma takeWhile_app_stop (p : Z -> bool) (a : jsstring) (c : Z) (b : jsstring) :
  forallb p a = true -> p c = false -> takeWhile p (a ++ c :: b) = a.
Proof.
  intros Ha Hc. induction a as [|x a IH]; simpl in *.
  - now rewrite Hc.
  - apply andb_true_iff in Ha as [-> Ha]. now rewrite IH.
Qed.

Lemma dropWhile_app_stop (p : Z -> bool) (a : jsstring) (c : Z) (b : jsstring) :
  forallb p a = true -> p c = false -> dropWhile p (a ++ c :: b) = c :: b.
Proof.
  intros Ha Hc. induction a as [|x a IH]; simpl in *.
  - now rewrite Hc.
  - apply andb_true_iff in Ha as [-> Ha]. now rewrite IH.
Qed.

Lemma notQuote_all (v : jsstring) : forallb notQuote v = true <-> ~ In QUOTE v.
Proof.
  induction v as [|c v IH]; simpl.
  - intuition.
  - rewrite andb_true_iff, IH. unfold notQuote.
    rewrite negb_true_iff, Z.eqb_neq. intuition.
Qed.

Lemma replaceAllPair_absent (a b : Z) (r s : jsstring) :
  ~ In b s -> replaceAllPair a b r s = s.
Proof.
  induction s as [|x s IH]; [reflexivity|].
  intros Hb. destruct s as [|y s]; [reflexivity|].
  cbn [replaceAllPair].
  replace (y =? b) with false
    by (symmetry; apply Z.eqb_neq; intros ->; apply Hb; right; now left).
  rewrite andb_false_r. f_equal. apply IH. intros Hin. apply Hb. now right.
Qed.

Lemma forallb_rev (p : Z -> bool) (s : jsstring) :
  forallb p (rev s) = forallb p s.
Proof.
  induction s as [|c s IH]; [reflexivity|].
  simpl. rewrite forallb_app, IH. simpl. rewrite andb_true_r.
  apply andb_comm.
Qed.

(** The shape the pattern describes. *)
Definition dataLineShape (line ftlId ws1 ws2 value : jsstring) : Prop :=
  line = ftlId ++ ws1 ++ [EQUALS] ++ ws2 ++ [QUOTE] ++ value ++ [QUOTE] /\
  ftlId <> [] /\
  forallb isIdChar ftlId = true /\
  forallb isWhiteSpace ws1 = true /\
  forallb isWhiteSpace ws2 = true.

(** On a line of that shape the match succeeds exactly when the text
    between the outer quotes holds no quote. *)
Lemma matchDataLine_shape (line ftlId ws1 ws2 value : jsstring) :
  dataLineShape line ftlId ws1 ws2 value ->
  matchDataLine line =
    if forallb notQuote value then Some (ftlId, value) else None.
Proof.
  intros (-> & Hne & Hid & Hws1 & Hws2). unfold matchDataLine.
  assert (Hstop1 : exists c rest, ws1 ++ [EQUALS] ++ ws2 ++ [QUOTE] ++ value ++ [QUOTE]
                                  = c :: rest /\ isIdChar c = false).
  { destruct ws1 as [|w ws1]; simpl.
    - eexists _, _. split; [reflexivity|reflexivity].
    - eexists _, _. split; [reflexivity|].
      simpl in Hws1. apply andb_true_iff in Hws1 as [Hw _].
      now apply whiteSpace_not_idChar. }
  destruct Hstop1 as (c & rest & Heq & Hc). rewrite Heq.
  rewrite takeWhile_app_stop, dropWhile_app_stop by assumption.
  destruct ftlId as [|i ftlId]; [congruence|]. rewrite <- Heq.
  change (ws1 ++ [EQUALS] ++ ws2 ++ [QUOTE] ++ value ++ [QUOTE])
    with (ws1 ++ EQUALS :: (ws2 ++ QUOTE :: (value ++ [QUOTE]))).
  rewrite dropWhile_app_stop by (assumption || reflexivity).
  rewrite Z.eqb_refl.
  rewrite dropWhile_app_stop by (assumption || reflexivity).
  rewrite Z.eqb_refl.
  rewrite rev_app_distr. cbn [rev app]. rewrite Z.eqb_refl. cbn [andb].
  rewrite forallb_rev, rev_involutive. reflexivity.
Qed.

Lemma matchDataLine_sound (line ftlId value : jsstring) :
  matchDataLine line = Some (ftlId, value) ->
  exists ws1 ws2,
    dataLineShape line ftlId ws1 ws2 value /\ forallb notQuote value = true.
Proof.
  unfold matchDataLine. intros H.
  pose proof (takeWhile_dropWhile isIdChar line) as Hline.
  pose proof (takeWhile_all isIdChar line) as Hid.
  destruct (takeWhile isIdChar line) as [|i id'] eqn:Htake; [discriminate|].
  pose proof (takeWhile_dropWhile isWhiteSpace (dropWhile isIdChar line)) as Hr1.
  pose proof (takeWhile_all isWhiteSpace (dropWhile isIdChar line)) as Hws1.
  destruct (dropWhile isWhiteSpace (dropWhile isIdChar line))
    as [|c afterEq]; [discriminate|].
  destruct (Z.eqb_spec c EQUALS) as [->|]; [|discriminate].
  pose proof (takeWhile_dropWhile isWhiteSpace afterEq) as Hr2.
  pose proof (takeWhile_all isWhiteSpace afterEq) as Hws2.
  destruct (dropWhile isWhiteSpace afterEq) as [|q quoted]; [discriminate|].
  destruct (Z.eqb_spec q QUOTE) as [->|]; [|discriminate].
  destruct (rev quoted) as [|q' revValue] eqn:Hrev; [discriminate|].
  destruct (Z.eqb_spec q' QUOTE) as [->|]; [|discriminate].
  cbn [andb] in H.
  destruct (forallb notQuote revValue) eqn:Hnq; [|discriminate].
  injection H as <- <-.
  exists (takeWhile isWhiteSpace (dropWhile isIdChar line)),
         (takeWhile isWhiteSpace afterEq).
  split; [|now rewrite forallb_rev].
  repeat split; try assumption; try discriminate.
  rewrite Hline at 1. f_equal. rewrite Hr1 at 1. f_equal.
  change ([EQUALS] ++ ?x) with (EQUALS :: x). f_equal.
  rewrite Hr2 at 1. f_equal.
  change ([QUOTE] ++ ?x) with (QUOTE :: x). f_equal.
  rewrite <- (rev_involutive quoted), Hrev. reflexivity.
Qed.

Lemma trimStart_head (c : Z) (s : jsstring) :
  isWhiteSpace c = false -> trimStart (c :: s) = c :: s.
Proof. intros H. simpl. now rewrite H. Qed.

Lemma trim_fixed (c : Z) (s : jsstring) (d : Z) :
  isWhiteSpace c = false -> isWhiteSpace d = false ->
  trim (c :: s ++ [d]) = c :: s ++ [d].
Proof.
  intros Hc Hd. unfold trim, trimEnd. rewrite trimStart_head by assumption.
  assert (Hrev : rev (c :: s ++ [d]) = d :: rev (c :: s)).
  { change (c :: s ++ [d]) with ((c :: s) ++ [d]).
    now rewrite rev_app_distr. }
  rewrite Hrev, trimStart_head by assumption.
  rewrite <- Hrev. apply rev_involutive.
Qed.

Lemma idChar_facts (c : Z) :
  isIdChar c = true -> isWhiteSpace c = false /\ c <> HASH.
Proof.
  intros H. split.
  - destruct (isWhiteSpace c) eqn:Hw; [|reflexivity].
    apply whiteSpace_not_idChar in Hw. congruence.
  - intros ->. discriminate.
Qed.

(** C9. A line is accepted as a data line only if it has the shape
    identifier, equals sign, quoted value, and the captured value holds no
    double quote at all; so the replacement of backslash-quote leaves every
    accepted value as it is, and a line of that shape whose quoted text
    holds a double quote (an escaped one included) is not matched and leaves
    the result unchanged. *)
Theorem data_line_value_never_holds_quote :
  (forall line ftlId value,
      matchDataLine line = Some (ftlId, value) ->
      (exists ws1 ws2, dataLineShape line ftlId ws1 ws2 value) /\
      ~ In QUOTE value /\
      unescapeQuote value = value) /\
  (forall l10nId strapiFormat line ftlId ws1 ws2 value,
      dataLineShape line ftlId ws1 ws2 value ->
      In QUOTE value ->
      matchDataLine line = None /\
      convertFtlLine l10nId strapiFormat line = Returns strapiFormat).
Proof.
  split.
  - intros line ftlId value H.
    destruct (matchDataLine_sound _ _ _ H) as (ws1 & ws2 & Hshape & Hnq).
    apply notQuote_all in Hnq. repeat split.
    + now exists ws1, ws2.
    + exact Hnq.
    + now apply replaceAllPair_absent.
  - intros l10nId strapiFormat line ftlId ws1 ws2 value Hshape Hin.
    assert (Hnone : matchDataLine line = None).
    { rewrite (matchDataLine_shape _ _ _ _ _ Hshape).
      destruct (forallb notQuote value) eqn:Hnq; [|reflexivity].
      apply notQuote_all in Hnq. contradiction. }
    split; [exact Hnone|].
    unfold convertFtlLine.
    destruct Hshape as (Hline & Hne & Hid & _).
    destruct ftlId as [|i ftlId]; [congruence|].
    simpl in Hid. apply andb_true_iff in Hid as [Hi _].
    destruct (idChar_facts i Hi) as [Hiw Hih].
    assert (Htrim : trim line = line).
    { rewrite Hline.
      change ((i :: ftlId) ++ ws1 ++ [EQUALS] ++ ws2 ++ [QUOTE] ++ value ++ [QUOTE])
        with (i :: ftlId ++ ws1 ++ [EQUALS] ++ ws2 ++ [QUOTE] ++ value ++ [QUOTE]).
      replace (ftlId ++ ws1 ++ [EQUALS] ++ ws2 ++ [QUOTE] ++ value ++ [QUOTE])
        with ((ftlId ++ ws1 ++ [EQUALS] ++ ws2 ++ [QUOTE] ++ value) ++ [QUOTE])
        by (now rewrite <- !app_assoc).
      now apply trim_fixed. }
    rewrite Htrim, Hnone. rewrite Hline at 1 2. cbn.
    replace (i =? 35) with false by (symmetry; now apply Z.eqb_neq).
    reflexivity.
Qed.

Lemma data_line_value_never_holds_quote_witness :
  (~ In QUOTE (js "Welcome back") /\
   unescapeQuote (js "Welcome back") = js "Welcome back") /\
  convertFtlLine (js "signin") []
    (js "signin-headline-text-0a1b2c3d = " ++ [QUOTE] ++
     js "say " ++ [BACKSLASH; QUOTE] ++ js "hi" ++ [BACKSLASH; QUOTE] ++ [QUOTE])
  = Returns [].
Proof.
  split.
  - apply (proj1 data_line_value_never_holds_quote
             (js "signin-headline-text-0a1b2c3d = " ++ [QUOTE] ++
              js "Welcome back" ++ [QUOTE])
             (js "signin-headline-text-0a1b2c3d")).
    reflexivity.
  - apply (proj2 data_line_value_never_holds_quote (js "signin") []
             _ (js "signin-headline-text-0a1b2c3d") (js " ") (js " ")
             (js "say " ++ [BACKSLASH; QUOTE] ++ js "hi" ++ [BACKSLASH; QUOTE])).
    + repeat split; try reflexivity. discriminate.
    + vm_compute. tauto.
Defined.

(** ** C3: the sanitizer *)

Lemma trimStart_idempotent (s : jsstring) : trimStart (trimStart s) = trimStart s.
Proof.
  induction s as [|c s IH]; [reflexivity|].
  simpl. destruct (isWhiteSpace c) eqn:Hc; [exact IH|].
  simpl. now rewrite Hc.
Qed.

Lemma trimStart_snoc (s : jsstring) (c : Z) :
  isWhiteSpace c = false -> trimStart (s ++ [c]) = trimStart s ++ [c].
Proof.
  intros Hc. induction s as [|x s IH]; simpl.
  - now rewrite Hc.
  - destruct (isWhiteSpace x); [exact IH|reflexivity].
Qed.

Lemma trimEnd_cons (c : Z) (s : jsstring) :
  isWhiteSpace c = false -> trimEnd (c :: s) = c :: trimEnd s.
Proof.
  intros Hc. unfold trimEnd. cbn [rev].
  rewrite trimStart_snoc by assumption.
  now rewrite rev_app_distr.
Qed.

Lemma trimEnd_idempotent (s : jsstring) : trimEnd (trimEnd s) = trimEnd s.
Proof.
  unfold trimEnd. now rewrite rev_involutive, trimStart_idempotent.
Qed.

Lemma trimStart_shape (s : jsstring) :
  trimStart s = [] \/
  exists c s', trimStart s = c :: s' /\ isWhiteSpace c = false.
Proof.
  induction s as [|c s IH]; [now left|].
  simpl. destruct (isWhiteSpace c) eqn:Hc; [exact IH|].
  right. now exists c, s.
Qed.

Lemma trim_idempotent (s : jsstring) : trim (trim s) = trim s.
Proof.
  unfold trim. destruct (trimStart_shape s) as [->|(c & s' & -> & Hc)].
  - reflexivity.
  - rewrite trimEnd_cons by assumption.
    rewrite trimStart_head by assumption.
    rewrite trimEnd_cons by assumption.
    now rewrite trimEnd_idempotent.
Qed.

Lemma trimStart_Forall (P : Z -> Prop) (s : jsstring) :
  Forall P s -> Forall P (trimStart s).
Proof.
  induction 1 as [|c s Hc Hs IH]; simpl; [constructor|].
  destruct (isWhiteSpace c); [exact IH|now constructor].
Qed.

Lemma trim_Forall (P : Z -> Prop) (s : jsstring) :
  Forall P s -> Forall P (trim s).
Proof.
  intros H. unfold trim, trimEnd.
  apply Forall_rev, trimStart_Forall, Forall_rev, trimStart_Forall, H.
Qed.

Lemma removeAll_fixed (cls : Z -> bool) (s : jsstring) :
  Forall (fun c => cls c = false) s -> removeAll cls s = s.
Proof.
  induction 1 as [|c s Hc Hs IH]; [reflexivity|].
  unfold removeAll in *. simpl. now rewrite Hc, IH.
Qed.

Lemma removeAll_clean (cls : Z -> bool) (s : jsstring) :
  Forall (fun c => cls c = false) (removeAll cls s).
Proof.
  unfold removeAll. apply Forall_forall. intros c Hin.
  apply filter_In in Hin as [_ Hc]. now apply negb_true_iff.
Qed.

Lemma removeAll_Forall (P : Z -> Prop) (cls : Z -> bool) (s : jsstring) :
  Forall P s -> Forall P (removeAll cls s).
Proof.
  intros H. unfold removeAll. apply Forall_forall. intros c Hin.
  apply filter_In in Hin as [Hin _]. rewrite Forall_forall in H. auto.
Qed.

(** The code units the four replacements remove. *)
Definition isStripped (c : Z) : bool :=
  isCombiningMark c || isControl c || isZeroWidth c || isDirectionalIsolate c.

Lemma sanitizeContent_clean (ucd : UnicodeData) (s : jsstring) :
  Forall (fun c => isStripped c = false) (sanitizeContent ucd s).
Proof.
  unfold sanitizeContent. destruct s as [|c0 s0]; [constructor|].
  set (n := normalizeNFD ucd (c0 :: s0)).
  apply trim_Forall.
  assert (H1 : Forall (fun c => isCombiningMark c = false)
                 (removeAll isCombiningMark n)) by apply removeAll_clean.
  assert (H2 : Forall (fun c => isCombiningMark c = false /\ isControl c = false)
                 (removeAll isControl (removeAll isCombiningMark n))).
  { apply Forall_and; [now apply removeAll_Forall|apply removeAll_clean]. }
  assert (H3 : Forall (fun c => (isCombiningMark c = false /\ isControl c = false)
                                /\ isZeroWidth c = false)
                 (removeAll isZeroWidth
                    (removeAll isControl (removeAll isCombiningMark n)))).
  { apply Forall_and; [now apply removeAll_Forall|apply removeAll_clean]. }
  eapply Forall_impl;
    [|apply Forall_and;
       [apply removeAll_Forall, H3
       |apply (removeAll_clean isDirectionalIsolate)]].
  intros c [[[Ha Hb] Hc] Hd]. unfold isStripped. now rewrite Ha, Hb, Hc, Hd.
Qed.

(** The replacements and the trim leave a sanitized string as it is. *)
Lemma strip_and_trim_sanitized (ucd : UnicodeData) (s : jsstring) :
  let t := sanitizeContent ucd s in
  trim (removeAll isDirectionalIsolate
          (removeAll isZeroWidth
             (removeAll isControl (removeAll isCombiningMark t)))) = t.
Proof.
  intros t. pose proof (sanitizeContent_clean ucd s) as Hclean. fold t in Hclean.
  assert (Hpart : forall cls, (forall c, isStripped c = false -> cls c = false) ->
                              removeAll cls t = t).
  { intros cls Hcls. apply removeAll_fixed.
    eapply Forall_impl; [|exact Hclean]. exact Hcls. }
  rewrite (Hpart isCombiningMark), (Hpart isControl), (Hpart isZeroWidth),
    (Hpart isDirectionalIsolate);
    try (intros c; unfold isStripped; rewrite !orb_false_iff; tauto).
  subst t. unfold sanitizeContent. destruct s; [reflexivity|].
  apply trim_idempotent.
Qed.

(** C3, as amended. A second pass of the sanitizer changes nothing
    whenever the sanitized string is in normal form NFD, that is, whenever
    normalizing it leaves it as it is. *)
Theorem sanitizeContent_idempotent_on_normalized
  (ucd : UnicodeData) (s : jsstring) :
  normalizeNFD ucd (sanitizeContent ucd s) = sanitizeContent ucd s ->
  sanitizeContent ucd (sanitizeContent ucd s) = sanitizeContent ucd s.
Proof.
  intros Hnfd.
  pose proof (strip_and_trim_sanitized ucd s) as Hfix. cbv zeta in Hfix.
  destruct (sanitizeContent ucd s) as [|c t] eqn:Hs; [reflexivity|].
  unfold sanitizeContent at 1. rewrite Hnfd. exact Hfix.
Qed.

Lemma sanitizeContent_idempotent_on_normalized_witness :
  sanitizeContent unicodeExcerpt
    (sanitizeContent unicodeExcerpt ([32; 99; 97; 102; 233; 8203; 32])) =
  sanitizeContent unicodeExcerpt ([32; 99; 97; 102; 233; 8203; 32]).
Proof.
  apply (sanitizeContent_idempotent_on_normalized unicodeExcerpt).
  vm_compute. reflexivity.
Defined.

(** Code units that normalization leaves alone: no surrogate, no
    decomposition, combining class zero. *)
Definition inert (ucd : UnicodeData) (c : Z) : Prop :=
  isHighSurrogate c = false /\ c < 65536 /\
  canonicalDecomposition ucd c = [c] /\ combiningClass ucd c = 0.

Lemma codePoints_no_surrogate (s : jsstring) :
  Forall (fun c => isHighSurrogate c = false) s -> codePoints s = s.
Proof.
  induction 1 as [|c s Hc Hs IH]; [reflexivity|].
  cbn [codePoints]. destruct s as [|d s]; [reflexivity|].
  rewrite Hc. cbn [andb]. now rewrite IH.
Qed.

Lemma canonicalOrder_starters (ucd : UnicodeData) (cps : list Z) :
  Forall (fun c => combiningClass ucd c = 0) cps -> canonicalOrder ucd cps = cps.
Proof.
  intros Hcps. unfold canonicalOrder.
  assert (Hfold : forall placed,
            fold_left (fun placed c => placeCodePoint ucd c placed) cps placed
            = rev cps ++ placed).
  { induction Hcps as [|c cps Hc Hcps IH]; intros placed; [reflexivity|].
    cbn [fold_left rev]. rewrite <- app_assoc. cbn [app].
    rewrite <- IH. f_equal.
    destruct placed as [|d placed]; [reflexivity|].
    cbn [placeCodePoint]. now rewrite Hc. }
  now rewrite Hfold, app_nil_r, rev_involutive.
Qed.

Lemma fromCodePoints_bmp (cps : list Z) :
  Forall (fun c => c < 65536) cps -> fromCodePoints cps = cps.
Proof.
  unfold fromCodePoints. induction 1 as [|c cps Hc Hcps IH]; [reflexivity|].
  cbn [flat_map]. unfold codeUnitsOf at 1.
  destruct (Z.ltb_spec c 65536); [|lia]. cbn [app]. now rewrite IH.
Qed.

Lemma flat_map_singletons {A} (f : A -> list A) (l : list A) :
  Forall (fun x => f x = [x]) l -> flat_map f l = l.
Proof.
  induction 1 as [|x l Hx Hl IH]; [reflexivity|].
  cbn [flat_map]. now rewrite Hx, IH.
Qed.

Lemma normalizeNFD_inert (ucd : UnicodeData) (s : jsstring) :
  Forall (inert ucd) s -> normalizeNFD ucd s = s.
Proof.
  intros Hs. unfold normalizeNFD.
  rewrite codePoints_no_surrogate
    by (eapply Forall_impl; [|exact Hs]; intros c Hc; apply Hc).
  rewrite flat_map_singletons
    by (eapply Forall_impl; [|exact Hs]; intros c Hc; apply Hc).
  rewrite canonicalOrder_starters
    by (eapply Forall_impl; [|exact Hs]; intros c Hc; apply Hc).
  apply fromCodePoints_bmp.
  eapply Forall_impl; [|exact Hs]. intros c Hc. apply Hc.
Qed.

(** In particular the sanitizer is idempotent on every string whose
    sanitized form holds inert code units only. *)
Corollary sanitizeContent_idempotent_inert (ucd : UnicodeData) (s : jsstring) :
  Forall (inert ucd) (sanitizeContent ucd s) ->
  sanitizeContent ucd (sanitizeContent ucd s) = sanitizeContent ucd s.
Proof.
  intros Hinert. apply normalizeNFD_inert in Hinert.
  pose proof (strip_and_trim_sanitized ucd s) as Hfix. cbv zeta in Hfix.
  destruct (sanitizeContent ucd s) as [|c t] eqn:Hs; [reflexivity|].
  unfold sanitizeContent at 1. rewrite Hinert. exact Hfix.
Qed.

(** The normalization on the excerpt: a Hangul syllable, a precomposed
    letter, and two marks that change places. *)
Example normalizeNFD_hangul :
  normalizeNFD unicodeExcerpt [54620] = [4370; 4449; 4523].
Proof. vm_compute. reflexivity. Qed.

Example normalizeNFD_precomposed :
  normalizeNFD unicodeExcerpt [7785] = [115; 803; 775].
Proof. vm_compute. reflexivity. Qed.

Example normalizeNFD_reorders :
  normalizeNFD unicodeExcerpt [115; 775; 803] = [115; 803; 775].
Proof. vm_compute. reflexivity. Qed.

Example sanitizeContent_cafe :
  sanitizeContent unicodeExcerpt ([32; 99; 97; 102; 233; 8203; 32]) = js "cafe".
Proof. vm_compute. reflexivity. Qed.

(** A removed starter may have stood between two combining marks that are
    out of canonical order once they meet: the second pass then reorders
    them. Devanagari KA, VIRAMA, ZERO WIDTH JOINER, NUKTA. *)
Definition kaViramaJoinerNukta : jsstring := [2325; 2381; 8205; 2364].

(** C3, counterexample. The sanitizer is not idempotent on that string. *)
Lemma sanitizeContent_not_idempotent :
  sanitizeContent unicodeExcerpt kaViramaJoinerNukta = [2325; 2381; 2364] /\
  sanitizeContent unicodeExcerpt
    (sanitizeContent unicodeExcerpt kaViramaJoinerNukta) = [2325; 2364; 2381] /\
  sanitizeContent unicodeExcerpt
    (sanitizeContent unicodeExcerpt kaViramaJoinerNukta)
  <> sanitizeContent unicodeExcerpt kaViramaJoinerNukta.
Proof.
  repeat split; try (vm_compute; reflexivity).
  vm_compute. discriminate.
Qed.

(** ** C2: the identifier generator *)

Example md5_empty :
  hexEncode (MD5.digest (utf8Encode [])) = js "d41d8cd98f00b204e9800998ecf8427e".
Proof. vm_compute. reflexivity. Qed.

Example md5_abc :
  hexEncode (MD5.digest (utf8Encode (js "abc")))
  = js "900150983cd24fb0d6963f7d28e17f72".
Proof. vm_compute. reflexivity. Qed.

Example md5_two_blocks :
  hexEncode (MD5.digest (utf8Encode
    (js "12345678901234567890123456789012345678901234567890123456789012345678901234567890")))
  = js "57edf4a22be3c955ac49da2e2107b67a".
Proof. vm_compute. reflexivity. Qed.

(** e acute: two bytes of UTF-8. *)
Example md5_e_acute :
  hexEncode (MD5.digest (utf8Encode [233])) = js "66ddcd97cfdeabb2f6fb8a999b4bc76f".
Proof. vm_compute. reflexivity. Qed.

(** U+1F600, a surrogate pair: four bytes of UTF-8. *)
Example md5_surrogate_pair :
  hexEncode (MD5.digest (utf8Encode [55357; 56832]))
  = js "2a02eac39d716a70ecf37579185927b6".
Proof. vm_compute. reflexivity. Qed.

Definition isByte (b : Z) : Prop := 0 <= b < 256.

Definition isLowerHex (c : Z) : bool := inRange 48 57 c || inRange 97 102 c.

Lemma bytesOfWord_bytes (w : Z) : Forall isByte (MD5.bytesOfWord w).
Proof.
  unfold MD5.bytesOfWord, isByte.
  repeat constructor; apply Z.mod_pos_bound; lia.
Qed.

Lemma digest_bytes (message : list Z) :
  Forall isByte (MD5.digest message) /\ length (MD5.digest message) = 16%nat.
Proof.
  unfold MD5.digest. cbv zeta.
  generalize (fold_left MD5.processBlock
                (MD5.chunks 64 (length (MD5.pad message) / 64) (MD5.pad message))
                MD5.initial) as s.
  intros s. split.
  - apply Forall_app; split; [apply bytesOfWord_bytes|].
    apply Forall_app; split; [apply bytesOfWord_bytes|].
    apply Forall_app; split; apply bytesOfWord_bytes.
  - reflexivity.
Qed.

Lemma hexDigit_inj (d e : Z) :
  0 <= d < 16 -> 0 <= e < 16 -> hexDigit d = hexDigit e -> d = e.
Proof.
  unfold hexDigit. intros Hd He.
  destruct (Z.ltb_spec d 10), (Z.ltb_spec e 10); lia.
Qed.

Lemma hexDigit_lowerHex (d : Z) : 0 <= d < 16 -> isLowerHex (hexDigit d) = true.
Proof.
  unfold hexDigit, isLowerHex, inRange. intros Hd.
  destruct (Z.ltb_spec d 10); code_unit_lia.
Qed.

Lemma byte_nibbles (b : Z) : isByte b -> 0 <= b / 16 < 16 /\ 0 <= b mod 16 < 16.
Proof.
  unfold isByte. intros Hb. split.
  - split; [apply Z.div_pos; lia|apply Z.div_lt_upper_bound; lia].
  - apply Z.mod_pos_bound. lia.
Qed.

Lemma hexEncode_inj (bs bs' : list Z) :
  Forall isByte bs -> Forall isByte bs' ->
  hexEncode bs = hexEncode bs' -> bs = bs'.
Proof.
  intros Hbs. revert bs'.
  induction Hbs as [|b bs Hb Hbs IH]; intros bs' Hbs' Heq.
  - destruct bs'; [reflexivity|discriminate].
  - destruct Hbs' as [|b' bs' Hb' Hbs']; [discriminate|].
    cbn [hexEncode flat_map app] in Heq.
    injection Heq as Hhi Hlo Hrest.
    destruct (byte_nibbles b Hb) as [Hh Hl].
    destruct (byte_nibbles b' Hb') as [Hh' Hl'].
    apply hexDigit_inj in Hhi; [|assumption..].
    apply hexDigit_inj in Hlo; [|assumption..].
    f_equal.
    + rewrite (Z.div_mod b 16), (Z.div_mod b' 16) by lia. congruence.
    + now apply IH.
Qed.

Lemma hexEncode_lowerHex (bs : list Z) :
  Forall isByte bs -> Forall (fun c => isLowerHex c = true) (hexEncode bs).
Proof.
  induction 1 as [|b bs Hb Hbs IH]; [constructor|].
  cbn [hexEncode flat_map app].
  destruct (byte_nibbles b Hb) as [Hh Hl].
  repeat constructor; try (now apply hexDigit_lowerHex). exact IH.
Qed.

Lemma hexEncode_firstn (n : nat) (bs : list Z) :
  firstn (2 * n) (hexEncode bs) = hexEncode (firstn n bs).
Proof.
  revert bs. induction n as [|n IH]; intros bs; [reflexivity|].
  destruct bs as [|b bs]; [reflexivity|].
  replace (2 * S n)%nat with (S (S (2 * n))) by lia.
  cbn [hexEncode flat_map app firstn]. do 2 f_equal. apply IH.
Qed.

Lemma firstn_In {A} (n : nat) (l : list A) (x : A) :
  In x (firstn n l) -> In x l.
Proof.
  revert l. induction n as [|n IH]; intros [|y l]; simpl; try tauto.
  intros [->|H]; [now left|right; now apply IH].
Qed.

Lemma valueHash_bytes (value : jsstring) :
  valueHash value = hexEncode (firstn 4 (MD5.digest (utf8Encode value))).
Proof. unfold valueHash, substring0. apply (hexEncode_firstn 4). Qed.

Lemma replaceAllChar_map (c r : Z) (s : jsstring) :
  replaceAllChar c [r] s = map (fun x => if x =? c then r else x) s.
Proof.
  unfold replaceAllChar. induction s as [|x s IH]; [reflexivity|].
  simpl. rewrite IH. now destruct (x =? c).
Qed.

(** C2, as amended. The identifier is the l10nId, a dash, the field path
    with every dot replaced by a dash, a dash, and the first eight
    lower-case hexadecimal digits of the MD5 of the UTF-8 encoded value;
    equal arguments give equal identifiers; and two values get the same
    suffix exactly when their digests agree on the first four bytes. *)
Theorem generateFtlIdWithL10nId_spec (l10nId fieldPath value : jsstring) :
  generateFtlIdWithL10nId l10nId fieldPath value =
    l10nId ++ js "-" ++
    map (fun c => if c =? DOT then DASH else c) fieldPath ++ js "-" ++
    firstn 8 (hexEncode (MD5.digest (utf8Encode value)))
  /\ length (valueHash value) = 8%nat
  /\ Forall (fun c => isLowerHex c = true) (valueHash value)
  /\ (forall l10nId' fieldPath' value',
        l10nId' = l10nId -> fieldPath' = fieldPath -> value' = value ->
        generateFtlIdWithL10nId l10nId' fieldPath' value' =
        generateFtlIdWithL10nId l10nId fieldPath value)
  /\ (forall value',
        valueHash value' = valueHash value <->
        firstn 4 (MD5.digest (utf8Encode value')) =
        firstn 4 (MD5.digest (utf8Encode value))).
Proof.
  destruct (digest_bytes (utf8Encode value)) as [Hbytes Hlen].
  assert (H4 : forall v, Forall isByte (firstn 4 (MD5.digest (utf8Encode v)))).
  { intros v. apply Forall_forall. intros b Hin.
    apply firstn_In in Hin.
    destruct (digest_bytes (utf8Encode v)) as [Hb _].
    rewrite Forall_forall in Hb. auto. }
  split; [|split; [|split; [|split; [|split]]]].
  - unfold generateFtlIdWithL10nId. cbv zeta.
    change (js "-") with [DASH]. now rewrite replaceAllChar_map.
  - rewrite valueHash_bytes.
    destruct (MD5.digest (utf8Encode value)) as [|b0 [|b1 [|b2 [|b3 rest]]]];
      try discriminate. reflexivity.
  - rewrite valueHash_bytes. apply hexEncode_lowerHex, H4.
  - intros; subst; reflexivity.
  - rewrite !valueHash_bytes. apply hexEncode_inj; apply H4.
  - intros Heq. rewrite !valueHash_bytes. now rewrite Heq.
Qed.

Lemma generateFtlIdWithL10nId_spec_witness :
  generateFtlIdWithL10nId (js "signin-page") (js "headline.text")
    (js "Welcome back") =
  js "signin-page-headline-text-ebdf0f49".
Proof.
  rewrite (proj1 (generateFtlIdWithL10nId_spec
                    (js "signin-page") (js "headline.text") (js "Welcome back"))).
  vm_compute. reflexivity.
Defined.

(** C2, counterexample. Two values that differ in their last character
    only and have the same hash suffix, hence the same identifier. *)
Lemma hash_suffix_collision :
  let v1 := js "Welcome back 1631346W" in
  let v2 := js "Welcome back 1631346d" in
  v1 = js "Welcome back 1631346" ++ js "W" /\
  v2 = js "Welcome back 1631346" ++ js "d" /\
  v1 <> v2 /\
  valueHash v1 = js "e87960e0" /\
  valueHash v2 = js "e87960e0" /\
  generateFtlIdWithL10nId (js "signin") (js "headline.text") v1 =
  generateFtlIdWithL10nId (js "signin") (js "headline.text") v2.
Proof.
  cbv zeta.
  split; [reflexivity|]. split; [reflexivity|].
  split; [vm_compute; discriminate|].
  split; [vm_compute; reflexivity|].
  split; vm_compute; reflexivity.
Qed.

(** ** C7: entries without an l10nId *)

Lemma collectEntries_app (ucd : UnicodeData) (before after : list JsVal) :
  collectEntries ucd (before ++ after) =
    (fromBefore <- collectEntries ucd before ;;
     fromAfter <- collectEntries ucd after ;;
     Returns (fromBefore ++ fromAfter)).
Proof.
  induction before as [|entry before IH]; simpl.
  - destruct (collectEntries ucd after); reflexivity.
  - destruct (collectEntry ucd entry) as [fromEntry| |]; try reflexivity.
    simpl. rewrite IH.
    destruct (collectEntries ucd before) as [fromBefore| |]; try reflexivity.
    simpl.
    destruct (collectEntries ucd after) as [fromAfter| |]; try reflexivity.
    simpl. now rewrite app_assoc.
Qed.

(** C7. An element of the input that is not an object, or whose l10nId is
    missing (or present but falsy), adds no entry to those collected, so
    the serialized text is the one of the input without that element: no
    identifier and no data line comes from it. *)
Theorem entry_without_l10nId_is_skipped
  (ucd : UnicodeData) (localeCompare : jsstring -> jsstring -> Z)
  (timestamp : jsstring) (before after : list JsVal) (entry : JsVal) :
  match entry with
  | JObj props => truthy (getField props (js "l10nId")) = false
  | _ => True
  end ->
  collectEntry ucd entry = Returns [] /\
  collectEntries ucd (before ++ entry :: after) =
    collectEntries ucd (before ++ after) /\
  strapiToFtl ucd localeCompare timestamp (before ++ entry :: after) =
    strapiToFtl ucd localeCompare timestamp (before ++ after).
Proof.
  intros Hentry.
  assert (Hskip : collectEntry ucd entry = Returns []).
  { destruct entry as [ | | b | n | s | items | props]; try reflexivity.
    unfold collectEntry.
    destruct (getField props (js "l10nId")) as [ | | b | n | [|c s] | items | fields];
      cbn [truthy str_eqb negb] in *; try discriminate; try reflexivity;
      now rewrite Hentry. }
  assert (Hsame : collectEntries ucd (before ++ entry :: after) =
                  collectEntries ucd (before ++ after)).
  { rewrite !collectEntries_app. cbn [collectEntries]. rewrite Hskip.
    destruct (collectEntries ucd before); try reflexivity. simpl.
    destruct (collectEntries ucd after); reflexivity. }
  repeat split; try assumption.
  unfold strapiToFtl. now rewrite Hsame.
Qed.

(** The entry of the specification's example, under a dash-free l10nId. *)
Definition signinEntry : JsVal :=
  JObj [ (js "l10nId", JStr (js "signin"));
         (js "name", JStr (js "SignIn"));
         (js "headline", JObj [ (js "text", JStr (js "Welcome back")) ]) ].

(** The same entry with its l10nId removed. *)
Definition anonymousEntry : JsVal :=
  JObj [ (js "name", JStr (js "SignIn"));
         (js "headline", JObj [ (js "text", JStr (js "Welcome back")) ]) ].

Lemma entry_without_l10nId_is_skipped_witness :
  collectEntry unicodeExcerpt anonymousEntry = Returns [] /\
  collectEntries unicodeExcerpt ([signinEntry] ++ anonymousEntry :: [JNull]) =
    collectEntries unicodeExcerpt ([signinEntry] ++ [JNull]) /\
  strapiToFtl unicodeExcerpt codeUnitCompare (js "2024-01-01T00:00:00.000Z")
    ([signinEntry] ++ anonymousEntry :: [JNull]) =
  strapiToFtl unicodeExcerpt codeUnitCompare (js "2024-01-01T00:00:00.000Z")
    ([signinEntry] ++ [JNull]).
Proof.
  apply (entry_without_l10nId_is_skipped unicodeExcerpt codeUnitCompare).
  reflexivity.
Defined.

(** ** C1: serializing, then deserializing *)

Definition signinFtl : jsstring :=
  join [LF]
    [ js "# Generated on 2024-01-01T00:00:00.000Z";
      js "# FTL file for CMS localization";
      [];
      js "# signin - SignIn";
      js "# Text for Headline";
      js "signin-headline-text-ebdf0f49 = Welcome back" ].

Definition signinBase : list (jsstring * JsVal) :=
  [ (js "l10nId", JStr (js "signin")); (js "name", JStr (js "SignIn")) ].

(** A line without a double quote is never read as a data line: every
    line the serializer writes for a value that holds no double quote is
    passed over by the deserializer. *)
Lemma convertFtlLine_unquoted (l10nId : jsstring)
    (strapiFormat : list (jsstring * JsVal)) (line : jsstring) :
  ~ In QUOTE line ->
  convertFtlLine l10nId strapiFormat line = Returns strapiFormat.
Proof.
  intros Hnq. unfold convertFtlLine.
  destruct (str_eqb (trim line) [] || startsWith (trim line) (js "#"));
    [reflexivity|].
  destruct (matchDataLine (trim line)) as [[ftlId value]|] eqn:Hmatch;
    [|reflexivity].
  exfalso. apply matchDataLine_sound in Hmatch
    as (ws1 & ws2 & (Hline & _) & _).
  assert (Hall : Forall (fun c => c <> QUOTE) (trim line)).
  { apply trim_Forall. apply Forall_forall. intros c Hc ->. contradiction. }
  rewrite Hline in Hall. rewrite !Forall_app in Hall.
  destruct Hall as (_ & _ & _ & _ & Hq & _).
  inversion Hq as [|? ? Hq' _]. now apply Hq'.
Qed.

(** C1 at the entry of the specification's example. The serializer writes
    the value bare, without the double quotes the deserializer's pattern
    demands, so the line it wrote is not read back: the result holds the
    four metadata fields and no [headline] component. The same text with
    the value quoted is read back. *)
Theorem round_trip_drops_unquoted_value :
  strapiToFtl unicodeExcerpt codeUnitCompare (js "2024-01-01T00:00:00.000Z")
    [signinEntry] = Returns signinFtl /\
  matchDataLine (js "signin-headline-text-ebdf0f49 = Welcome back") = None /\
  convertFtlToStrapiFormat (js "signin") signinFtl signinBase =
    Returns [ (js "clientId", JUndefined);
              (js "entrypoint", JUndefined);
              (js "name", JStr (js "SignIn"));
              (js "l10nId", JStr (js "signin")) ] /\
  convertFtlToStrapiFormat (js "signin")
    (signinFtl ++ [LF] ++ js "signin-headline-text-ebdf0f49 = " ++
     [QUOTE] ++ js "Welcome back" ++ [QUOTE]) signinBase =
    Returns [ (js "clientId", JUndefined);
              (js "entrypoint", JUndefined);
              (js "name", JStr (js "SignIn"));
              (js "l10nId", JStr (js "signin"));
              (js "headline", JObj [ (js "text", JStr (js "Welcome back")) ]) ].
Proof.
  split; [vm_compute; reflexivity|].
  split; [vm_compute; reflexivity|].
  split; vm_compute; reflexivity.
Qed.

(** ** C4: order and duplicates of the serialized entries *)

Lemma existsb_str_eqb (x : jsstring) (l : list jsstring) :
  existsb (str_eqb x) l = true <-> In x l.
Proof.
  rewrite existsb_exists. split.
  - intros (y & Hin & Heq). apply str_eqb_eq in Heq. now subst.
  - intros Hin. exists x. split; [exact Hin|now apply str_eqb_eq].
Qed.

Section StableSort.
Context {A : Type} (compare : A -> A -> Z) (dom : A -> Prop).

Let le (a b : A) : Prop := compare a b <= 0.

(** The comparator is consistent on the elements to be sorted. *)
Hypothesis compare_total : forall a b, le a b \/ le b a.
Hypothesis compare_trans :
  forall a b c, dom a -> dom b -> dom c -> le a b -> le b c -> le a c.

Lemma insertSorted_perm (x : A) (l : list A) :
  Permutation (insertSorted compare x l) (x :: l).
Proof.
  induction l as [|y l IH]; simpl; [reflexivity|].
  destruct (compare x y <=? 0); [reflexivity|].
  rewrite IH. apply perm_swap.
Qed.

Lemma sortWith_perm (l : list A) : Permutation (sortWith compare l) l.
Proof.
  induction l as [|x l IH]; simpl; [reflexivity|].
  rewrite insertSorted_perm. now constructor.
Qed.

Lemma insertSorted_sorted (x : A) (l : list A) :
  dom x -> Forall dom l ->
  StronglySorted le l -> StronglySorted le (insertSorted compare x l).
Proof.
  intros Hx Hl. induction 1 as [|y l Hsorted IH Hy]; simpl.
  - repeat constructor.
  - inversion Hl as [|? ? Hdy Hdl]; subst.
    destruct (Z.leb_spec (compare x y) 0) as [Hxy|Hxy].
    + constructor; [now constructor|].
      constructor; [exact Hxy|].
      apply Forall_forall. intros z Hz.
      rewrite Forall_forall in Hy, Hdl.
      apply compare_trans with y; auto.
    + constructor; [now apply IH|].
      assert (Hyx : le y x) by (destruct (compare_total x y); [unfold le in *; lia|assumption]).
      apply Forall_forall. intros z Hz.
      apply (Permutation_in _ (insertSorted_perm x l)) in Hz.
      destruct Hz as [<-|Hz]; [exact Hyx|].
      rewrite Forall_forall in Hy. now apply Hy.
Qed.

Lemma sortWith_sorted (l : list A) :
  Forall dom l -> StronglySorted le (sortWith compare l).
Proof.
  induction 1 as [|x l Hx Hl IH]; simpl; [constructor|].
  apply insertSorted_sorted; [exact Hx| |exact IH].
  apply Forall_forall. intros y Hy.
  apply (Permutation_in _ (sortWith_perm l)) in Hy.
  rewrite Forall_forall in Hl. now apply Hl.
Qed.
End StableSort.

(** The first occurrences of each identifier. *)

Lemma uniqueByFtlId_In (l : list Entry.t) (seen : list jsstring) (e : Entry.t) :
  In e (uniqueByFtlId l seen) -> In e l /\ ~ In (Entry.ftlId e) seen.
Proof.
  revert seen. induction l as [|x l IH]; intros seen; simpl; [tauto|].
  destruct (existsb (str_eqb (Entry.ftlId x)) seen) eqn:Hseen; simpl.
  - intros Hin. destruct (IH _ Hin). tauto.
  - intros [<-|Hin].
    + split; [now left|]. rewrite <- existsb_str_eqb. congruence.
    + destruct (IH _ Hin) as [Hl Hs]. split; [now right|].
      intros Hs'. apply Hs. now right.
Qed.

Lemma uniqueByFtlId_NoDup (l : list Entry.t) (seen : list jsstring) :
  NoDup (map Entry.ftlId (uniqueByFtlId l seen)).
Proof.
  revert seen. induction l as [|x l IH]; intros seen; simpl; [constructor|].
  destruct (existsb (str_eqb (Entry.ftlId x)) seen); simpl; [apply IH|].
  constructor; [|apply IH].
  intros Hin. apply in_map_iff in Hin as (e & Heq & Hin).
  apply uniqueByFtlId_In in Hin as [_ Hs]. apply Hs. left. now symmetry.
Qed.

Lemma uniqueByFtlId_first (l : list Entry.t) (seen : list jsstring) (e : Entry.t) :
  In e (uniqueByFtlId l seen) ->
  exists before after,
    l = before ++ e :: after /\
    ~ In (Entry.ftlId e) (map Entry.ftlId before).
Proof.
  revert seen. induction l as [|x l IH]; intros seen; simpl; [tauto|].
  destruct (existsb (str_eqb (Entry.ftlId x)) seen) eqn:Hseen; simpl.
  - intros Hin. pose proof (uniqueByFtlId_In _ _ _ Hin) as [_ Hs].
    destruct (IH _ Hin) as (before & after & -> & Hfirst).
    exists (x :: before), after. split; [reflexivity|].
    simpl. intros [Heq|Hin']; [|contradiction].
    apply Hs. rewrite <- Heq. now apply existsb_str_eqb.
  - intros [<-|Hin].
    + exists [], l. split; [reflexivity|]. simpl. tauto.
    + pose proof (uniqueByFtlId_In _ _ _ Hin) as [_ Hs].
      destruct (IH _ Hin) as (before & after & -> & Hfirst).
      exists (x :: before), after. split; [reflexivity|].
      simpl. intros [Heq|Hin']; [|contradiction].
      apply Hs. left. exact Heq.
Qed.

Lemma uniqueByFtlId_covers (l : list Entry.t) (seen : list jsstring) (e : Entry.t) :
  In e l -> ~ In (Entry.ftlId e) seen ->
  exists e', In e' (uniqueByFtlId l seen) /\ Entry.ftlId e' = Entry.ftlId e.
Proof.
  revert seen. induction l as [|x l IH]; intros seen; simpl; [tauto|].
  intros Hin Hseen.
  destruct (existsb (str_eqb (Entry.ftlId x)) seen) eqn:Hx; simpl.
  - destruct Hin as [->|Hin].
    + apply existsb_str_eqb in Hx. contradiction.
    + now apply IH.
  - destruct (str_eqb (Entry.ftlId x) (Entry.ftlId e)) eqn:Heq.
    + apply str_eqb_eq in Heq. exists x. split; [now left|exact Heq].
    + destruct Hin as [->|Hin].
      * exists e. split; [now left|reflexivity].
      * destruct (IH (Entry.ftlId x :: seen) Hin) as (e' & Hin' & Heq').
        { intros [Hx'|Hs]; [|contradiction].
          rewrite Hx' in Heq.
          assert (str_eqb (Entry.ftlId e) (Entry.ftlId e) = true)
            by now apply str_eqb_eq.
          congruence. }
        exists e'. split; [now right|exact Heq'].
Qed.

Lemma uniqueByFtlId_sorted (R : Entry.t -> Entry.t -> Prop)
    (l : list Entry.t) (seen : list jsstring) :
  StronglySorted R l -> StronglySorted R (uniqueByFtlId l seen).
Proof.
  intros Hsorted. revert seen.
  induction Hsorted as [|x l Hsorted IH Hx]; intros seen; simpl; [constructor|].
  destruct (existsb (str_eqb (Entry.ftlId x)) seen); simpl; [apply IH|].
  constructor; [apply IH|].
  apply Forall_forall. intros e Hin. apply uniqueByFtlId_In in Hin as [Hin _].
  rewrite Forall_forall in Hx. now apply Hx.
Qed.

(** The lines pushed for one entry: the blank line and the section header
    when the l10nId changes, then the comment and the data line. *)
Definition isBlock (ucd : UnicodeData) (e : Entry.t) (block : list jsstring)
  : Prop :=
  exists header,
    block = header ++
            [js "# " ++ generateFieldComment ucd (Entry.fieldPath e);
             dataLine e] /\
    Forall (fun line => line = [] \/ startsWith line (js "# ") = true) header.

Lemma renderEntries_blocks (ucd : UnicodeData) (entries : list Entry.t) :
  forall currentL10nId lines,
    renderEntries ucd entries currentL10nId = Returns lines ->
    exists blocks,
      lines = concat blocks /\ Forall2 (isBlock ucd) entries blocks.
Proof.
  induction entries as [|e entries IH]; intros cur lines; cbn [renderEntries].
  - intros H. injection H as <-. exists []. split; [reflexivity|constructor].
  - set (changed := negb (str_eqb (Entry.l10nId e) cur)).
    set (hdr := if changed then _ else Returns []).
    assert (Hhdr : forall header, hdr = Returns header ->
              Forall (fun line => line = [] \/ startsWith line (js "# ") = true)
                     header).
    { subst hdr. destruct changed.
      - destruct (entryNameOrDefault (Entry.entryName e)) as [name| |];
          try discriminate.
        cbn [bind]. intros header H. injection H as <-.
        apply Forall_app. split.
        + destruct (negb (str_eqb cur []));
            [constructor; [now left|constructor]|constructor].
        + constructor; [right; reflexivity|constructor].
      - intros header H. injection H as <-. constructor. }
    destruct hdr as [header| |]; try discriminate. cbn [bind].
    destruct (renderEntries ucd entries (if changed then Entry.l10nId e else cur))
      as [rest| |] eqn:Hrest; try discriminate.
    cbn [bind]. intros H. injection H as <-.
    destruct (IH _ _ Hrest) as (blocks & -> & Hblocks).
    exists ((header ++
             [js "# " ++ generateFieldComment ucd (Entry.fieldPath e);
              dataLine e]) :: blocks).
    split.
    + cbn [concat]. now rewrite <- app_assoc.
    + constructor; [|exact Hblocks].
      exists header. split; [reflexivity|]. now apply Hhdr.
Qed.

(** Ascending by (l10nId, fieldPath) under a collation. *)
Definition entryOrder (localeCompare : jsstring -> jsstring -> Z)
    (a b : Entry.t) : Prop :=
  (Entry.l10nId a <> Entry.l10nId b /\
   localeCompare (Entry.l10nId a) (Entry.l10nId b) <= 0) \/
  (Entry.l10nId a = Entry.l10nId b /\
   localeCompare (Entry.fieldPath a) (Entry.fieldPath b) <= 0).

Lemma compareEntries_entryOrder (localeCompare : jsstring -> jsstring -> Z)
    (a b : Entry.t) :
  compareEntries localeCompare a b <= 0 <-> entryOrder localeCompare a b.
Proof.
  unfold compareEntries, entryOrder.
  destruct (str_eqb (Entry.l10nId a) (Entry.l10nId b)) eqn:Heq; cbn [negb].
  - apply str_eqb_eq in Heq. tauto.
  - assert (Entry.l10nId a <> Entry.l10nId b).
    { intros H. apply str_eqb_eq in H. congruence. }
    tauto.
Qed.

Lemma StronglySorted_impl {A} (R S : A -> A -> Prop) (l : list A) :
  (forall a b, R a b -> S a b) -> StronglySorted R l -> StronglySorted S l.
Proof.
  intros HRS. induction 1 as [|x l Hsorted IH Hx]; constructor.
  - exact IH.
  - eapply Forall_impl; [|exact Hx]. intros b. apply HRS.
Qed.

(** The l10nIds of the elements that the serializer reads. *)
Definition entryL10nIds (strapiData : list JsVal) : list jsstring :=
  flat_map (fun entry =>
              match entry with
              | JObj props =>
                  match getField props (js "l10nId") with
                  | JStr l10nId => [l10nId]
                  | _ => []
                  end
              | _ => []
              end) strapiData.

Lemma collectEntries_l10nIds (ucd : UnicodeData) (strapiData : list JsVal) :
  forall allEntries,
    collectEntries ucd strapiData = Returns allEntries ->
    Forall (fun e => In (Entry.l10nId e) (entryL10nIds strapiData)) allEntries.
Proof.
  induction strapiData as [|entry rest IH]; intros allEntries;
    cbn [collectEntries].
  - intros [= <-]. constructor.
  - destruct (collectEntry ucd entry) as [fromEntry| |] eqn:Hentry;
      try discriminate. cbn [bind].
    destruct (collectEntries ucd rest) as [fromRest| |]; try discriminate.
    cbn [bind]. intros [= <-]. cbn [entryL10nIds flat_map].
    apply Forall_app. split.
    + unfold collectEntry in Hentry.
      destruct entry as [| | | | | |props];
        try (injection Hentry as <-; constructor).
      destruct (getField props (js "l10nId")) as [| |b|n|l10nId|items|inner];
        try (cbn [truthy] in Hentry;
             match type of Hentry with
             | (if ?c then _ else _) = _ => destruct c
             | _ => idtac
             end;
             try discriminate; injection Hentry as <-; constructor).
      destruct l10nId as [|c l10nId]; [injection Hentry as <-; constructor|].
      injection Hentry as <-. apply Forall_forall. intros e He.
      apply in_map_iff in He as (kv & <- & _). cbn [Entry.l10nId].
      apply in_or_app. left. now left.
    + eapply Forall_impl; [|apply IH; reflexivity].
      intros e He. apply in_or_app. now right.
Qed.

Section Collation.
(** The host's collation: a consistent comparison of strings, which may
    hold different strings equal, as it does the canonically equivalent
    ones. *)
Variable localeCompare : jsstring -> jsstring -> Z.
Hypothesis localeCompare_total :
  forall a b, localeCompare a b <= 0 \/ localeCompare b a <= 0.
Hypothesis localeCompare_trans :
  forall a b c,
    localeCompare a b <= 0 -> localeCompare b c <= 0 -> localeCompare a c <= 0.

(** Among these strings the collation holds no two different ones
    equal. *)
Definition tiesAreIdentical (ids : list jsstring) : Prop :=
  forall a b, In a ids -> In b ids ->
    localeCompare a b <= 0 -> localeCompare b a <= 0 -> a = b.

Lemma compareEntries_total (a b : Entry.t) :
  compareEntries localeCompare a b <= 0 \/ compareEntries localeCompare b a <= 0.
Proof.
  rewrite !compareEntries_entryOrder. unfold entryOrder.
  destruct (str_eqb (Entry.l10nId a) (Entry.l10nId b)) eqn:Heq.
  - apply str_eqb_eq in Heq.
    destruct (localeCompare_total (Entry.fieldPath a) (Entry.fieldPath b));
      [left|right]; right; split; congruence.
  - assert (Hne : Entry.l10nId a <> Entry.l10nId b).
    { intros H. apply str_eqb_eq in H. congruence. }
    destruct (localeCompare_total (Entry.l10nId a) (Entry.l10nId b));
      [left|right]; left; split; congruence.
Qed.

Lemma compareEntries_trans (ids : list jsstring) (a b c : Entry.t) :
  tiesAreIdentical ids ->
  In (Entry.l10nId a) ids -> In (Entry.l10nId b) ids ->
  In (Entry.l10nId c) ids ->
  compareEntries localeCompare a b <= 0 ->
  compareEntries localeCompare b c <= 0 ->
  compareEntries localeCompare a c <= 0.
Proof.
  intros Hties Ha Hb _. rewrite !compareEntries_entryOrder. unfold entryOrder.
  intros [[Hab Hab']|[Hab Hab']] [[Hbc Hbc']|[Hbc Hbc']].
  - left. split; [|now apply localeCompare_trans with (Entry.l10nId b)].
    intros Hac. apply Hab. apply Hties; [exact Ha|exact Hb|exact Hab'|].
    now rewrite Hac.
  - left. rewrite <- Hbc. now split.
  - left. rewrite Hab. now split.
  - right. split; [congruence|].
    now apply localeCompare_trans with (Entry.fieldPath b).
Qed.

(** X28. For an input among whose l10nIds the collation holds no two
    different ones equal: the entries whose lines are written,
    block after block in this order, are ascending by (l10nId,
    fieldPath) under the collation; no two of them share an identifier;
    every collected entry's identifier is among them; and each is the
    first entry with its identifier in the sorted list of all collected
    entries. Each block ends with the data line of its entry, after
    comment lines and blank lines; and when no line written holds a line
    feed, the lines of the returned text are exactly the three lines of
    the header followed by these blocks. *)
Theorem strapiToFtl_sorted_and_unique
  (ucd : UnicodeData) (timestamp : jsstring) (strapiData : list JsVal)
  (text : jsstring) :
  tiesAreIdentical (entryL10nIds strapiData) ->
  strapiToFtl ucd localeCompare timestamp strapiData = Returns text ->
  exists allEntries sorted emitted blocks,
    collectEntries ucd strapiData = Returns allEntries /\
    Permutation sorted allEntries /\
    StronglySorted (entryOrder localeCompare) sorted /\
    text = join [LF]
             ([js "# Generated on " ++ timestamp;
               js "# FTL file for CMS localization"; []] ++ concat blocks) /\
    Forall2 (isBlock ucd) emitted blocks /\
    StronglySorted (entryOrder localeCompare) emitted /\
    NoDup (map Entry.ftlId emitted) /\
    (forall e, In e allEntries ->
       exists e', In e' emitted /\ Entry.ftlId e' = Entry.ftlId e) /\
    (forall e, In e emitted ->
       exists before after,
         sorted = before ++ e :: after /\
         ~ In (Entry.ftlId e) (map Entry.ftlId before)) /\
    (~ In LF timestamp ->
     Forall (fun line => ~ In LF line) (concat blocks) ->
     split LF text =
       [js "# Generated on " ++ timestamp;
        js "# FTL file for CMS localization"; []] ++ concat blocks).
Proof.
  intros Hties. unfold strapiToFtl.
  destruct (collectEntries ucd strapiData) as [allEntries| |] eqn:Hcollect;
    try discriminate. cbn [bind].
  set (sorted := sortWith (compareEntries localeCompare) allEntries).
  destruct (renderEntries ucd (uniqueByFtlId sorted []) [])
    as [lines| |] eqn:Hlines; try discriminate.
  cbn [bind]. intros H. injection H as <-.
  destruct (renderEntries_blocks _ _ _ _ Hlines) as (blocks & -> & Hblocks).
  assert (Hsorted : StronglySorted (entryOrder localeCompare) sorted).
  { apply StronglySorted_impl
      with (R := fun a b => compareEntries localeCompare a b <= 0).
    - intros a b. apply compareEntries_entryOrder.
    - apply sortWith_sorted
        with (dom := fun e => In (Entry.l10nId e) (entryL10nIds strapiData)).
      + apply compareEntries_total.
      + intros a b c. now apply compareEntries_trans.
      + now apply (collectEntries_l10nIds ucd). }
  exists allEntries, sorted, (uniqueByFtlId sorted []), blocks.
  split; [reflexivity|].
  split; [apply sortWith_perm|].
  split; [exact Hsorted|].
  split; [reflexivity|].
  split; [exact Hblocks|].
  split; [now apply uniqueByFtlId_sorted|].
  split; [apply uniqueByFtlId_NoDup|].
  split; [|split].
  - intros e Hin. apply uniqueByFtlId_covers; [|tauto].
    apply (Permutation_in _ (Permutation_sym (sortWith_perm _ allEntries))).
    exact Hin.
  - intros e Hin. now apply uniqueByFtlId_first with (seen := []).
  - intros Htime Hfree.
    apply (split_join LF
             ([js "# Generated on " ++ timestamp;
               js "# FTL file for CMS localization"; []] ++ concat blocks));
      [discriminate|].
    apply Forall_app. split; [|exact Hfree].
    constructor; [|constructor; [|constructor; [|constructor]]].
    + intros Hin. apply in_app_or in Hin as [Hin|Hin]; [|contradiction].
      revert Hin. vm_compute. intuition discriminate.
    + vm_compute. intuition discriminate.
    + intros [].
Qed.
End Collation.

(** The collation of the examples that orders strings by code unit. *)

Lemma codeUnitCompare_antisym (a b : jsstring) :
  codeUnitCompare a b <= 0 -> codeUnitCompare b a <= 0 -> a = b.
Proof.
  revert b. induction a as [|x a IH]; intros [|y b]; simpl; try lia.
  - reflexivity.
  - destruct (Z.ltb_spec x y), (Z.ltb_spec y x); try lia.
    intros Hab Hba. f_equal; [lia|now apply IH].
Qed.

Lemma codeUnitCompare_total (a b : jsstring) :
  codeUnitCompare a b <= 0 \/ codeUnitCompare b a <= 0.
Proof.
  revert b. induction a as [|x a IH]; intros [|y b]; simpl; try lia.
  destruct (Z.ltb_spec x y), (Z.ltb_spec y x); try lia. apply IH.
Qed.

Lemma codeUnitCompare_trans (a b c : jsstring) :
  codeUnitCompare a b <= 0 -> codeUnitCompare b c <= 0 ->
  codeUnitCompare a c <= 0.
Proof.
  revert b c. induction a as [|x a IH]; intros [|y b] [|z c]; simpl; try lia.
  destruct (Z.ltb_spec x y), (Z.ltb_spec y x), (Z.ltb_spec y z),
    (Z.ltb_spec z y), (Z.ltb_spec x z), (Z.ltb_spec z x); try lia.
  apply IH.
Qed.

(** A collation that, like the host's, holds canonically equivalent
    strings equal: the order by code unit of the normalized strings. *)
Definition canonicalCompare (a b : jsstring) : Z :=
  codeUnitCompare (normalizeNFD unicodeExcerpt a)
                  (normalizeNFD unicodeExcerpt b).

Lemma canonicalCompare_total (a b : jsstring) :
  canonicalCompare a b <= 0 \/ canonicalCompare b a <= 0.
Proof. apply codeUnitCompare_total. Qed.

Lemma canonicalCompare_trans (a b c : jsstring) :
  canonicalCompare a b <= 0 -> canonicalCompare b c <= 0 ->
  canonicalCompare a c <= 0.
Proof. apply codeUnitCompare_trans. Qed.

(** Three entries: two share the l10nId and one field, with the same
    value. *)
Definition threeEntries : list JsVal :=
  [ JObj [ (js "l10nId", JStr (js "signin"));
           (js "name", JStr (js "SignIn"));
           (js "headline", JObj [ (js "text", JStr (js "Welcome back")) ]);
           (js "button", JObj [ (js "label", JStr (js "Go")) ]) ];
    JObj [ (js "l10nId", JStr (js "signin"));
           (js "headline", JObj [ (js "text", JStr (js "Welcome back")) ]) ];
    JObj [ (js "l10nId", JStr (js "account"));
           (js "title", JObj [ (js "text", JStr (js "Your account")) ]) ] ].

Definition threeEntriesFtl : jsstring :=
  join [LF]
    [ js "# Generated on 2024-01-01T00:00:00.000Z";
      js "# FTL file for CMS localization";
      [];
      js "# account - CMS Entry";
      js "# Text for Title";
      js "account-title-text-f2fc7490 = Your account";
      [];
      js "# signin - SignIn";
      js "# Label for Button";
      js "signin-button-label-5f075ae3 = Go";
      js "# Text for Headline";
      js "signin-headline-text-ebdf0f49 = Welcome back" ].

Example strapiToFtl_threeEntries :
  strapiToFtl unicodeExcerpt codeUnitCompare (js "2024-01-01T00:00:00.000Z")
    threeEntries = Returns threeEntriesFtl.
Proof. vm_compute. reflexivity. Qed.

Example strapiToFtl_threeEntries_canonical :
  strapiToFtl unicodeExcerpt canonicalCompare (js "2024-01-01T00:00:00.000Z")
    threeEntries = Returns threeEntriesFtl.
Proof. vm_compute. reflexivity. Qed.

Lemma strapiToFtl_sorted_and_unique_witness :
  exists allEntries sorted emitted blocks,
    collectEntries unicodeExcerpt threeEntries = Returns allEntries /\
    Permutation sorted allEntries /\
    StronglySorted (entryOrder canonicalCompare) sorted /\
    threeEntriesFtl =
      join [LF]
        ([js "# Generated on " ++ js "2024-01-01T00:00:00.000Z";
          js "# FTL file for CMS localization"; []] ++ concat blocks) /\
    Forall2 (isBlock unicodeExcerpt) emitted blocks /\
    StronglySorted (entryOrder canonicalCompare) emitted /\
    NoDup (map Entry.ftlId emitted) /\
    (forall e, In e allEntries ->
       exists e', In e' emitted /\ Entry.ftlId e' = Entry.ftlId e) /\
    (forall e, In e emitted ->
       exists before after,
         sorted = before ++ e :: after /\
         ~ In (Entry.ftlId e) (map Entry.ftlId before)) /\
    (~ In LF (js "2024-01-01T00:00:00.000Z") ->
     Forall (fun line => ~ In LF line) (concat blocks) ->
     split LF threeEntriesFtl =
       [js "# Generated on " ++ js "2024-01-01T00:00:00.000Z";
        js "# FTL file for CMS localization"; []] ++ concat blocks).
Proof.
  apply (strapiToFtl_sorted_and_unique canonicalCompare
           canonicalCompare_total canonicalCompare_trans
           unicodeExcerpt (js "2024-01-01T00:00:00.000Z") threeEntries).
  - intros a b Ha Hb.
    assert (Hids : forall x, In x (entryL10nIds threeEntries) ->
              x = js "signin" \/ x = js "account").
    { intros x Hx. cbn in Hx.
      destruct Hx as [<-|[<-|[<-|[]]]]; [left|left|right]; reflexivity. }
    destruct (Hids a Ha) as [-> | ->], (Hids b Hb) as [-> | ->];
      try reflexivity; vm_compute; intros H1 H2; exfalso;
      (now apply H1) || (now apply H2).
  - vm_compute. reflexivity.
Defined.

(** Three entries whose l10nIds the collation holds equal: the first and
    the third have the l10nId U+00E9, the second its canonical
    decomposition U+0065 U+0301. *)
Definition equivalentEntries : list JsVal :=
  [ JObj [ (js "l10nId", JStr [233]);
           (js "z", JObj [ (js "t", JStr (js "last")) ]) ];
    JObj [ (js "l10nId", JStr [101; 769]);
           (js "m", JObj [ (js "t", JStr (js "middle")) ]) ];
    JObj [ (js "l10nId", JStr [233]);
           (js "a", JObj [ (js "t", JStr (js "first")) ]) ] ].

(** The entries collected from them, in the order of the input. *)
Definition equivalentCollected : list Entry.t :=
  [ {| Entry.l10nId := [233]; Entry.ftlId := [233] ++ js "-z-t-98bd1c45";
       Entry.value := js "last"; Entry.fieldPath := js "z.t";
       Entry.entryName := JUndefined; Entry.entrypoint := JUndefined |};
    {| Entry.l10nId := [101; 769]; Entry.ftlId := [101; 769] ++ js "-m-t-4a548add";
       Entry.value := js "middle"; Entry.fieldPath := js "m.t";
       Entry.entryName := JUndefined; Entry.entrypoint := JUndefined |};
    {| Entry.l10nId := [233]; Entry.ftlId := [233] ++ js "-a-t-8b04d5e3";
       Entry.value := js "first"; Entry.fieldPath := js "a.t";
       Entry.entryName := JUndefined; Entry.entrypoint := JUndefined |} ].

(** C4. The data lines are not ascending by (l10nId, fieldPath) for every
    input. Under a collation that is consistent and holds canonically
    equivalent strings equal, as the host's does, the comparator of the
    sort finds each of these three entries equal to the next (their
    l10nIds differ as strings and compare equal, so the field paths are
    not looked at), so a stable sort by insertion or by merging, which
    compares each with its neighbour, moves none of them, and the
    entries are written in the order of the input: the data line of
    [z.t] comes before the one of [a.t], both of the l10nId U+00E9,
    although [a.t] is before [z.t] in the collation. *)
Lemma strapiToFtl_unsorted_on_equivalent_l10nIds :
  (forall a b, canonicalCompare a b <= 0 \/ canonicalCompare b a <= 0) /\
  (forall a b c, canonicalCompare a b <= 0 -> canonicalCompare b c <= 0 ->
                 canonicalCompare a c <= 0) /\
  canonicalCompare [233] [101; 769] = 0 /\
  canonicalCompare [101; 769] [233] = 0 /\
  canonicalCompare (js "a.t") (js "z.t") < 0 /\
  collectEntries unicodeExcerpt equivalentEntries = Returns equivalentCollected /\
  uniqueByFtlId (sortWith (compareEntries canonicalCompare) equivalentCollected) []
    = equivalentCollected /\
  ~ StronglySorted (entryOrder canonicalCompare) equivalentCollected /\
  strapiToFtl unicodeExcerpt canonicalCompare (js "2024-01-01T00:00:00.000Z")
    equivalentEntries =
  Returns
    (join [LF]
       [ js "# Generated on 2024-01-01T00:00:00.000Z";
         js "# FTL file for CMS localization";
         [];
         js "# " ++ [233] ++ js " - CMS Entry";
         js "# T for Z";
         [233] ++ js "-z-t-98bd1c45 = last";
         [];
         js "# " ++ [101; 769] ++ js " - CMS Entry";
         js "# T for M";
         [101; 769] ++ js "-m-t-4a548add = middle";
         [];
         js "# " ++ [233] ++ js " - CMS Entry";
         js "# T for A";
         [233] ++ js "-a-t-8b04d5e3 = first" ]).
Proof.
  split; [exact canonicalCompare_total|].
  split; [exact canonicalCompare_trans|].
  split; [reflexivity|]. split; [reflexivity|]. split; [reflexivity|].
  split; [vm_compute; reflexivity|].
  split; [vm_compute; reflexivity|].
  split; [|vm_compute; reflexivity].
  unfold equivalentCollected. intros Hsorted.
  inversion Hsorted as [|? ? _ Hall]; subst.
  inversion Hall as [|? ? _ Hrest]; subst.
  inversion Hrest as [|? ? H13 _]; subst.
  unfold entryOrder in H13. cbn [Entry.l10nId Entry.fieldPath] in H13.
  destruct H13 as [[Hne _]|[_ Hle]]; [now apply Hne|].
  vm_compute in Hle. now apply Hle.
Qed.

(** The serializer returns on every input that respects the declared
    types of [l10nId] and [name]. *)

Definition stringOrFalsy (v : JsVal) : Prop :=
  match v with
  | JStr _ => True
  | _ => truthy v = false
  end.

Definition wellTypedEntry (entry : JsVal) : Prop :=
  match entry with
  | JObj props =>
      stringOrFalsy (getField props (js "l10nId")) /\
      stringOrFalsy (getField props (js "name"))
  | _ => True
  end.

Lemma collectEntry_returns (ucd : UnicodeData) (entry : JsVal) :
  wellTypedEntry entry ->
  exists entries,
    collectEntry ucd entry = Returns entries /\
    Forall (fun e => stringOrFalsy (Entry.entryName e)) entries.
Proof.
  destruct entry as [ | | b | n | s | items | props]; intros Hwt;
    try (exists []; split; [reflexivity|constructor]).
  destruct Hwt as [Hid Hname]. unfold collectEntry.
  destruct (getField props (js "l10nId")) as [ | | b | n | [|c s] | items | fields];
    cbn [stringOrFalsy truthy str_eqb negb] in *;
    try (exists []; split; [reflexivity|constructor]);
    try (rewrite Hid; exists []; split; [reflexivity|constructor]);
    try discriminate.
  eexists. split; [reflexivity|].
  apply Forall_forall. intros e Hin. apply in_map_iff in Hin as (kv & <- & _).
  exact Hname.
Qed.

Lemma collectEntries_returns (ucd : UnicodeData) (strapiData : list JsVal) :
  Forall wellTypedEntry strapiData ->
  exists entries,
    collectEntries ucd strapiData = Returns entries /\
    Forall (fun e => stringOrFalsy (Entry.entryName e)) entries.
Proof.
  induction 1 as [|entry rest Hentry Hrest IH].
  - exists []. split; [reflexivity|constructor].
  - destruct (collectEntry_returns ucd entry Hentry) as (es & Hes & Hall).
    destruct IH as (es' & Hes' & Hall').
    exists (es ++ es'). cbn [collectEntries]. rewrite Hes, Hes'.
    split; [reflexivity|]. apply Forall_app. now split.
Qed.

Lemma renderEntries_returns (ucd : UnicodeData) (entries : list Entry.t) :
  Forall (fun e => stringOrFalsy (Entry.entryName e)) entries ->
  forall currentL10nId,
    exists lines, renderEntries ucd entries currentL10nId = Returns lines.
Proof.
  induction 1 as [|e entries He Hentries IH]; intros cur; cbn [renderEntries].
  - now exists [].
  - assert (Hname : exists name,
              entryNameOrDefault (Entry.entryName e) = Returns name).
    { unfold entryNameOrDefault.
      destruct (Entry.entryName e) as [ | | b | n | [|c s] | items | fields];
        cbn [stringOrFalsy truthy str_eqb negb] in *;
        try discriminate; try rewrite He; eexists; reflexivity. }
    destruct Hname as (name & ->).
    destruct (IH (if negb (str_eqb (Entry.l10nId e) cur)
                  then Entry.l10nId e else cur)) as (lines & ->).
    destruct (negb (str_eqb (Entry.l10nId e) cur)); eexists; reflexivity.
Qed.

Lemma strapiToFtl_returns (ucd : UnicodeData)
    (localeCompare : jsstring -> jsstring -> Z) (timestamp : jsstring)
    (strapiData : list JsVal) :
  Forall wellTypedEntry strapiData ->
  exists text, strapiToFtl ucd localeCompare timestamp strapiData = Returns text.
Proof.
  intros Hwt. unfold strapiToFtl.
  destruct (collectEntries_returns ucd strapiData Hwt) as (es & -> & Hall).
  cbn [bind].
  destruct (renderEntries_returns ucd
              (uniqueByFtlId (sortWith (compareEntries localeCompare) es) []))
    with (currentL10nId := @nil Z) as (lines & ->).
  - apply Forall_forall. intros e Hin.
    apply uniqueByFtlId_In in Hin as [Hin _].
    apply (Permutation_in _ (sortWith_perm _ es)) in Hin.
    rewrite Forall_forall in Hall. now apply Hall.
  - eexists. reflexivity.
Qed.

(** ** C8: merging base and localized data *)

Example merge_headline :
  mergeCmsWithLocalization
    (JObj [ (js "headline", JObj [ (js "text", JStr (js "A")) ]) ])
    (JObj [ (js "headline", JObj [ (js "text", JStr (js "B")) ]);
            (js "l10nId", JStr (js "x")) ])
  = Returns (JObj [ (js "headline", JObj [ (js "text", JStr (js "B")) ]) ]).
Proof. reflexivity. Qed.

Lemma str_eqb_spec (a b : jsstring) : reflect (a = b) (str_eqb a b).
Proof.
  destruct (str_eqb a b) eqn:H; constructor.
  - now apply str_eqb_eq.
  - intros Heq. apply str_eqb_eq in Heq. congruence.
Qed.

Section PropertyLookup.
Context {V : Type}.
Implicit Types (o : list (jsstring * V)) (k : jsstring) (v : V).

Lemma getProp_updateProp_same o k v w :
  getProp o k = Some w -> getProp (updateProp o k v) k = Some v.
Proof.
  induction o as [|[k' v'] o IH]; simpl; [discriminate|].
  destruct (str_eqb_spec k' k) as [->|Hne]; simpl.
  - intros _. destruct (str_eqb_spec k k); congruence.
  - intros H. destruct (str_eqb_spec k' k); [contradiction|auto].
Qed.

Lemma getProp_updateProp_other o k v k' :
  k' <> k -> getProp (updateProp o k v) k' = getProp o k'.
Proof.
  intros Hne. induction o as [|[k0 v0] o IH]; simpl; [reflexivity|].
  destruct (str_eqb_spec k0 k) as [->|Hk0]; simpl.
  - destruct (str_eqb_spec k k'); congruence.
  - destruct (str_eqb_spec k0 k'); congruence.
Qed.

Lemma getProp_insertNewProp_same o k v :
  getProp o k = None -> getProp (insertNewProp o k v) k = Some v.
Proof.
  assert (Hhead : forall rest, getProp ((k, v) :: rest) k = Some v).
  { intros rest. simpl. destruct (str_eqb_spec k k); congruence. }
  induction o as [|[k' v'] o IH]; cbn [insertNewProp];
    [intros _; apply Hhead|].
  cbn [getProp]. destruct (str_eqb_spec k' k) as [->|Hne]; [discriminate|].
  intros Hnone.
  assert (Hskip : getProp ((k', v') :: insertNewProp o k v) k = Some v).
  { simpl. destruct (str_eqb_spec k' k); [contradiction|auto]. }
  destruct (arrayIndex k) as [n|]; [|exact Hskip].
  destruct (arrayIndex k') as [n'|]; [|apply Hhead].
  destruct (n <? n'); [apply Hhead|exact Hskip].
Qed.

Lemma getProp_insertNewProp_other o k v k' :
  k' <> k -> getProp (insertNewProp o k v) k' = getProp o k'.
Proof.
  intros Hne.
  assert (Hhead : forall rest, getProp ((k, v) :: rest) k' = getProp rest k').
  { intros rest. simpl. destruct (str_eqb_spec k k'); congruence. }
  induction o as [|[k0 v0] o IH]; cbn [insertNewProp]; [apply Hhead|].
  assert (Hskip : getProp ((k0, v0) :: insertNewProp o k v) k'
                  = getProp ((k0, v0) :: o) k').
  { simpl. now rewrite IH. }
  destruct (arrayIndex k) as [n|]; [|exact Hskip].
  destruct (arrayIndex k0) as [n0|]; [|apply Hhead].
  destruct (n <? n0); [apply Hhead|exact Hskip].
Qed.

Lemma getProp_setProp_same o k v : getProp (setProp o k v) k = Some v.
Proof.
  unfold setProp. destruct (getProp o k) eqn:H.
  - now apply getProp_updateProp_same with v0.
  - now apply getProp_insertNewProp_same.
Qed.

Lemma getProp_setProp_other o k v k' :
  k' <> k -> getProp (setProp o k v) k' = getProp o k'.
Proof.
  intros Hne. unfold setProp. destruct (getProp o k).
  - now apply getProp_updateProp_other.
  - now apply getProp_insertNewProp_other.
Qed.

Lemma getProp_assignProp_other o k v k' :
  k' <> k -> getProp (assignProp o k v) k' = getProp o k'.
Proof.
  intros Hne. unfold assignProp. destruct (getProp o k).
  - now apply getProp_updateProp_other.
  - destruct (str_eqb k (js "__proto__")); [reflexivity|].
    now apply getProp_insertNewProp_other.
Qed.

Lemma getProp_assignProp_same o k v :
  k <> js "__proto__" \/ getProp o k <> None ->
  getProp (assignProp o k v) k = Some v.
Proof.
  intros Hk. unfold assignProp. destruct (getProp o k) eqn:H.
  - now apply getProp_updateProp_same with v0.
  - destruct (str_eqb_spec k (js "__proto__")) as [Heq|_].
    + destruct Hk; congruence.
    + now apply getProp_insertNewProp_same.
Qed.

(** What a read finds after an assignment: the value assigned, or what
    was there. *)
Lemma getProp_assignProp_cases o k v k' w :
  getProp (assignProp o k v) k' = Some w ->
  (k' = k /\ w = v) \/ getProp o k' = Some w.
Proof.
  destruct (str_eqb_spec k' k) as [->|Hne].
  - unfold assignProp. destruct (getProp o k) eqn:H.
    + rewrite (getProp_updateProp_same _ _ _ _ H). intros [= <-]. now left.
    + destruct (str_eqb k (js "__proto__")).
      * rewrite H. discriminate.
      * rewrite getProp_insertNewProp_same by assumption.
        intros [= <-]. now left.
  - rewrite getProp_assignProp_other by assumption. now right.
Qed.
End PropertyLookup.

Lemma getProp_None {V} (o : list (jsstring * V)) (k : jsstring) :
  ~ In k (map fst o) -> getProp o k = None.
Proof.
  induction o as [|[k' v] o IH]; simpl; [reflexivity|].
  intros Hnot. destruct (str_eqb_spec k' k) as [->|_]; [tauto|].
  apply IH. tauto.
Qed.

Lemma getProp_In {V} (o : list (jsstring * V)) (k : jsstring) (v : V) :
  getProp o k = Some v -> In (k, v) o.
Proof.
  induction o as [|[k' v'] o IH]; simpl; [discriminate|].
  destruct (str_eqb_spec k' k) as [->|_].
  - intros [= ->]. now left.
  - intros H. right. now apply IH.
Qed.

(** What [target[componentName]] holds once the component has been
    ensured, from what it held before. *)
Definition ensured (held : option JsVal) (componentName : jsstring)
  : option JsVal :=
  match held with
  | Some v => if truthy v then Some v else Some (JObj [])
  | None =>
      if existsb (str_eqb componentName) objectPrototypeMembers then None
      else Some (JObj [])
  end.

(** The fields of a component after the string fields of [fields] have
    been assigned onto it, in order. *)
Definition overlayStrings (onto fields : list (jsstring * JsVal))
  : list (jsstring * JsVal) :=
  fold_left (fun acc kv =>
               match snd kv with
               | JStr s => assignProp acc (fst kv) (JStr s)
               | _ => acc
               end) fields onto.

(** A component that is an object receives the overlay; anything else
    stays. *)
Definition overlayOnto (held : option JsVal) (fields : list (jsstring * JsVal))
  : option JsVal :=
  match held with
  | Some (JObj onto) => Some (JObj (overlayStrings onto fields))
  | other => other
  end.

Lemma getProp_ensureComponent_same (m : list (jsstring * JsVal)) (c : jsstring) :
  getProp (ensureComponent m c) c = ensured (getProp m c) c.
Proof.
  unfold ensureComponent, lookupMember, ensured.
  destruct (getProp m c) as [v|] eqn:Hc.
  - destruct (truthy v); [exact Hc|apply getProp_setProp_same].
  - destruct (existsb (str_eqb c) objectPrototypeMembers);
      [exact Hc|apply getProp_setProp_same].
Qed.

Lemma getProp_ensureComponent_other (m : list (jsstring * JsVal)) (c k : jsstring) :
  k <> c -> getProp (ensureComponent m c) k = getProp m k.
Proof.
  intros Hne. unfold ensureComponent.
  destruct (lookupMember m c) as [v| |]; try reflexivity.
  - destruct (truthy v); [reflexivity|now apply getProp_setProp_other].
  - now apply getProp_setProp_other.
Qed.

Lemma assignComponentField_returns
    (m m' : list (jsstring * JsVal)) (c f s : jsstring) :
  assignComponentField m c f s = Returns m' ->
  getProp m' c = overlayOnto (getProp m c) [(f, JStr s)] /\
  forall k, k <> c -> getProp m' k = getProp m k.
Proof.
  unfold assignComponentField, lookupMember, overlayOnto.
  destruct (getProp m c) as [v|] eqn:Hc.
  - destruct v; try discriminate;
      try (destruct (str_eqb f (js "__proto__")); [|discriminate];
           intros [= <-]; now split).
    intros [= <-]. split.
    + now rewrite getProp_setProp_same.
    + intros k Hne. now apply getProp_setProp_other.
  - destruct (existsb (str_eqb c) objectPrototypeMembers); [|discriminate].
    destruct (str_eqb f (js "__proto__")).
    + intros [= <-]. now split.
    + destruct (negb (str_eqb c (js "__proto__")) && isReadOnlyOfFunction f);
        discriminate.
Qed.

Lemma mergeComponentFields_returns
    (fields : list (jsstring * JsVal)) (c : jsstring) :
  forall m m',
    mergeComponentFields m c fields = Returns m' ->
    getProp m' c = overlayOnto (getProp m c) fields /\
    forall k, k <> c -> getProp m' k = getProp m k.
Proof.
  induction fields as [|[f v] fields IH]; intros m m'; cbn [mergeComponentFields].
  - intros [= <-]. split; [|reflexivity].
    unfold overlayOnto. now destruct (getProp m c) as [[]|].
  - assert (Hskip : mergeComponentFields m c fields = Returns m' ->
              (forall s, v <> JStr s) ->
              getProp m' c = overlayOnto (getProp m c) ((f, v) :: fields) /\
              forall k, k <> c -> getProp m' k = getProp m k).
    { intros H Hv. destruct (IH _ _ H) as [Hc Hk]. split; [|exact Hk].
      rewrite Hc. unfold overlayOnto, overlayStrings.
      destruct (getProp m c) as [[]|]; try reflexivity.
      cbn [fold_left fst snd]. destruct v; try reflexivity.
      now destruct (Hv s). }
    destruct v as [ | | b | n | s | items | props];
      try (intros H; apply Hskip; [exact H|discriminate]).
    destruct (assignComponentField m c f s) as [m1| |] eqn:Hassign;
      try discriminate.
    cbn [bind]. intros H.
    destruct (assignComponentField_returns _ _ _ _ _ Hassign) as [Hc1 Hk1].
    destruct (IH _ _ H) as [Hc Hk]. split.
    + rewrite Hc, Hc1. unfold overlayOnto, overlayStrings.
      now destruct (getProp m c) as [[]|].
    + intros k Hne. rewrite Hk, Hk1 by assumption. reflexivity.
Qed.

(** What [merged[k]] holds after the body of the outer loop has run for
    the component [(k, data)], from what it held before. *)
Definition componentResult (held : option JsVal) (k : jsstring) (data : JsVal)
  : option JsVal :=
  if isReservedKey k || negb (isObjectTyped data) then held
  else overlayOnto (ensured held k) (ownEntries data).

Lemma mergeComponent_returns
    (m m' : list (jsstring * JsVal)) (c : jsstring) (data : JsVal) :
  mergeComponent m c data = Returns m' ->
  getProp m' c = componentResult (getProp m c) c data /\
  forall k, k <> c -> getProp m' k = getProp m k.
Proof.
  unfold mergeComponent, componentResult.
  destruct (isReservedKey c); cbn [orb]; [intros [= <-]; now split|].
  destruct (isObjectTyped data); cbn [negb]; [|intros [= <-]; now split].
  intros H. destruct (mergeComponentFields_returns _ _ _ _ H) as [Hc Hk].
  split.
  - now rewrite Hc, getProp_ensureComponent_same.
  - intros k Hne. rewrite Hk by assumption.
    now apply getProp_ensureComponent_other.
Qed.

Lemma mergeComponents_returns (components : list (jsstring * JsVal)) :
  NoDup (map fst components) ->
  forall m m' k,
    mergeComponents m components = Returns m' ->
    getProp m' k =
      match getProp components k with
      | Some data => componentResult (getProp m k) k data
      | None => getProp m k
      end.
Proof.
  induction components as [|[c data] components IH];
    intros Hnodup m m' k; cbn [mergeComponents].
  - now intros [= <-].
  - inversion Hnodup as [|? ? Hc Hnodup']; subst.
    destruct (mergeComponent m c data) as [m1| |] eqn:Hstep; try discriminate.
    cbn [bind]. intros H.
    destruct (mergeComponent_returns _ _ _ _ Hstep) as [Hc1 Hk1].
    rewrite (IH Hnodup' _ _ k H). cbn [getProp].
    destruct (str_eqb_spec c k) as [->|Hne].
    + rewrite (getProp_None components k) by assumption. exact Hc1.
    + rewrite Hk1 by congruence. reflexivity.
Qed.

(** What a read of a field finds after the overlay: the string the
    localized component gives it, when it gives one, and what was there
    otherwise. A string for [__proto__] is lost unless the component has
    an own property of that name. *)
Definition overlaidField (onto fields : list (jsstring * JsVal)) (f : jsstring)
  : option JsVal :=
  match getProp fields f with
  | Some (JStr s) =>
      match getProp onto f with
      | None => if str_eqb f (js "__proto__") then None else Some (JStr s)
      | Some _ => Some (JStr s)
      end
  | _ => getProp onto f
  end.

Lemma getProp_assignProp (o : list (jsstring * JsVal)) (k f : jsstring) (v : JsVal) :
  getProp (assignProp o k v) f =
    if str_eqb k f then
      match getProp o k with
      | None => if str_eqb k (js "__proto__") then None else Some v
      | Some _ => Some v
      end
    else getProp o f.
Proof.
  destruct (str_eqb_spec k f) as [<-|Hne].
  - unfold assignProp. destruct (getProp o k) eqn:Hk.
    + now apply getProp_updateProp_same with j.
    + destruct (str_eqb k (js "__proto__")); [exact Hk|].
      now apply getProp_insertNewProp_same.
  - apply getProp_assignProp_other. congruence.
Qed.

Lemma overlayStrings_lookup (fields : list (jsstring * JsVal)) :
  NoDup (map fst fields) ->
  forall onto f,
    getProp (overlayStrings onto fields) f = overlaidField onto fields f.
Proof.
  induction fields as [|[f0 v0] fields IH]; intros Hnodup onto f.
  - unfold overlaidField. reflexivity.
  - inversion Hnodup as [|? ? Hf0 Hnodup']; subst.
    unfold overlayStrings. cbn [fold_left fst snd].
    change (fold_left _ fields ?o) with (overlayStrings o fields).
    rewrite (IH Hnodup'). unfold overlaidField. cbn [getProp].
    destruct (str_eqb_spec f0 f) as [->|Hne].
    + rewrite (getProp_None fields f) by assumption.
      destruct v0; try reflexivity.
      rewrite getProp_assignProp.
      destruct (str_eqb_spec f f); [|congruence].
      destruct (getProp onto f) eqn:Hf; [reflexivity|].
      destruct (str_eqb f (js "__proto__")); reflexivity.
    + assert (Hsame : forall s,
                getProp (assignProp onto f0 (JStr s)) f = getProp onto f).
      { intros s. apply getProp_assignProp_other. congruence. }
      destruct v0; try reflexivity. now rewrite Hsame.
Qed.








Definition headlineBase : list (jsstring * JsVal) :=
  [ (js "name", JStr (js "SignIn"));
    (js "headline", JObj [ (js "text", JStr (js "A")); (js "size", JNum 3) ]) ].

Definition headlineLocalized : list (jsstring * JsVal) :=
  [ (js "headline", JObj [ (js "text", JStr (js "B")); (js "size", JNum 5) ]);
    (js "name", JStr (js "Connexion"));
    (js "l10nId", JStr (js "x")) ].

Example merge_headlineBase :
  mergeCmsWithLocalization (JObj headlineBase) (JObj headlineLocalized) =
  Returns (JObj [ (js "name", JStr (js "SignIn"));
                  (js "headline", JObj [ (js "text", JStr (js "B"));
                                         (js "size", JNum 3) ]) ]).
Proof. reflexivity. Qed.


(** ** C10: finding and updating the pull request *)

Module Reconciler.
Import GitHub.

Lemma run_andThen {S A B} (h : host S) (p : program A) (f : A -> program B) :
  forall s,
    run h (andThen p f) s =
      match run h p s with
      | (inr a, s', issued) =>
          let '(r, s'', issued') := run h (f a) s' in
          (r, s'', issued ++ issued')
      | (inl e, s', issued) => (inl e, s', issued)
      end.
Proof.
  induction p as [a|e|R c onRejected IHrej onFulfilled IHful]; intros s;
    cbn [andThen run].
  - now destruct (run h (f a) s) as [[r s'] issued].
  - reflexivity.
  - destruct (h R c s) as [[e|r] s'].
    + rewrite IHrej.
      destruct (run h (onRejected e) s') as [[[e'|a] s''] issued];
        [reflexivity|].
      now destruct (run h (f a) s'') as [[r s3] issued'].
    + rewrite IHful.
      destruct (run h (onFulfilled r) s') as [[[e'|a] s''] issued];
        [reflexivity|].
      now destruct (run h (f a) s'') as [[r' s3] issued'].
Qed.

Lemma run_tryCatch {S A} (h : host S) (p : program A)
    (handler : error -> program A) :
  forall s,
    run h (tryCatch p handler) s =
      match run h p s with
      | (inr a, s', issued) => (inr a, s', issued)
      | (inl e, s', issued) =>
          let '(r, s'', issued') := run h (handler e) s' in
          (r, s'', issued ++ issued')
      end.
Proof.
  induction p as [a|e|R c onRejected IHrej onFulfilled IHful]; intros s;
    cbn [tryCatch run].
  - reflexivity.
  - now destruct (run h (handler e) s) as [[r s'] issued].
  - destruct (h R c s) as [[e|r] s'].
    + rewrite IHrej.
      destruct (run h (onRejected e) s') as [[[e'|a] s''] issued];
        [|reflexivity].
      now destruct (run h (handler e') s'') as [[r s3] issued'].
    + rewrite IHful.
      destruct (run h (onFulfilled r) s') as [[[e'|a] s''] issued];
        [|reflexivity].
      now destruct (run h (handler e') s'') as [[r' s3] issued'].
Qed.

(** A program that issues no call of a given kind, whatever the host
    answers. *)
Inductive avoids {A} (kind : event -> bool) : program A -> Prop :=
| avoids_Return a : avoids kind (Return a)
| avoids_Throw e : avoids kind (Throw e)
| avoids_Await R (c : call R) onRejected onFulfilled :
    kind (Issued c) = false ->
    (forall e, avoids kind (onRejected e)) ->
    (forall r, avoids kind (onFulfilled r)) ->
    avoids kind (Await c onRejected onFulfilled).

Lemma avoids_await {R} (kind : event -> bool) (c : call R) :
  kind (Issued c) = false -> avoids kind (await c).
Proof. intros Hc. constructor; [exact Hc| |]; intros; constructor. Qed.

Lemma avoids_andThen {A B} (kind : event -> bool) (p : program A)
    (f : A -> program B) :
  avoids kind p -> (forall a, avoids kind (f a)) -> avoids kind (andThen p f).
Proof.
  intros Hp Hf. induction Hp; cbn [andThen]; [apply Hf|constructor|].
  constructor; auto.
Qed.

Lemma avoids_tryCatch {A} (kind : event -> bool) (p : program A)
    (handler : error -> program A) :
  avoids kind p -> (forall e, avoids kind (handler e)) ->
  avoids kind (tryCatch p handler).
Proof.
  intros Hp Hh. induction Hp; cbn [tryCatch]; [constructor|apply Hh|].
  constructor; auto.
Qed.

Lemma avoids_run {S A} (kind : event -> bool) (h : host S) (p : program A) :
  avoids kind p ->
  forall s, forallb (fun e => negb (kind e)) (snd (run h p s)) = true.
Proof.
  induction 1 as [a|e|R c onRejected onFulfilled Hc _ IHrej _ IHful];
    intros s; cbn [run]; try reflexivity.
  destruct (h R c s) as [[e|r] s'].
  - specialize (IHrej e s').
    destruct (run h (onRejected e) s') as [[res s''] issued].
    cbn [snd forallb] in *. now rewrite Hc, IHrej.
  - specialize (IHful r s').
    destruct (run h (onFulfilled r) s') as [[res s''] issued].
    cbn [snd forallb] in *. now rewrite Hc, IHful.
Qed.

Ltac avoids_tac :=
  repeat first
    [ apply avoids_tryCatch
    | apply avoids_andThen
    | apply avoids_await; reflexivity
    | apply avoids_Return
    | apply avoids_Throw
    | intro
    | match goal with
      | |- avoids _ (match ?x with _ => _ end) => destruct x
      end ].

Lemma updateExistingPR_opens_nothing (kind : event -> bool)
    (config : Config) (prNumber : Z) (ftlContent : jsstring)
    (webhookDetails : option WebhookDetails) :
  kind = isPullsCreate \/ kind = isGitCreateRef ->
  avoids kind (updateExistingPR config prNumber ftlContent webhookDetails).
Proof.
  intros [-> | ->]; unfold updateExistingPR, currentFileSha; avoids_tac.
Qed.

(** A run, after the calls [before] have been issued. *)
Definition prefixIssued {S A} (before : list event)
    (r : (error + A) * S * list event) : (error + A) * S * list event :=
  (fst (fst r), snd (fst r), before ++ snd r).

Lemma run_await {S R} (h : host S) (c : call R) (s : S) :
  run h (await c) s =
    (fst (h R c s), snd (h R c s), [Issued c]).
Proof. cbn [await run]. now destruct (h R c s) as [[e|r] s']. Qed.

Section ListedPage.
Context {S : Type} (h : host S).
Variables (numberToString : Z -> jsstring) (config : Config)
          (ftlContent entrypoint : jsstring)
          (webhookDetails : option WebhookDetails).

(** The logger does not throw. *)
Hypothesis log_returns :
  forall level event st, fst (h unit (Log level event) st) = inr tt.

Let listCall := PullsList (owner config) (repo config) (js "open") 100.
Let foundLog := Log (js "info") (js "cms.integrations.github.pr.found").
Let notFoundLog := Log (js "info") (js "cms.integrations.github.pr.notFound").

Lemma findExistingPR_found (s s1 : S) (listed : list PullRequest)
    (pr : PullRequest) :
  h _ listCall s = (inr listed, s1) ->
  find isLocalizationPR listed = Some pr ->
  run h (findExistingPR (owner config) (repo config)) s =
    (inr (Some pr), snd (h _ foundLog s1), [Issued listCall; Issued foundLog]).
Proof.
  intros Hlist Hfind. unfold findExistingPR.
  rewrite run_tryCatch, run_andThen, run_await. fold listCall.
  rewrite Hlist. cbn [fst snd]. rewrite Hfind.
  rewrite run_andThen, run_await. fold foundLog.
  assert (Hlog : fst (h unit foundLog s1) = inr tt) by apply log_returns.
  rewrite Hlog. reflexivity.
Qed.

Lemma findExistingPR_notFound (s s1 : S) (listed : list PullRequest) :
  h _ listCall s = (inr listed, s1) ->
  find isLocalizationPR listed = None ->
  run h (findExistingPR (owner config) (repo config)) s =
    (inr None, snd (h _ notFoundLog s1), [Issued listCall; Issued notFoundLog]).
Proof.
  intros Hlist Hfind. unfold findExistingPR.
  rewrite run_tryCatch, run_andThen, run_await. fold listCall.
  rewrite Hlist. cbn [fst snd]. rewrite Hfind.
  rewrite run_andThen, run_await. fold notFoundLog.
  assert (Hlog : fst (h unit notFoundLog s1) = inr tt) by apply log_returns.
  rewrite Hlog. reflexivity.
Qed.

Lemma currentFileSha_returns (ref notFoundEvent : jsstring) (s : S) :
  exists fileSha, fst (fst (run h (currentFileSha config ref notFoundEvent) s))
                  = inr fileSha.
Proof.
  unfold currentFileSha.
  rewrite run_tryCatch, run_andThen, run_await.
  destruct (h _ (ReposGetContent (owner config) (repo config) filePath ref) s)
    as [[e|[sha|]] s']; cbn [fst snd run].
  - rewrite run_andThen, run_await, log_returns. cbn. eexists. reflexivity.
  - eexists. reflexivity.
  - eexists. reflexivity.
Qed.

(** The state of the host once the outcome of the search has been
    logged. *)
Let foundState (s1 : S) : S := snd (h _ foundLog s1).
Let notFoundState (s1 : S) : S := snd (h _ notFoundLog s1).

(** The run of the whole reconciliation. *)
Let reconciled (s : S) : (error + unit) * S * list event :=
  run h (reconcile numberToString config ftlContent entrypoint webhookDetails) s.

(** C10, as amended. With a logger that does not throw, the
    reconciliation is decided by the one page of open pull requests that
    the list call returns. When the page holds a pull request whose
    title contains [cms.ftl] or [CMS localization], [findExistingPR]
    returns the first such, and the reconciliation then runs
    [updateExistingPR] on its number: no branch and no pull request is
    created, and once the pull request has been fetched the commit of
    the file to its head branch is issued. When the page holds none,
    [findExistingPR] returns null and the reconciliation runs
    [createGitHubPR], whether or not a matching pull request is open
    beyond that page. *)
Theorem reconcile_by_listed_page (s s1 : S) (listed : list PullRequest) :
  h _ listCall s = (inr listed, s1) ->
  match find isLocalizationPR listed with
  | Some pr =>
      run h (findExistingPR (owner config) (repo config)) s =
        (inr (Some pr), foundState s1, [Issued listCall; Issued foundLog]) /\
      reconciled s =
        prefixIssued [Issued listCall; Issued foundLog]
          (run h (updateExistingPR config (number pr) ftlContent webhookDetails)
             (foundState s1)) /\
      forallb (fun e => negb (isPullsCreate e)) (snd (reconciled s)) = true /\
      forallb (fun e => negb (isGitCreateRef e)) (snd (reconciled s)) = true /\
      (forall pr' s3,
         h _ (PullsGet (owner config) (repo config) (number pr)) (foundState s1)
           = (inr pr', s3) ->
         exists message sha,
           In (Issued (ReposCreateOrUpdateFileContents (owner config)
                         (repo config) filePath message
                         (utf8Encode ftlContent) sha (head_ref pr')))
              (snd (reconciled s)))
  | None =>
      run h (findExistingPR (owner config) (repo config)) s =
        (inr None, notFoundState s1, [Issued listCall; Issued notFoundLog]) /\
      reconciled s =
        prefixIssued [Issued listCall; Issued notFoundLog]
          (run h (createGitHubPR numberToString config ftlContent entrypoint
                    webhookDetails)
             (notFoundState s1))
  end.
Proof.
  intros Hlist.
  destruct (find isLocalizationPR listed) as [pr|] eqn:Hfind.
  2:{ pose proof (findExistingPR_notFound s s1 listed Hlist Hfind) as Hnone.
      fold (notFoundState s1) in Hnone. split; [exact Hnone|].
      unfold reconciled, reconcile. rewrite run_andThen, Hnone.
      unfold prefixIssued.
      now destruct (run h (createGitHubPR numberToString config ftlContent
                             entrypoint webhookDetails) (notFoundState s1))
        as [[result s3] issued]. }
  set (s2 := foundState s1).
  pose proof (findExistingPR_found s s1 listed pr Hlist Hfind) as Hfound.
  fold (foundState s1) in Hfound. fold s2 in Hfound.
  assert (Hrec : reconciled s =
            prefixIssued [Issued listCall; Issued foundLog]
              (run h (updateExistingPR config (number pr) ftlContent webhookDetails) s2)).
  { unfold reconciled, reconcile. rewrite run_andThen, Hfound. unfold prefixIssued.
    now destruct (run h (updateExistingPR config (number pr) ftlContent webhookDetails) s2)
      as [[result s3] issued]. }
  split; [exact Hfound|]. split; [exact Hrec|].
  assert (Hkind : forall kind, kind = isPullsCreate \/ kind = isGitCreateRef ->
            forallb (fun e => negb (kind e)) (snd (reconciled s)) = true).
  { intros kind Hk. rewrite Hrec. unfold prefixIssued.
    pose proof (avoids_run kind h _
                  (updateExistingPR_opens_nothing kind config (number pr)
                     ftlContent webhookDetails Hk) s2) as Hupd.
    destruct (run h (updateExistingPR config (number pr) ftlContent webhookDetails) s2)
      as [[result s3] issued].
    cbn [snd] in *. rewrite forallb_app, Hupd.
    destruct Hk as [-> | ->]; reflexivity. }
  split; [apply Hkind; now left|]. split; [apply Hkind; now right|].
  intros pr' s3 Hget. rewrite Hrec. unfold prefixIssued, updateExistingPR.
  rewrite run_tryCatch, run_andThen, run_await, Hget. cbn [fst snd].
  rewrite run_andThen.
  destruct (currentFileSha_returns (head_ref pr')
              (js "cms.integrations.github.pr.fileNotFound") s3) as (fileSha & Hsha).
  destruct (run h (currentFileSha config (head_ref pr')
                     (js "cms.integrations.github.pr.fileNotFound")) s3)
    as [[shaResult s4] issuedSha].
  cbn [fst] in Hsha. subst shaResult.
  rewrite run_andThen, run_await.
  set (commit := ReposCreateOrUpdateFileContents _ _ _ _ _ _ _).
  exists (match fileSha with Some (_ :: _) => updateMessage | _ => addMessage end),
         fileSha.
  fold commit.
  assert (Hin : forall (X : Type) (r : X) (st : S) rest tail,
            In (Issued commit)
               (snd (r, st, [Issued listCall; Issued foundLog] ++
                            ([Issued (PullsGet (owner config) (repo config) (number pr))]
                             ++ issuedSha ++ [Issued commit] ++ rest) ++ tail))).
  { intros. cbn [snd]. rewrite !in_app_iff. cbn [In]. tauto. }
  destruct (h unit commit s4) as [[e|[]] s5]; cbn [fst snd].
  - destruct (run h (_ <~ await (Log (js "error")
                                   (js "cms.integrations.github.pr.update.error")) ;;
                     Throw e) s5) as [[r6 s6] issued6].
    specialize (Hin _ r6 s6 [] issued6).
    cbn [app] in *. rewrite <- !app_assoc in *. exact Hin.
  - rewrite run_andThen, run_await, log_returns. cbn [fst snd run].
    specialize (Hin _ (@inr error unit tt)
                  (snd (h unit (Log (js "info") (js "cms.integrations.github.pr.updated")) s5))
                  [Issued (Log (js "info") (js "cms.integrations.github.pr.updated"))] []).
    cbn [app] in *. rewrite <- ?app_assoc, ?app_nil_r in *. exact Hin.
Qed.
End ListedPage.

End Reconciler.

Module ReconcilerExamples.
Import GitHub.

Definition exampleConfig : Config :=
  {| owner := js "mozilla"; repo := js "fxa-cms-l10n"; branch := js "main" |}.

Definition localizationPR : PullRequest :=
  {| number := 1; title := prTitle; state := js "open";
     head_ref := js "cms-localization-1700000000000" |}.

Definition otherPR (i : nat) : PullRequest :=
  {| number := 2 + Z.of_nat i; title := js "Update dependencies";
     state := js "open"; head_ref := js "deps-" ++ decimal (Z.of_nat i) |}.

(** A repository whose localization pull request is open and listed
    first. *)
Definition quiet : Repository :=
  {| pulls := [localizationPR; otherPR 0];
     branches := [ (js "main", js "c0");
                   (js "cms-localization-1700000000000", js "c1") ];
     files := [];
     clock := 1700000360000 |}.

(** The same repository after a hundred other pull requests have been
    opened: the list endpoint returns the newest first, and the
    localization pull request is the hundred and first. *)
Definition crowded : Repository :=
  {| pulls := rev (map otherPR (seq 0 100)) ++ [localizationPR];
     branches := [ (js "main", js "c0");
                   (js "cms-localization-1700000000000", js "c1") ];
     files := [];
     clock := 1700000360000 |}.

Example reconcile_quiet :
  let '(result, after, issued) :=
    run gitHub (reconcile integerToString exampleConfig signinFtl (js "signin")
                  None) quiet in
  result = inr tt /\
  pulls after = pulls quiet /\
  fileAt after (js "cms-localization-1700000000000") filePath
    = Some (utf8Encode signinFtl) /\
  length issued = 7%nat.
Proof. vm_compute. repeat split; reflexivity. Qed.

Lemma reconcile_by_listed_page_witness :
  forallb (fun e => negb (isPullsCreate e))
    (snd (run gitHub (reconcile integerToString exampleConfig signinFtl
                        (js "signin") None)
            quiet)) = true.
Proof.
  refine (proj1 (proj2 (proj2
            (Reconciler.reconcile_by_listed_page gitHub integerToString
               exampleConfig signinFtl (js "signin") None _
               quiet quiet [localizationPR; otherPR 0] _)))).
  - intros level event st. reflexivity.
  - reflexivity.
Defined.

(** C10, counterexample. In the crowded repository an open pull request
    with a matching title exists, and yet the reconciliation does not find
    it: it creates a branch and opens a second pull request. *)
Lemma reconcile_opens_second_pr :
  existsb isLocalizationPR (pulls crowded) = true /\
  length (pulls crowded) = 101%nat /\
  let '(result, after, issued) :=
    run gitHub (reconcile integerToString exampleConfig signinFtl (js "signin")
                  None) crowded in
  result = inr tt /\
  existsb isPullsCreate issued = true /\
  existsb isGitCreateRef issued = true /\
  length (pulls after) = 102%nat /\
  length (filter isLocalizationPR (pulls after)) = 2%nat.
Proof. vm_compute. repeat split; reflexivity. Qed.

End ReconcilerExamples.

(* ================================================================== *)
(** * Part III. Further properties of the code *)
(* ================================================================== *)

(** ** The sanitizer's result *)

Lemma trim_ends (s : jsstring) :
  (forall c rest, trim s = c :: rest -> isWhiteSpace c = false) /\
  (forall front c, trim s = front ++ [c] -> isWhiteSpace c = false).
Proof.
  unfold trim. split.
  - intros c rest. destruct (trimStart_shape s) as [->|(c0 & s' & -> & Hc0)].
    + discriminate.
    + rewrite trimEnd_cons by assumption. now intros [= <- _].
  - intros front c Hlast. unfold trimEnd in Hlast.
    apply (f_equal (@rev Z)) in Hlast.
    rewrite rev_involutive, rev_app_distr in Hlast. cbn [rev app] in Hlast.
    destruct (trimStart_shape (rev (trimStart s))) as [Hnil|(c0 & s' & Heq & Hc0)].
    + rewrite Hnil in Hlast. discriminate.
    + rewrite Heq in Hlast. now injection Hlast as -> _.
Qed.

(** X1. Whatever the input, the sanitized string holds none of the code
    units the four replacements remove, and neither begins nor ends with
    white space. *)
Theorem sanitizeContent_result (ucd : UnicodeData) (s : jsstring) :
  Forall (fun c => isCombiningMark c = false /\ isControl c = false /\
                   isZeroWidth c = false /\ isDirectionalIsolate c = false)
         (sanitizeContent ucd s) /\
  (forall c rest, sanitizeContent ucd s = c :: rest -> isWhiteSpace c = false) /\
  (forall front c, sanitizeContent ucd s = front ++ [c] -> isWhiteSpace c = false).
Proof.
  split.
  - eapply Forall_impl; [|apply sanitizeContent_clean].
    intros c Hc. unfold isStripped in Hc.
    rewrite !orb_false_iff in Hc. tauto.
  - unfold sanitizeContent. destruct s as [|c0 s0].
    + split; intros; [discriminate|now destruct front].
    + apply trim_ends.
Qed.

(** ** Identifiers: generating, then parsing *)

Lemma lowerHex_not_dash (c : Z) : isLowerHex c = true -> c <> DASH.
Proof. unfold isLowerHex, inRange, DASH. code_unit_lia. Qed.

Lemma valueHash_no_dash (value : jsstring) : ~ In DASH (valueHash value).
Proof.
  intros Hin. rewrite valueHash_bytes in Hin.
  assert (Hhex : Forall (fun c => isLowerHex c = true)
                   (hexEncode (firstn 4 (MD5.digest (utf8Encode value))))).
  { apply hexEncode_lowerHex. apply Forall_forall. intros b Hb.
    apply firstn_In in Hb. destruct (digest_bytes (utf8Encode value)) as [Hbytes _].
    rewrite Forall_forall in Hbytes. auto. }
  rewrite Forall_forall in Hhex. now apply (lowerHex_not_dash _ (Hhex _ Hin)).
Qed.

Lemma map_join_dots (segs : list jsstring) :
  Forall (fun seg => ~ In DOT seg) segs ->
  map (fun c => if c =? DOT then DASH else c) (join [DOT] segs) = join [DASH] segs.
Proof.
  induction 1 as [|seg segs Hseg Hsegs IH]; [reflexivity|].
  assert (Hid : map (fun c => if c =? DOT then DASH else c) seg = seg).
  { clear -Hseg. induction seg as [|c seg IHs]; [reflexivity|].
    cbn [map]. destruct (Z.eqb_spec c DOT) as [->|_].
    - exfalso. apply Hseg. now left.
    - f_equal. apply IHs. intros Hin. apply Hseg. now right. }
  destruct segs as [|seg' segs]; [exact Hid|].
  rewrite !join_cons2, !map_app, Hid. unfold jsstring in *. now rewrite IH.
Qed.

Lemma join_snoc (sep : jsstring) (segs : list jsstring) (last : jsstring) :
  segs <> [] -> join sep (segs ++ [last]) = join sep segs ++ sep ++ last.
Proof.
  induction segs as [|seg segs IH]; [congruence|]. intros _.
  destruct segs as [|seg' segs]; [reflexivity|].
  change ((seg :: seg' :: segs) ++ [last]) with (seg :: (seg' :: segs) ++ [last]).
  change ((seg' :: segs) ++ [last]) with (seg' :: segs ++ [last]) at 1.
  rewrite join_cons2.
  change (seg' :: segs ++ [last]) with ((seg' :: segs) ++ [last]).
  rewrite IH by discriminate. rewrite join_cons2, <- !app_assoc. reflexivity.
Qed.

Lemma removelast_snoc {A} (l : list A) (x : A) : removelast (l ++ [x]) = l.
Proof.
  induction l as [|y l IH]; [reflexivity|].
  cbn [app]. destruct l as [|z l]; [reflexivity|].
  change ((z :: l) ++ [x]) with (z :: (l ++ [x])) in *.
  cbn [removelast] in *. now rewrite IH.
Qed.

(** The identifier, as dash-separated segments. *)
Lemma generateFtlIdWithL10nId_segments (l10nId value : jsstring)
    (segs : list jsstring) :
  segs <> [] ->
  Forall (fun seg => ~ In DOT seg) segs ->
  generateFtlIdWithL10nId l10nId (join [DOT] segs) value =
    join [DASH] (l10nId :: segs ++ [valueHash value]).
Proof.
  intros Hne Hdots. unfold generateFtlIdWithL10nId. cbv zeta.
  change (js "-") with [DASH]. rewrite replaceAllChar_map, map_join_dots by assumption.
  destruct segs as [|seg segs]; [congruence|].
  change (l10nId :: (seg :: segs) ++ [valueHash value])
    with (l10nId :: seg :: segs ++ [valueHash value]).
  rewrite join_cons2.
  change (seg :: segs ++ [valueHash value]) with ((seg :: segs) ++ [valueHash value]).
  now rewrite join_snoc by discriminate.
Qed.

(** X2. When neither the l10nId nor a segment of the field path holds a
    dash, and no segment holds a dot, parsing the generated identifier
    gives the field path back if it has two segments or more, and null if
    it has one. *)
Theorem parse_generated_identifier (l10nId value : jsstring)
    (segs : list jsstring) :
  segs <> [] ->
  ~ In DASH l10nId ->
  Forall (fun seg => ~ In DASH seg /\ ~ In DOT seg) segs ->
  parseFtlIdToFieldPath
    (generateFtlIdWithL10nId l10nId (join (js ".") segs) value) =
  if (2 <=? length segs)%nat then Some (join (js ".") segs) else None.
Proof.
  intros Hne Hl10n Hsegs. change (js ".") with [DOT].
  rewrite generateFtlIdWithL10nId_segments;
    [|assumption|eapply Forall_impl; [|exact Hsegs]; intros seg Hs; apply Hs].
  unfold parseFtlIdToFieldPath. rewrite split_join.
  - cbn [length]. rewrite length_app. cbn [length].
    destruct (Nat.leb_spec 2 (length segs)) as [Hlen|Hlen].
    + replace (4 <=? Z.of_nat (S (length segs + 1))) with true
        by (symmetry; apply Z.leb_le; lia).
      rewrite slice_middle by (cbn [length]; rewrite length_app; cbn [length]; lia).
      cbn [tl]. now rewrite removelast_snoc.
    + replace (4 <=? Z.of_nat (S (length segs + 1))) with false
        by (symmetry; apply Z.leb_gt; lia).
      reflexivity.
  - discriminate.
  - constructor; [exact Hl10n|]. apply Forall_app. split.
    + eapply Forall_impl; [|exact Hsegs]. intros seg Hs. apply Hs.
    + constructor; [apply valueHash_no_dash|constructor].
Qed.

Lemma parse_generated_identifier_witness :
  parseFtlIdToFieldPath
    (generateFtlIdWithL10nId (js "signin")
       (join (js ".") [js "page"; js "logo"; js "alt"]) (js "Logo")) =
  Some (js "page.logo.alt").
Proof.
  apply (parse_generated_identifier (js "signin") (js "Logo")
           [js "page"; js "logo"; js "alt"]).
  - discriminate.
  - vm_compute. intuition discriminate.
  - repeat constructor; vm_compute; intuition discriminate.
Defined.

(** ** Where extracted strings come from *)

Section PropertyEntries.
Context {V : Type} (P : jsstring * V -> Prop).

Lemma updateProp_entries o k v :
  P (k, v) -> Forall P o -> Forall P (updateProp o k v).
Proof.
  intros Hv. induction 1 as [|[k' v'] o' Hkv Ho IH]; simpl; [constructor|].
  destruct (str_eqb_spec k' k) as [->|_]; constructor; auto.
Qed.

Lemma insertNewProp_entries o k v :
  P (k, v) -> Forall P o -> Forall P (insertNewProp o k v).
Proof.
  intros Hv. induction 1 as [|[k' v'] o' Hkv Ho IH]; simpl.
  - constructor; [exact Hv|constructor].
  - destruct (arrayIndex k) as [n|].
    + destruct (arrayIndex k') as [n'|].
      * destruct (n <? n'); repeat (constructor; auto).
      * repeat (constructor; auto).
    + constructor; auto.
Qed.

Lemma assignProp_entries o k v :
  P (k, v) -> Forall P o -> Forall P (assignProp o k v).
Proof.
  intros Hv Ho. unfold assignProp. destruct (getProp o k).
  - now apply updateProp_entries.
  - destruct (str_eqb k (js "__proto__")); [exact Ho|].
    now apply insertNewProp_entries.
Qed.

Lemma objectAssign_entries target source :
  Forall P target -> Forall P source -> Forall P (objectAssign target source).
Proof.
  intros Ht Hs. revert target Ht. unfold objectAssign.
  induction Hs as [|[k v] source Hkv Hs IH]; intros target Ht; simpl.
  - exact Ht.
  - apply IH. now apply assignProp_entries.
Qed.
End PropertyEntries.

(** A string found in an object: under [key], at the path the extractor
    gives it from [prefix], directly or inside nested objects. *)
Inductive leafOf : list (jsstring * JsVal) -> jsstring -> jsstring ->
                   jsstring -> jsstring -> Prop :=
| leaf_here props prefix key s :
    In (key, JStr s) props ->
    leafOf props prefix (fieldKeyOf prefix key) key s
| leaf_nested props prefix key inner path k s :
    In (key, JObj inner) props ->
    leafOf inner (fieldKeyOf prefix key) path k s ->
    leafOf props prefix path k s.

Lemma extractStringsFromObject_entries
    (P : JsVal -> jsstring -> jsstring * jsstring -> Prop) :
  (forall props prefix key s,
     In (key, JStr s) props -> shouldIncludeField key (JStr s) = true ->
     P (JObj props) prefix (fieldKeyOf prefix key, s)) ->
  (forall props prefix key inner entry,
     In (key, JObj inner) props ->
     P (JObj inner) (fieldKeyOf prefix key) entry ->
     P (JObj props) prefix entry) ->
  forall obj prefix, Forall (P obj prefix) (extractStringsFromObject obj prefix).
Proof.
  intros Hhere Hnested.
  induction obj as [ | | b | n | s | items _ | props IH]
    using JsVal_ind_nested; intros prefix; try (simpl; constructor).
  cbn [extractStringsFromObject].
  assert (Hgen : forall entries strings,
            (forall kv, In kv entries -> In kv props) ->
            Forall (fun kv => forall prefix',
                      Forall (P (snd kv) prefix')
                        (extractStringsFromObject (snd kv) prefix')) entries ->
            Forall (P (JObj props) prefix) strings ->
            Forall (P (JObj props) prefix)
              ((fix loop (entries : list (jsstring * JsVal))
                         (strings : list (jsstring * jsstring)) :=
                  match entries with
                  | [] => strings
                  | (key, value) :: rest =>
                      loop rest
                        match value with
                        | JNull | JUndefined => strings
                        | JObj _ =>
                            objectAssign strings
                              (extractStringsFromObject value (fieldKeyOf prefix key))
                        | JStr s =>
                            if shouldIncludeField key value
                            then assignProp strings (fieldKeyOf prefix key) s
                            else strings
                        | _ => strings
                        end
                  end) entries strings)).
  { induction entries as [|[key value] rest IHrest];
      intros strings Hsub Hsubs Hstrings; [exact Hstrings|].
    inversion Hsubs as [|? ? Hvalue Hrest']; subst. cbn [snd] in Hvalue.
    apply IHrest; [intros kv Hkv; apply Hsub; now right|exact Hrest'|].
    destruct value; try exact Hstrings.
    - destruct (shouldIncludeField key (JStr s)) eqn:Hinc; [|exact Hstrings].
      apply assignProp_entries; [|exact Hstrings].
      apply Hhere; [apply Hsub; now left|exact Hinc].
    - apply objectAssign_entries; [exact Hstrings|].
      eapply Forall_impl; [|apply Hvalue].
      intros entry Hentry. eapply Hnested; [apply Hsub; now left|exact Hentry]. }
  apply Hgen; [auto|exact IH|constructor].
Qed.

(** X3. Every pair in the extracted record comes from the object: its
    value is a string found there, directly or inside nested objects
    (never inside an array), under a key that passes the filter, so under
    none of the metadata keys; and its path is the one the extractor gives
    that string. *)
Theorem extracted_entries_are_leaves
    (props : list (jsstring * JsVal)) (prefix path value : jsstring) :
  In (path, value) (extractStringsFromObject (JObj props) prefix) ->
  exists key,
    leafOf props prefix path key value /\
    shouldIncludeField key (JStr value) = true /\
    ~ In key metadataFields.
Proof.
  intros Hin.
  pose proof (extractStringsFromObject_entries
    (fun obj prefix entry =>
       forall props, obj = JObj props ->
       exists key, leafOf props prefix (fst entry) key (snd entry) /\
                   shouldIncludeField key (JStr (snd entry)) = true)) as Hall.
  assert (Hleaf : exists key, leafOf props prefix path key value /\
                              shouldIncludeField key (JStr value) = true).
  { refine (proj1 (Forall_forall _ _)
              (Hall _ _ (JObj props) prefix) (path, value) Hin props eq_refl).
    - intros props0 prefix0 key s Hkey Hinc props1 [= <-].
      exists key. split; [now constructor|exact Hinc].
    - intros props0 prefix0 key inner entry Hkey Hinner props1 [= <-].
      destruct (Hinner inner eq_refl) as (k & Hk & Hinc).
      exists k. split; [|exact Hinc]. eapply leaf_nested; eassumption. }
  destruct Hleaf as (key & Hleaf & Hinc). exists key.
  split; [exact Hleaf|]. split; [exact Hinc|].
  intros Hmeta. unfold shouldIncludeField in Hinc.
  apply existsb_str_eqb in Hmeta. now rewrite Hmeta in Hinc.
Qed.

Lemma extracted_entries_are_leaves_witness :
  exists key,
    leafOf [ (js "headline", JObj [ (js "text", JStr (js "Welcome back"));
                                    (js "color", JStr (js "#ff0000")) ]);
             (js "id", JNum 7) ]
           [] (js "headline.text") key (js "Welcome back") /\
    shouldIncludeField key (JStr (js "Welcome back")) = true /\
    ~ In key metadataFields.
Proof.
  apply extracted_entries_are_leaves. vm_compute. now left.
Defined.

Lemma startsWith_app (s a b : jsstring) :
  startsWith s (a ++ b) = true -> startsWith s a = true.
Proof.
  revert s. induction a as [|x a IH]; intros s; [reflexivity|].
  cbn [app startsWith]. destruct s as [|y s]; [discriminate|].
  rewrite !andb_true_iff. intros [Hxy H]. split; [exact Hxy|now apply IH].
Qed.

Lemma startsWith_prefix (a b : jsstring) : startsWith (a ++ b) a = true.
Proof.
  induction a as [|x a IH]; [reflexivity|].
  cbn [app startsWith]. now rewrite Z.eqb_refl, IH.
Qed.

(** X4. Under a non-empty prefix every extracted path begins with the
    prefix and a dot: the strings of a component are filed under the
    component's name. *)
Theorem extracted_paths_carry_prefix
    (obj : JsVal) (prefix path value : jsstring) :
  prefix <> [] ->
  In (path, value) (extractStringsFromObject obj prefix) ->
  startsWith path (prefix ++ js ".") = true.
Proof.
  intros Hne Hin.
  pose proof (extractStringsFromObject_entries
    (fun _ prefix entry =>
       prefix <> [] -> startsWith (fst entry) (prefix ++ js ".") = true)) as Hall.
  refine (proj1 (Forall_forall _ _) (Hall _ _ obj prefix) (path, value) Hin Hne).
  - intros props0 prefix0 key s _ _ Hp. cbn [fst].
    unfold fieldKeyOf. destruct prefix0 as [|c p]; [congruence|].
    rewrite app_assoc. apply startsWith_prefix.
  - intros props0 prefix0 key inner entry _ Hinner Hp.
    assert (Hkey : fieldKeyOf prefix0 key = prefix0 ++ js "." ++ key).
    { unfold fieldKeyOf. destruct prefix0; [congruence|reflexivity]. }
    rewrite Hkey in Hinner.
    apply startsWith_app with (b := key ++ js ".").
    rewrite <- !app_assoc in *. apply Hinner.
    destruct prefix0; [congruence|discriminate].
Qed.

Lemma extracted_paths_carry_prefix_witness :
  startsWith (js "page.logo.alt") (js "page" ++ js ".") = true.
Proof.
  apply (extracted_paths_carry_prefix
           (JObj [ (js "logo", JObj [ (js "alt", JStr (js "Logo")) ]) ])
           (js "page") (js "page.logo.alt") (js "Logo")).
  - discriminate.
  - vm_compute. now left.
Defined.

(** ** What the serializer collects *)

Lemma collectEntry_skipped (ucd : UnicodeData) (entry : JsVal) :
  match entry with
  | JObj props => truthy (getField props (js "l10nId")) = false
  | _ => True
  end ->
  collectEntry ucd entry = Returns [].
Proof.
  intros Hentry.
  destruct entry as [ | | b | n | s | items | props]; try reflexivity.
  unfold collectEntry.
  destruct (getField props (js "l10nId")) as [ | | b | n | [|c s] | items | fields];
    cbn [truthy str_eqb negb] in *; try discriminate; try reflexivity;
    now rewrite Hentry.
Qed.

(** X5. An input in which no element carries an l10nId, the empty input
    included, is serialized to the two header comments and the blank line
    after them, and nothing else. *)
Theorem strapiToFtl_without_l10nId
    (ucd : UnicodeData) (localeCompare : jsstring -> jsstring -> Z)
    (timestamp : jsstring) (strapiData : list JsVal) :
  Forall (fun entry =>
            match entry with
            | JObj props => truthy (getField props (js "l10nId")) = false
            | _ => True
            end) strapiData ->
  strapiToFtl ucd localeCompare timestamp strapiData =
    Returns (js "# Generated on " ++ timestamp ++ [LF] ++
             js "# FTL file for CMS localization" ++ [LF]).
Proof.
  intros Hall.
  assert (Hnone : collectEntries ucd strapiData = Returns []).
  { induction Hall as [|entry rest Hentry _ IH]; [reflexivity|].
    cbn [collectEntries]. rewrite (collectEntry_skipped ucd entry Hentry), IH.
    reflexivity. }
  unfold strapiToFtl. rewrite Hnone.
  cbn [bind sortWith fold_right uniqueByFtlId renderEntries app join].
  now rewrite <- app_assoc.
Qed.

Lemma strapiToFtl_without_l10nId_witness :
  strapiToFtl unicodeExcerpt codeUnitCompare (js "2024-01-01T00:00:00.000Z")
    [anonymousEntry; JNull; JStr (js "text"); JArr []] =
  Returns (js "# Generated on " ++ js "2024-01-01T00:00:00.000Z" ++ [LF] ++
           js "# FTL file for CMS localization" ++ [LF]).
Proof.
  apply strapiToFtl_without_l10nId. repeat constructor.
Defined.

Lemma collectEntries_In (ucd : UnicodeData) (strapiData : list JsVal) :
  forall allEntries e,
    collectEntries ucd strapiData = Returns allEntries ->
    In e allEntries ->
    exists entry fromEntry,
      In entry strapiData /\
      collectEntry ucd entry = Returns fromEntry /\
      In e fromEntry.
Proof.
  induction strapiData as [|entry rest IH]; intros allEntries e;
    cbn [collectEntries].
  - intros [= <-] [].
  - destruct (collectEntry ucd entry) as [fromEntry| |] eqn:Hentry;
      try discriminate.
    destruct (collectEntries ucd rest) as [fromRest| |]; try discriminate.
    cbn [bind]. intros [= <-] Hin. apply in_app_or in Hin as [Hin|Hin].
    + exists entry, fromEntry. split; [now left|]. split; [exact Hentry|exact Hin].
    + destruct (IH _ _ eq_refl Hin) as (entry' & from' & Hin' & Hc & He).
      exists entry', from'. split; [now right|]. split; [exact Hc|exact He].
Qed.

(** X6. Every collected entry comes from an element of the input that is
    an object with a non-empty string l10nId: it carries that l10nId and
    the element's name; its field path and raw string are a pair of the
    record extracted from the element without its three entry-level keys;
    its value is that string sanitized; and its identifier is the one
    generated from its own l10nId, field path and value. *)
Theorem collected_entries_trace_back
    (ucd : UnicodeData) (strapiData : list JsVal)
    (allEntries : list Entry.t) (e : Entry.t) :
  collectEntries ucd strapiData = Returns allEntries ->
  In e allEntries ->
  exists props raw,
    In (JObj props) strapiData /\
    getField props (js "l10nId") = JStr (Entry.l10nId e) /\
    Entry.l10nId e <> [] /\
    Entry.entryName e = getField props (js "name") /\
    In (Entry.fieldPath e, raw)
       (extractStringsFromObject
          (JObj (filter (fun kv => negb (isEntryLevelKey (fst kv))) props)) []) /\
    Entry.value e = sanitizeContent ucd raw /\
    Entry.ftlId e =
      generateFtlIdWithL10nId (Entry.l10nId e) (Entry.fieldPath e) (Entry.value e).
Proof.
  intros Hall Hin.
  destruct (collectEntries_In _ _ _ _ Hall Hin)
    as (entry & fromEntry & Hentry & Hcollect & He).
  destruct entry as [ | | b | n | s | items | props];
    try (injection Hcollect as <-; destruct He).
  unfold collectEntry in Hcollect.
  destruct (getField props (js "l10nId")) as [ | | b | n | [|c s] | items | fields]
    eqn:Hid; cbn [truthy str_eqb negb] in Hcollect;
    try (injection Hcollect as <-; destruct He); try discriminate;
    try (destruct b; [discriminate|injection Hcollect as <-; destruct He]);
    try (destruct (negb (n =? 0)); [discriminate|injection Hcollect as <-; destruct He]).
  injection Hcollect as <-.
  apply in_map_iff in He as ([path raw] & <- & Hraw).
  exists props, raw. cbn [Entry.l10nId Entry.entryName Entry.fieldPath
                          Entry.value Entry.ftlId fst snd].
  repeat split; try assumption; try reflexivity. discriminate.
Qed.

Lemma collected_entries_trace_back_witness :
  exists props raw,
    In (JObj props) threeEntries /\
    getField props (js "l10nId") = JStr (js "account") /\
    js "account" <> [] /\
    JUndefined = getField props (js "name") /\
    In (js "title.text", raw)
       (extractStringsFromObject
          (JObj (filter (fun kv => negb (isEntryLevelKey (fst kv))) props)) []) /\
    js "Your account" = sanitizeContent unicodeExcerpt raw /\
    js "account-title-text-f2fc7490" =
      generateFtlIdWithL10nId (js "account") (js "title.text") (js "Your account").
Proof.
  refine (collected_entries_trace_back unicodeExcerpt threeEntries _
            {| Entry.l10nId := js "account";
               Entry.ftlId := js "account-title-text-f2fc7490";
               Entry.value := js "Your account";
               Entry.fieldPath := js "title.text";
               Entry.entryName := JUndefined;
               Entry.entrypoint := JUndefined |} _ _).
  - vm_compute. reflexivity.
  - vm_compute. do 3 right. now left.
Defined.

(** ** Reading data lines *)

(** A segment of an identifier: characters of the identifier class, no
    dash among them. *)
Definition idSegment (seg : jsstring) : Prop :=
  forallb isIdChar seg = true /\ ~ In DASH seg.

Lemma idChars_no_dot (seg : jsstring) : forallb isIdChar seg = true -> ~ In DOT seg.
Proof.
  intros Hall Hin. rewrite forallb_forall in Hall. specialize (Hall _ Hin).
  discriminate.
Qed.

Lemma join_idChars (segs : list jsstring) :
  Forall idSegment segs -> forallb isIdChar (join [DASH] segs) = true.
Proof.
  induction 1 as [|seg segs [Hseg _] Hsegs IH]; [reflexivity|].
  destruct segs as [|seg' segs]; [exact Hseg|].
  rewrite join_cons2, !forallb_app, Hseg. unfold jsstring in *. now rewrite IH.
Qed.

(** The identifier and the line of an entry written with quotes. *)
Definition quotedId (l10nId component field : jsstring)
    (more : list jsstring) (hash : jsstring) : jsstring :=
  join [DASH] (l10nId :: component :: field :: more ++ [hash]).

Definition quotedLine (ftlId value : jsstring) : jsstring :=
  ftlId ++ js " = " ++ [QUOTE] ++ value ++ [QUOTE].

Lemma convertFtlLine_quoted (target l10nId component field : jsstring)
    (more : list jsstring) (hash value : jsstring)
    (strapiFormat : list (jsstring * JsVal)) :
  l10nId <> [] ->
  Forall idSegment (l10nId :: component :: field :: more ++ [hash]) ->
  ~ In QUOTE value ->
  convertFtlLine target strapiFormat
    (quotedLine (quotedId l10nId component field more hash) value) =
  if str_eqb l10nId target
  then setComponentField strapiFormat component field (unescapeValue value)
  else Returns strapiFormat.
Proof.
  intros Hne Hsegs Hvalue. set (ftlId := quotedId l10nId component field more hash).
  assert (Hdash : Forall (fun seg => ~ In DASH seg)
                    (l10nId :: component :: field :: more ++ [hash])).
  { eapply Forall_impl; [|exact Hsegs]. intros seg Hs. apply Hs. }
  assert (Hid : forallb isIdChar ftlId = true) by now apply join_idChars.
  assert (Hsplit : split DASH ftlId =
                   l10nId :: component :: field :: more ++ [hash]).
  { apply split_join; [discriminate|exact Hdash]. }
  assert (Hhead : exists c rest, ftlId = c :: rest).
  { unfold ftlId, quotedId. rewrite join_cons2.
    destruct l10nId as [|c l]; [congruence|]. now exists c, (l ++ [DASH] ++
      join [DASH] (component :: field :: more ++ [hash])). }
  destruct Hhead as (c & rest & Hcons).
  assert (Hc : isIdChar c = true).
  { rewrite Hcons in Hid. cbn [forallb] in Hid. now apply andb_true_iff in Hid. }
  destruct (idChar_facts c Hc) as [Hcw Hch].
  assert (Hshape : dataLineShape (quotedLine ftlId value) ftlId (js " ") (js " ") value).
  { split; [reflexivity|]. split; [rewrite Hcons; discriminate|].
    split; [exact Hid|]. split; reflexivity. }
  assert (Htrim : trim (quotedLine ftlId value) = quotedLine ftlId value).
  { unfold quotedLine. rewrite Hcons.
    change ((c :: rest) ++ js " = " ++ [QUOTE] ++ value ++ [QUOTE])
      with (c :: rest ++ js " = " ++ [QUOTE] ++ value ++ [QUOTE]).
    replace (rest ++ js " = " ++ [QUOTE] ++ value ++ [QUOTE])
      with ((rest ++ js " = " ++ [QUOTE] ++ value) ++ [QUOTE])
      by (now rewrite <- !app_assoc).
    now apply trim_fixed. }
  unfold convertFtlLine. rewrite Htrim, (matchDataLine_shape _ _ _ _ _ Hshape).
  apply notQuote_all in Hvalue. rewrite Hvalue.
  replace (str_eqb (quotedLine ftlId value) [] ||
           startsWith (quotedLine ftlId value) (js "#")) with false.
  2:{ unfold quotedLine. rewrite Hcons. cbn.
      replace (c =? 35) with false by (symmetry; now apply Z.eqb_neq).
      reflexivity. }
  assert (Hparse : parseFtlIdToFieldPath ftlId =
                   Some (join [DOT] (component :: field :: more))).
  { unfold parseFtlIdToFieldPath. rewrite Hsplit.
    cbn [length]. rewrite length_app. cbn [length].
    replace (4 <=? Z.of_nat (S (S (S (length more + 1))))) with true
      by (symmetry; apply Z.leb_le; lia).
    rewrite slice_middle by (cbn [length]; lia). cbn [tl].
    change (component :: field :: more ++ [hash])
      with ((component :: field :: more) ++ [hash]).
    now rewrite removelast_snoc. }
  rewrite Hsplit, Hparse.
  cbn [length]. rewrite length_app. cbn [length].
  replace (3 <=? Z.of_nat (S (S (S (length more + 1))))) with true
    by (symmetry; apply Z.leb_le; lia).
  cbn [nth]. destruct (str_eqb l10nId target); [|reflexivity].
  assert (Hdots : split DOT (join [DOT] (component :: field :: more)) =
                  component :: field :: more).
  { apply split_join; [discriminate|].
    inversion Hsegs as [|? ? _ Hrest]; subst.
    change (component :: field :: more ++ [hash])
      with ((component :: field :: more) ++ [hash]) in Hrest.
    apply Forall_app in Hrest as [Hpath _].
    eapply Forall_impl; [|exact Hpath]. intros seg [Hs _].
    now apply idChars_no_dot. }
  destruct (join [DOT] (component :: field :: more)) as [|d path] eqn:Hjoin.
  { rewrite join_cons2 in Hjoin. destruct component; discriminate. }
  rewrite Hdots. cbn [length nth].
  replace (2 <=? Z.of_nat (S (S (length more)))) with true
    by (symmetry; apply Z.leb_le; lia).
  reflexivity.
Qed.



(** X8. The same line, when the result already holds a non-empty string,
    a non-zero number or [true] under the component's name (as it may
    under [name] or [clientId]), makes the conversion throw a TypeError:
    the assignment of a property onto a primitive, in strict-mode code.
    The one exception is the field [__proto__]: the inherited setter
    takes that write and ignores the string, and the line changes
    nothing. *)
Theorem quoted_line_onto_primitive_throws (l10nId component field : jsstring)
    (more : list jsstring) (hash value : jsstring)
    (strapiFormat : list (jsstring * JsVal)) (held : JsVal) :
  l10nId <> [] ->
  Forall idSegment (l10nId :: component :: field :: more ++ [hash]) ->
  ~ In QUOTE value ->
  getProp strapiFormat component = Some held ->
  truthy held = true ->
  isObjectTyped held = false ->
  convertFtlLine l10nId strapiFormat
    (quotedLine (quotedId l10nId component field more hash) value) =
  if str_eqb field (js "__proto__") then Returns strapiFormat
  else ThrowsTypeError.
Proof.
  intros Hne Hsegs Hvalue Hheld Htruthy Hprim.
  rewrite convertFtlLine_quoted by assumption.
  destruct (str_eqb_spec l10nId l10nId) as [_|]; [|congruence].
  unfold setComponentField, ensureComponent, assignComponentField, lookupMember.
  rewrite Hheld, Htruthy, Hheld.
  destruct held; try reflexivity; discriminate.
Qed.

Lemma quoted_line_onto_primitive_throws_witness :
  convertFtlLine (js "signin")
    [ (js "name", JStr (js "SignIn")) ]
    (quotedLine (quotedId (js "signin") (js "name") (js "text") []
                   (js "0a1b2c3d")) (js "Connexion")) =
  if str_eqb (js "text") (js "__proto__")
  then Returns [ (js "name", JStr (js "SignIn")) ]
  else ThrowsTypeError.
Proof.
  apply (quoted_line_onto_primitive_throws (js "signin") (js "name") (js "text")
           [] (js "0a1b2c3d") (js "Connexion") _ (JStr (js "SignIn"))).
  - discriminate.
  - repeat constructor; vm_compute; intuition discriminate.
  - vm_compute. intuition discriminate.
  - reflexivity.
  - reflexivity.
  - reflexivity.
Defined.

(** X9. A well-formed quoted line whose identifier begins with another
    l10nId than the target leaves the result as it is. *)
Theorem quoted_line_of_other_entry_is_skipped
    (target l10nId component field : jsstring)
    (more : list jsstring) (hash value : jsstring)
    (strapiFormat : list (jsstring * JsVal)) :
  l10nId <> [] ->
  Forall idSegment (l10nId :: component :: field :: more ++ [hash]) ->
  ~ In QUOTE value ->
  l10nId <> target ->
  convertFtlLine target strapiFormat
    (quotedLine (quotedId l10nId component field more hash) value) =
  Returns strapiFormat.
Proof.
  intros Hne Hsegs Hvalue Hother.
  rewrite convertFtlLine_quoted by assumption.
  destruct (str_eqb_spec l10nId target); [contradiction|reflexivity].
Qed.

Lemma quoted_line_of_other_entry_is_skipped_witness :
  convertFtlLine (js "signin")
    [ (js "name", JStr (js "SignIn")) ]
    (quotedLine (quotedId (js "signup") (js "headline") (js "text") []
                   (js "0a1b2c3d")) (js "Bienvenue")) =
  Returns [ (js "name", JStr (js "SignIn")) ].
Proof.
  apply quoted_line_of_other_entry_is_skipped.
  - discriminate.
  - repeat constructor; vm_compute; intuition discriminate.
  - vm_compute. intuition discriminate.
  - discriminate.
Defined.

Lemma split_no_sep (sep : Z) (s : jsstring) :
  Forall (fun seg => ~ In sep seg) (split sep s).
Proof.
  induction s as [|c s IH]; cbn [split].
  - constructor; [intros []|constructor].
  - destruct (Z.eqb_spec c sep) as [->|Hc].
    + constructor; [intros []|exact IH].
    + destruct (split sep s) as [|seg rest]; constructor.
      * intros [H|[]]. congruence.
      * constructor.
      * inversion IH as [|? ? Hseg _]; subst. intros [H|H]; [congruence|].
        now apply Hseg.
      * now inversion IH.
Qed.

Lemma split_chars (sep : Z) (s : jsstring) :
  Forall (fun seg => forall c, In c seg -> In c s) (split sep s).
Proof.
  induction s as [|c s IH]; cbn [split].
  - constructor; [intros c []|constructor].
  - assert (Hweak : Forall (fun seg => forall d, In d seg -> In d (c :: s))
                      (split sep s)).
    { eapply Forall_impl; [|exact IH]. intros seg H d Hd. right. now apply H. }
    destruct (c =? sep).
    + constructor; [intros d []|exact Hweak].
    + destruct (split sep s) as [|seg rest]; constructor.
      * intros d [<-|[]]. now left.
      * constructor.
      * inversion Hweak as [|? ? Hseg _]; subst. intros d [<-|Hd]; [now left|].
        now apply Hseg.
      * now inversion Hweak.
Qed.

Lemma convertFtlLines_unchanged (l10nId : jsstring)
    (strapiFormat : list (jsstring * JsVal)) (lines : list jsstring) :
  Forall (fun line =>
            convertFtlLine l10nId strapiFormat line = Returns strapiFormat)
    lines ->
  convertFtlLines l10nId strapiFormat lines = Returns strapiFormat.
Proof.
  induction 1 as [|line lines Hline _ IH]; [reflexivity|].
  cbn [convertFtlLines]. rewrite Hline. exact IH.
Qed.

(** The four fields copied from the base entry. *)
Definition metadataOf (baseData : list (jsstring * JsVal))
  : list (jsstring * JsVal) :=
  [ (js "clientId", getField baseData (js "clientId"));
    (js "entrypoint", getField baseData (js "entrypoint"));
    (js "name", getField baseData (js "name"));
    (js "l10nId", getField baseData (js "l10nId")) ].

(** X10. Content without a double quote (the empty file, or a file all of
    whose values are written bare) converts to the four fields copied from
    the base entry and nothing else, whatever the l10nId; and merging
    that result over any entry returns the entry as it was. *)
Theorem quote_free_content_localizes_nothing (l10nId ftlContent : jsstring)
    (baseData entry : list (jsstring * JsVal)) :
  ~ In QUOTE ftlContent ->
  convertFtlToStrapiFormat l10nId ftlContent baseData =
    Returns (metadataOf baseData) /\
  mergeCmsWithLocalization (JObj entry) (JObj (metadataOf baseData)) =
    Returns (JObj entry).
Proof.
  intros Hnq. split; [|reflexivity].
  unfold convertFtlToStrapiFormat. apply convertFtlLines_unchanged.
  eapply Forall_impl; [|apply (split_chars LF ftlContent)].
  intros line Hchars. apply convertFtlLine_unquoted.
  intros Hq. apply Hnq. now apply Hchars.
Qed.

Lemma quote_free_content_localizes_nothing_witness :
  convertFtlToStrapiFormat (js "signin") signinFtl signinBase =
    Returns (metadataOf signinBase) /\
  mergeCmsWithLocalization (JObj signinBase) (JObj (metadataOf signinBase)) =
    Returns (JObj signinBase).
Proof.
  apply quote_free_content_localizes_nothing.
  vm_compute. intuition discriminate.
Defined.

(** X11. An identifier is cut at its dashes and its first piece compared
    with the target l10nId, so for a target l10nId that holds a dash no
    line is ever applied: the conversion returns the four fields copied
    from the base entry, whatever the content. *)
Theorem dashed_l10nId_is_never_localized (l10nId ftlContent : jsstring)
    (baseData : list (jsstring * JsVal)) :
  In DASH l10nId ->
  convertFtlToStrapiFormat l10nId ftlContent baseData =
    Returns (metadataOf baseData).
Proof.
  intros Hdash. unfold convertFtlToStrapiFormat.
  apply convertFtlLines_unchanged. apply Forall_forall. intros line _.
  unfold convertFtlLine.
  destruct (str_eqb (trim line) [] || startsWith (trim line) (js "#"));
    [reflexivity|].
  destruct (matchDataLine (trim line)) as [[ftlId value]|]; [|reflexivity].
  destruct (3 <=? Z.of_nat (length (split DASH ftlId))); [|reflexivity].
  destruct (str_eqb_spec (nth 0 (split DASH ftlId) []) l10nId) as [Heq|];
    [|reflexivity].
  exfalso. pose proof (split_no_sep DASH ftlId) as Hfree.
  destruct (split DASH ftlId) as [|seg rest]; cbn [nth] in Heq.
  - subst l10nId. destruct Hdash.
  - inversion Hfree as [|? ? Hseg _]; subst. contradiction.
Qed.

Lemma dashed_l10nId_is_never_localized_witness :
  convertFtlToStrapiFormat (js "sign-in")
    (quotedLine (generateFtlIdWithL10nId (js "sign-in") (js "headline.text")
                   (js "Welcome")) (js "Bienvenue"))
    [ (js "l10nId", JStr (js "sign-in")) ] =
  Returns (metadataOf [ (js "l10nId", JStr (js "sign-in")) ]).
Proof.
  apply dashed_l10nId_is_never_localized.
  vm_compute. intuition.
Defined.

(** ** Escapes of a captured value *)

(** A value as a sequence of plain code units and of the three escapes
    the deserializer undoes. *)
Inductive token : Type :=
| Plain (c : Z)
| EscapedQuote
| EscapedLF
| EscapedCR.

Definition written (t : token) : jsstring :=
  match t with
  | Plain c => [c]
  | EscapedQuote => [BACKSLASH; QUOTE]
  | EscapedLF => [BACKSLASH; 110]
  | EscapedCR => [BACKSLASH; 114]
  end.

Definition meant (t : token) : jsstring :=
  match t with
  | Plain c => [c]
  | EscapedQuote => [QUOTE]
  | EscapedLF => [LF]
  | EscapedCR => [CR]
  end.

Definition plainToken (t : token) : Prop :=
  match t with
  | Plain c => c <> BACKSLASH
  | _ => True
  end.

Lemma replaceAllPair_skip (a b : Z) (r : jsstring) (c : Z) (s : jsstring) :
  c <> a ->
  replaceAllPair a b r (c :: s) = c :: replaceAllPair a b r s.
Proof.
  intros Hc. cbn [replaceAllPair]. destruct s as [|y s]; [reflexivity|].
  replace (c =? a) with false by (symmetry; now apply Z.eqb_neq).
  reflexivity.
Qed.

Lemma replaceAllPair_other (a b : Z) (r : jsstring) (c : Z) (s : jsstring) :
  c <> b ->
  replaceAllPair a b r (a :: c :: s) = a :: replaceAllPair a b r (c :: s).
Proof.
  intros Hc.
  change (replaceAllPair a b r (a :: c :: s))
    with (if (a =? a) && (c =? b) then r ++ replaceAllPair a b r s
          else a :: replaceAllPair a b r (c :: s)).
  replace (c =? b) with false by (symmetry; now apply Z.eqb_neq).
  now rewrite andb_false_r.
Qed.

Lemma replaceAllPair_tokens (b : Z) (r : jsstring) (before after : token -> jsstring)
    (tokens : list token) :
  Forall (fun t =>
            (exists c, c <> BACKSLASH /\ before t = [c] /\ after t = [c]) \/
            (before t = [BACKSLASH; b] /\ after t = r) \/
            (exists c, c <> BACKSLASH /\ c <> b /\
                       before t = [BACKSLASH; c] /\ after t = [BACKSLASH; c]))
    tokens ->
  replaceAllPair BACKSLASH b r (flat_map before tokens) = flat_map after tokens.
Proof.
  induction 1 as [|t tokens Ht _ IH]; [reflexivity|].
  cbn [flat_map].
  destruct Ht as [(c & Hc & -> & ->)|[(-> & ->)|(c & Hc & Hcb & -> & ->)]].
  - cbn [app]. rewrite replaceAllPair_skip by assumption. now rewrite IH.
  - cbn [app replaceAllPair]. rewrite !Z.eqb_refl. cbn [andb]. now rewrite IH.
  - cbn [app]. rewrite replaceAllPair_other, replaceAllPair_skip by assumption.
    now rewrite IH.
Qed.

(** X12. The three replacements undo the escapes: on a value made of code
    units other than the backslash and of the escapes backslash-quote,
    backslash-n and backslash-r, in any order, the unescaped value is the
    same sequence with a double quote, a line feed and a carriage return
    in place of the escapes. In particular a value without a backslash is
    kept as it is. *)
Theorem unescapeValue_tokens (tokens : list token) :
  Forall plainToken tokens ->
  unescapeValue (flat_map written tokens) = flat_map meant tokens.
Proof.
  intros Hplain. unfold unescapeValue, unescapeQuote.
  set (afterQuote := fun t => match t with EscapedQuote => [QUOTE] | _ => written t end).
  set (afterLF := fun t => match t with EscapedLF => [LF] | _ => afterQuote t end).
  rewrite (replaceAllPair_tokens QUOTE [QUOTE] written afterQuote).
  2:{ eapply Forall_impl; [|exact Hplain]. intros [c| | |] Ht.
      - left. now exists c.
      - right. left. now split.
      - right. right. exists 110. repeat split; discriminate.
      - right. right. exists 114. repeat split; discriminate. }
  rewrite (replaceAllPair_tokens 110 [LF] afterQuote afterLF).
  2:{ eapply Forall_impl; [|exact Hplain]. intros [c| | |] Ht.
      - left. now exists c.
      - left. exists QUOTE. repeat split; discriminate.
      - right. left. now split.
      - right. right. exists 114. repeat split; discriminate. }
  apply replaceAllPair_tokens.
  eapply Forall_impl; [|exact Hplain]. intros [c| | |] Ht.
  - left. now exists c.
  - left. exists QUOTE. repeat split; discriminate.
  - left. exists LF. repeat split; discriminate.
  - right. left. now split.
Qed.

Lemma unescapeValue_tokens_witness :
  unescapeValue
    (flat_map written
       [Plain 72; Plain 105; EscapedLF; Plain 121; Plain 111; Plain 117;
        EscapedCR; EscapedQuote]) =
  flat_map meant
    [Plain 72; Plain 105; EscapedLF; Plain 121; Plain 111; Plain 117;
     EscapedCR; EscapedQuote].
Proof.
  apply unescapeValue_tokens.
  repeat constructor; discriminate.
Defined.

(** ** Merging the same localization twice *)

Section PropertyFixed.
Context {V : Type}.

Lemma updateProp_same (o : list (jsstring * V)) (k : jsstring) (v : V) :
  getProp o k = Some v -> updateProp o k v = o.
Proof.
  induction o as [|[k' v'] o IH]; cbn [getProp updateProp]; [discriminate|].
  destruct (str_eqb k' k).
  - now intros [= ->].
  - intros H. now rewrite IH.
Qed.

Lemma setProp_same (o : list (jsstring * V)) (k : jsstring) (v : V) :
  getProp o k = Some v -> setProp o k v = o.
Proof.
  intros H. unfold setProp. rewrite H. now apply updateProp_same.
Qed.

Lemma assignProp_same (o : list (jsstring * V)) (k : jsstring) (v : V) :
  getProp o k = Some v -> assignProp o k v = o.
Proof.
  intros H. unfold assignProp. rewrite H. now apply updateProp_same.
Qed.

Lemma getProp_NoDup_In (o : list (jsstring * V)) (k : jsstring) (v : V) :
  NoDup (map fst o) -> In (k, v) o -> getProp o k = Some v.
Proof.
  induction o as [|[k' v'] o IH]; cbn [map fst getProp]; [intros _ []|].
  intros Hnd [Hin|Hin]; inversion Hnd as [|? ? Hnot Hnd']; subst.
  - injection Hin as -> ->. now destruct (str_eqb_spec k k).
  - destruct (str_eqb_spec k' k) as [->|_]; [|now apply IH].
    exfalso. apply Hnot. now apply (in_map fst _ (k, v)).
Qed.

End PropertyFixed.

Lemma overlayStrings_absorbs (entries : list (jsstring * JsVal)) :
  NoDup (map fst entries) ->
  forall onto f s,
    In (f, JStr s) entries ->
    assignProp (overlayStrings onto entries) f (JStr s) =
    overlayStrings onto entries.
Proof.
  intros Hnd onto f s Hin.
  pose proof (overlayStrings_lookup entries Hnd onto f) as Hlookup.
  unfold overlaidField in Hlookup.
  rewrite (getProp_NoDup_In entries f (JStr s) Hnd Hin) in Hlookup.
  destruct (getProp onto f).
  - now apply assignProp_same.
  - destruct (str_eqb f (js "__proto__")) eqn:Hproto.
    + unfold assignProp. now rewrite Hlookup, Hproto.
    + now apply assignProp_same.
Qed.

(** A component of the localized data has been absorbed by an object when
    a further merge of that component would change nothing: what the
    object holds under the component's name already has every string
    field of the component, or is a primitive or an inherited built-in
    and the only string field is [__proto__], which the inherited setter
    ignores. *)
Definition absorbed (held : option JsVal) (componentName : jsstring)
    (componentData : JsVal) : Prop :=
  isReservedKey componentName = true \/
  isObjectTyped componentData = false \/
  (held = None /\
   existsb (str_eqb componentName) objectPrototypeMembers = true /\
   forall f s, In (f, JStr s) (ownEntries componentData) ->
     f = js "__proto__") \/
  (exists v,
     held = Some v /\ truthy v = true /\
     forall f s, In (f, JStr s) (ownEntries componentData) ->
       (exists fields, v = JObj fields /\
                       assignProp fields f (JStr s) = fields) \/
       (isObjectTyped v = false /\ f = js "__proto__")).

Lemma mergeComponentFields_fixed (entries : list (jsstring * JsVal))
    (m : list (jsstring * JsVal)) (c : jsstring) (v : JsVal) :
  getProp m c = Some v ->
  truthy v = true ->
  (forall f s, In (f, JStr s) entries ->
     (exists fields, v = JObj fields /\ assignProp fields f (JStr s) = fields) \/
     (isObjectTyped v = false /\ f = js "__proto__")) ->
  mergeComponentFields m c entries = Returns m.
Proof.
  intros Hheld Hv. induction entries as [|[f value] entries IH]; [reflexivity|].
  intros Hfixed. cbn [mergeComponentFields].
  assert (Hrest : mergeComponentFields m c entries = Returns m).
  { apply IH. intros f' s' Hin. apply Hfixed. now right. }
  destruct value; try exact Hrest.
  unfold assignComponentField, lookupMember. rewrite Hheld.
  destruct (Hfixed f s (or_introl eq_refl))
    as [(fields & -> & Hsame)|[Hprim ->]].
  - rewrite Hsame, (setProp_same m c (JObj fields) Hheld). exact Hrest.
  - destruct v; try discriminate; exact Hrest.
Qed.

Lemma mergeComponentFields_inherited (entries : list (jsstring * JsVal))
    (m : list (jsstring * JsVal)) (c : jsstring) :
  lookupMember m c = Inherited ->
  (forall f s, In (f, JStr s) entries -> f = js "__proto__") ->
  mergeComponentFields m c entries = Returns m.
Proof.
  intros Hin. induction entries as [|[f value] entries IH]; [reflexivity|].
  intros Hproto. cbn [mergeComponentFields].
  assert (Hrest : mergeComponentFields m c entries = Returns m).
  { apply IH. intros f' s' Hin'. apply (Hproto f' s'). now right. }
  destruct value; try exact Hrest.
  unfold assignComponentField. rewrite Hin.
  rewrite (Hproto f s (or_introl eq_refl)). exact Hrest.
Qed.

Lemma mergeComponentFields_primitive (entries : list (jsstring * JsVal))
    (c : jsstring) (v : JsVal) (m m' : list (jsstring * JsVal)) :
  (forall fields, v <> JObj fields) ->
  getProp m c = Some v ->
  mergeComponentFields m c entries = Returns m' ->
  forall f s, In (f, JStr s) entries ->
    isObjectTyped v = false /\ f = js "__proto__".
Proof.
  intros Hprim Hheld. induction entries as [|[f value] entries IH];
    intros Hret f' s' Hin; [destruct Hin|].
  cbn [mergeComponentFields] in Hret.
  destruct value;
    try (destruct Hin as [Hin|Hin]; [discriminate|];
         exact (IH Hret f' s' Hin)).
  unfold assignComponentField, lookupMember in Hret. rewrite Hheld in Hret.
  assert (Hstep : isObjectTyped v = false /\ f = js "__proto__" /\
                  mergeComponentFields m c entries = Returns m').
  { destruct v; try discriminate Hret;
      try (destruct (str_eqb_spec f (js "__proto__")) as [->|_];
           [now repeat split|discriminate Hret]).
    now destruct (Hprim props). }
  destruct Hstep as (Hv & -> & Hrest).
  destruct Hin as [Hin|Hin]; [injection Hin as <- _; now split|].
  exact (IH Hrest f' s' Hin).
Qed.

Lemma mergeComponentFields_builtin (entries : list (jsstring * JsVal))
    (c : jsstring) (m m' : list (jsstring * JsVal)) :
  lookupMember m c = Inherited ->
  mergeComponentFields m c entries = Returns m' ->
  forall f s, In (f, JStr s) entries -> f = js "__proto__".
Proof.
  intros Hinh. induction entries as [|[f value] entries IH];
    intros Hret f' s' Hin; [destruct Hin|].
  cbn [mergeComponentFields] in Hret.
  destruct value;
    try (destruct Hin as [Hin|Hin]; [discriminate|];
         exact (IH Hret f' s' Hin)).
  unfold assignComponentField in Hret. rewrite Hinh in Hret.
  destruct (str_eqb_spec f (js "__proto__")) as [->|_].
  - destruct Hin as [Hin|Hin]; [now injection Hin as <- _|].
    exact (IH Hret f' s' Hin).
  - destruct (negb (str_eqb c (js "__proto__")) && isReadOnlyOfFunction f);
      discriminate Hret.
Qed.

Lemma ensured_truthy (held : option JsVal) (c : jsstring) (v : JsVal) :
  ensured held c = Some v -> truthy v = true.
Proof.
  unfold ensured. destruct held as [w|].
  - destruct (truthy w) eqn:Hw; intros [= <-]; [exact Hw|reflexivity].
  - destruct (existsb (str_eqb c) objectPrototypeMembers);
      [discriminate|now intros [= <-]].
Qed.

Lemma mergeComponent_fixed (m : list (jsstring * JsVal)) (c : jsstring)
    (data : JsVal) :
  absorbed (getProp m c) c data -> mergeComponent m c data = Returns m.
Proof.
  unfold absorbed, mergeComponent.
  intros [->|[Hobj|[(Hnone & Hproto & Hfields)|(v & Hheld & Hv & Hfixed)]]];
    [reflexivity| | |].
  - rewrite Hobj. now destruct (isReservedKey c).
  - destruct (isReservedKey c); [reflexivity|].
    destruct (isObjectTyped data); [|reflexivity].
    assert (Hin : lookupMember m c = Inherited).
    { unfold lookupMember. now rewrite Hnone, Hproto. }
    unfold ensureComponent. rewrite Hin.
    now apply mergeComponentFields_inherited.
  - destruct (isReservedKey c); [reflexivity|].
    destruct (isObjectTyped data); [|reflexivity].
    unfold ensureComponent, lookupMember. rewrite Hheld, Hv.
    now apply (mergeComponentFields_fixed _ m c v).
Qed.

Lemma mergeComponent_absorbs (m m' : list (jsstring * JsVal)) (c : jsstring)
    (data : JsVal) :
  NoDup (map fst (ownEntries data)) ->
  mergeComponent m c data = Returns m' ->
  absorbed (getProp m' c) c data.
Proof.
  intros Hnd. unfold mergeComponent, absorbed.
  destruct (isReservedKey c); [now left|].
  destruct (isObjectTyped data); [|right; now left].
  intros Hret. right. right.
  pose proof (mergeComponentFields_returns _ _ _ _ Hret) as [Hc _].
  rewrite getProp_ensureComponent_same in Hc.
  pose proof (getProp_ensureComponent_same m c) as Hens.
  destruct (ensured (getProp m c) c) as [v|] eqn:Hensured.
  - right. pose proof (ensured_truthy _ _ _ Hensured) as Hv.
    destruct v as [| | | | | |onto];
      try (eexists; split; [exact Hc|]; split; [exact Hv|];
           intros f' s' Hin; right;
           eapply (mergeComponentFields_primitive (ownEntries data) c);
           [|exact Hens|exact Hret|exact Hin]; discriminate).
    cbn [overlayOnto] in Hc. eexists. split; [exact Hc|]. split; [reflexivity|].
    intros f s Hin. left. eexists. split; [reflexivity|].
    now apply overlayStrings_absorbs.
  - left. cbn [overlayOnto] in Hc. split; [exact Hc|].
    unfold ensured in Hensured. destruct (getProp m c) as [w|] eqn:Hheld.
    + destruct (truthy w); discriminate.
    + destruct (existsb (str_eqb c) objectPrototypeMembers) eqn:Hmember;
        [|discriminate].
      split; [reflexivity|].
      apply (mergeComponentFields_builtin (ownEntries data) c
               (ensureComponent m c) m'); [|exact Hret].
      unfold lookupMember. now rewrite Hens, Hmember.
Qed.

Lemma mergeComponents_fixed (components : list (jsstring * JsVal))
    (m : list (jsstring * JsVal)) :
  Forall (fun kd => absorbed (getProp m (fst kd)) (fst kd) (snd kd)) components ->
  mergeComponents m components = Returns m.
Proof.
  induction 1 as [|[c data] components Hc _ IH]; [reflexivity|].
  cbn [mergeComponents]. cbn [fst snd] in Hc.
  rewrite (mergeComponent_fixed m c data Hc). exact IH.
Qed.

Lemma mergeComponents_absorbs (components : list (jsstring * JsVal)) :
  NoDup (map fst components) ->
  (forall c data, In (c, data) components -> NoDup (map fst (ownEntries data))) ->
  forall m m',
    mergeComponents m components = Returns m' ->
    Forall (fun kd => absorbed (getProp m' (fst kd)) (fst kd) (snd kd)) components.
Proof.
  induction components as [|[c data] components IH]; [constructor|].
  cbn [map fst]. intros Hnd Hentries m m' Hret.
  inversion Hnd as [|? ? Hnot Hnd']; subst.
  cbn [mergeComponents] in Hret.
  destruct (mergeComponent m c data) as [m1| |] eqn:Hstep; try discriminate.
  cbn [bind] in Hret. constructor.
  - cbn [fst snd].
    rewrite (mergeComponents_returns components Hnd' m1 m' c Hret).
    rewrite (getProp_None components c Hnot).
    apply (mergeComponent_absorbs m); [|exact Hstep].
    apply (Hentries c). now left.
  - apply (IH Hnd') with (m := m1); [|exact Hret].
    intros c' data' Hin. apply (Hentries c'). now right.
Qed.

(** X13. Merging is idempotent in the localized data: when the keys of the
    localized object and of each of its components are distinct, as the
    keys of an object are, and the merge over a base object returns
    without a write onto an array or onto a built-in reached through an
    inherited name (the writes the model does not follow), a second
    merge of the same localized data over the result returns the result
    unchanged, the order of its properties included. *)
Theorem mergeCmsWithLocalization_twice
    (base localized : list (jsstring * JsVal)) (result : JsVal) :
  NoDup (map fst localized) ->
  (forall c data, In (c, data) localized -> NoDup (map fst (ownEntries data))) ->
  mergeCmsWithLocalization (JObj base) (JObj localized) = Returns result ->
  mergeCmsWithLocalization result (JObj localized) = Returns result.
Proof.
  intros Hnd Hentries. unfold mergeCmsWithLocalization at 1.
  cbn [truthy negb ownEntries].
  destruct (mergeComponents base localized) as [merged| |] eqn:Hmerge;
    try discriminate.
  cbn [bind]. intros [= <-].
  unfold mergeCmsWithLocalization. cbn [truthy negb ownEntries].
  rewrite (mergeComponents_fixed localized merged); [reflexivity|].
  now apply (mergeComponents_absorbs localized Hnd Hentries base).
Qed.

Lemma mergeCmsWithLocalization_twice_witness :
  mergeCmsWithLocalization
    (JObj [ (js "name", JStr (js "SignIn"));
            (js "headline", JObj [ (js "text", JStr (js "B"));
                                   (js "size", JNum 3) ]) ])
    (JObj headlineLocalized) =
  Returns
    (JObj [ (js "name", JStr (js "SignIn"));
            (js "headline", JObj [ (js "text", JStr (js "B"));
                                   (js "size", JNum 3) ]) ]).
Proof.
  apply (mergeCmsWithLocalization_twice headlineBase headlineLocalized).
  - vm_compute. repeat constructor; vm_compute; intuition discriminate.
  - intros c data Hin. vm_compute in Hin.
    destruct Hin as [Hin|[Hin|[Hin|[]]]]; injection Hin as <- <-;
      vm_compute; repeat constructor; vm_compute; intuition discriminate.
  - vm_compute. reflexivity.
Defined.

(** ** What the extractor does not miss *)

(** The body of the extractor's loop, as a step over the record built so
    far. *)
Definition extractStep (prefix : jsstring)
    (strings : list (jsstring * jsstring)) (entry : jsstring * JsVal)
  : list (jsstring * jsstring) :=
  match snd entry with
  | JNull | JUndefined => strings
  | JObj _ =>
      objectAssign strings
        (extractStringsFromObject (snd entry) (fieldKeyOf prefix (fst entry)))
  | JStr s =>
      if shouldIncludeField (fst entry) (snd entry)
      then assignProp strings (fieldKeyOf prefix (fst entry)) s
      else strings
  | _ => strings
  end.

Lemma extractStringsFromObject_fold (props : list (jsstring * JsVal))
    (prefix : jsstring) :
  extractStringsFromObject (JObj props) prefix =
  fold_left (extractStep prefix) props [].
Proof.
  cbn [extractStringsFromObject]. generalize (@nil (jsstring * jsstring)).
  induction props as [|[key value] rest IH]; intros strings; [reflexivity|].
  cbn [fold_left]. rewrite IH. reflexivity.
Qed.

(** The record has a property of that name. *)
Definition present (strings : list (jsstring * jsstring)) (path : jsstring)
  : Prop :=
  getProp strings path <> None.

Lemma present_assignProp (strings : list (jsstring * jsstring))
    (k v path : jsstring) :
  present strings path -> present (assignProp strings k v) path.
Proof.
  unfold present. intros H. destruct (str_eqb_spec path k) as [->|Hne].
  - rewrite getProp_assignProp_same; [discriminate|now right].
  - now rewrite getProp_assignProp_other.
Qed.

Lemma present_objectAssign_target (source strings : list (jsstring * jsstring))
    (path : jsstring) :
  present strings path -> present (objectAssign strings source) path.
Proof.
  unfold objectAssign. revert strings.
  induction source as [|[k v] source IH]; intros strings H; [exact H|].
  cbn [fold_left fst snd]. apply IH. now apply present_assignProp.
Qed.

Lemma present_objectAssign_source (source strings : list (jsstring * jsstring))
    (path : jsstring) :
  path <> js "__proto__" ->
  present source path -> present (objectAssign strings source) path.
Proof.
  intros Hproto. unfold objectAssign. revert strings.
  induction source as [|[k v] source IH]; intros strings H;
    [now contradiction H|].
  cbn [fold_left fst snd]. unfold present in H. cbn [getProp] in H.
  destruct (str_eqb_spec k path) as [->|Hne].
  - apply (present_objectAssign_target source). unfold present.
    rewrite getProp_assignProp_same; [discriminate|now left].
  - now apply IH.
Qed.

Lemma present_extractSteps (prefix : jsstring)
    (entries : list (jsstring * JsVal)) :
  forall strings path,
    present strings path ->
    present (fold_left (extractStep prefix) entries strings) path.
Proof.
  induction entries as [|[key value] entries IH]; intros strings path H;
    [exact H|].
  cbn [fold_left]. apply IH. unfold extractStep. cbn [fst snd].
  destruct value; try exact H.
  - destruct (shouldIncludeField key (JStr s)); [|exact H].
    now apply present_assignProp.
  - now apply present_objectAssign_target.
Qed.

(** X14. No localizable string is missed: a string of the object, found
    directly or inside nested objects under a key that passes the filter,
    has its path among the keys of the extracted record (with the value
    of the last string that has this path). Only the path [__proto__]
    is excepted, which an ordinary assignment cannot create. *)
Theorem localizable_leaves_are_extracted
    (props : list (jsstring * JsVal)) (prefix path key value : jsstring) :
  leafOf props prefix path key value ->
  shouldIncludeField key (JStr value) = true ->
  path <> js "__proto__" ->
  exists kept, getProp (extractStringsFromObject (JObj props) prefix) path =
               Some kept.
Proof.
  intros Hleaf Hinc Hproto.
  assert (Hpresent : present (extractStringsFromObject (JObj props) prefix) path).
  { induction Hleaf as [props prefix key s Hin
                       |props prefix key inner path k s Hin Hleaf IH];
      rewrite extractStringsFromObject_fold;
      destruct (in_split _ _ Hin) as (before & after & ->);
      rewrite fold_left_app; cbn [fold_left]; apply present_extractSteps;
      unfold extractStep; cbn [fst snd].
    - rewrite Hinc. unfold present.
      rewrite getProp_assignProp_same; [discriminate|now left].
    - apply present_objectAssign_source; [exact Hproto|].
      now apply IH. }
  unfold present in Hpresent.
  destruct (getProp (extractStringsFromObject (JObj props) prefix) path) as [kept|];
    [now exists kept|congruence].
Qed.

Lemma localizable_leaves_are_extracted_witness :
  exists kept,
    getProp (extractStringsFromObject (JObj (ownEntries exampleEntryData)) [])
      (js "headline.text") = Some kept.
Proof.
  apply (localizable_leaves_are_extracted (ownEntries exampleEntryData) []
           (js "headline.text") (js "text") (js "Welcome back")).
  - apply leaf_nested with (key := js "headline")
      (inner := [ (js "text", JStr (js "Welcome back"));
                  (js "color", JStr (js "#ff0000")) ]).
    + now left.
    + apply (leaf_here _ (js "headline") (js "text") (js "Welcome back")).
      now left.
  - reflexivity.
  - discriminate.
Defined.

(** ** The methods that talk to GitHub *)

Module PullRequestMethods.
Import GitHub.

Definition isCommit (e : event) : bool :=
  match e with
  | Issued (ReposCreateOrUpdateFileContents _ _ _ _ _ _ _) => true
  | _ => false
  end.

(** A call that changes the repository. *)
Definition isWrite (e : event) : bool :=
  isPullsCreate e || isGitCreateRef e || isCommit e.

Lemma find_first {A} (f : A -> bool) (l : list A) (x : A) :
  find f l = Some x ->
  exists before after,
    l = before ++ x :: after /\ f x = true /\
    forallb (fun y => negb (f y)) before = true.
Proof.
  induction l as [|y l IH]; cbn [find]; [discriminate|].
  destruct (f y) eqn:Hy.
  - intros [= ->]. now exists [], l.
  - intros Hfind. destruct (IH Hfind) as (before & after & -> & Hx & Hbefore).
    exists (y :: before), after. cbn [forallb app]. now rewrite Hy, Hbefore.
Qed.

Lemma find_absent {A} (f : A -> bool) (l : list A) :
  find f l = None -> forallb (fun y => negb (f y)) l = true.
Proof.
  induction l as [|y l IH]; cbn [find forallb]; [reflexivity|].
  destruct (f y); [discriminate|]. exact IH.
Qed.

(** X15. With a logger that does not throw, [findExistingPR] rethrows the
    rejection of the list call after one error log; and when the list
    call answers, it returns the first pull request of the listed page
    whose title contains [cms.ftl] or [CMS localization] and whose state
    is open, and null only when the page holds no such pull request. *)
Theorem findExistingPR_result {S : Type} (h : host S)
    (owner repo : jsstring) (s : S) :
  (forall level event st, fst (h unit (Log level event) st) = inr tt) ->
  match fst (h _ (PullsList owner repo (js "open") 100) s) with
  | inl e =>
      fst (fst (run h (findExistingPR owner repo) s)) = inl e /\
      snd (run h (findExistingPR owner repo) s) =
        [ Issued (PullsList owner repo (js "open") 100);
          Issued (Log (js "error") (js "cms.integrations.github.pr.search.error")) ]
  | inr listed =>
      exists found,
        fst (fst (run h (findExistingPR owner repo) s)) = inr found /\
        match found with
        | Some pr =>
            exists before after,
              listed = before ++ pr :: after /\
              isLocalizationPR pr = true /\
              forallb (fun p => negb (isLocalizationPR p)) before = true
        | None => forallb (fun p => negb (isLocalizationPR p)) listed = true
        end
  end.
Proof.
  intros Hlog. unfold findExistingPR. cbn [tryCatch andThen await run].
  destruct (h _ (PullsList owner repo (js "open") 100) s) as [[e|listed] s1];
    cbn [fst snd tryCatch andThen run].
  - pose proof (Hlog (js "error") (js "cms.integrations.github.pr.search.error") s1)
      as Hl.
    destruct (h unit (Log (js "error")
                (js "cms.integrations.github.pr.search.error")) s1)
      as [[e'|[]] s2]; cbn [fst] in Hl; [discriminate|].
    now split.
  - destruct (find isLocalizationPR listed) as [pr|] eqn:Hfind;
      cbn [tryCatch andThen await run].
    + pose proof (Hlog (js "info") (js "cms.integrations.github.pr.found") s1)
        as Hl.
      destruct (h unit (Log (js "info") (js "cms.integrations.github.pr.found")) s1)
        as [[e'|[]] s2]; cbn [fst] in Hl; [discriminate|].
      exists (Some pr). split; [reflexivity|]. now apply find_first.
    + pose proof (Hlog (js "info") (js "cms.integrations.github.pr.notFound") s1)
        as Hl.
      destruct (h unit (Log (js "info") (js "cms.integrations.github.pr.notFound")) s1)
        as [[e'|[]] s2]; cbn [fst] in Hl; [discriminate|].
      exists None. split; [reflexivity|]. now apply find_absent.
Qed.

Lemma findExistingPR_result_witness :
  exists found,
    fst (fst (run gitHub (findExistingPR (js "mozilla") (js "fxa-cms-l10n"))
                ReconcilerExamples.crowded)) = inr found /\
    match found with
    | Some pr =>
        exists before after,
          firstn 100 (pulls ReconcilerExamples.crowded) = before ++ pr :: after /\
          isLocalizationPR pr = true /\
          forallb (fun p => negb (isLocalizationPR p)) before = true
    | None =>
        forallb (fun p => negb (isLocalizationPR p))
          (firstn 100 (pulls ReconcilerExamples.crowded)) = true
    end.
Proof.
  apply (findExistingPR_result gitHub (js "mozilla") (js "fxa-cms-l10n")
           ReconcilerExamples.crowded).
  intros level event st. reflexivity.
Defined.


Ltac reduce_run :=
  cbn [run tryCatch andThen await fst snd existsb forallb app
       isPullsCreate isGitCreateRef isCommit isWrite orb negb andb].

Ltac answer h :=
  match goal with
  | |- context [h ?R ?c ?s] => destruct (h R c s) as [[?|?] ?] eqn:?
  end; reduce_run.

Ltac rejected h := repeat answer h; intros; try discriminate; try reflexivity.



(** X17. [createGitHubPR] returns normally only after it has issued the
    creation of the branch, the commit of the file and the opening of the
    pull request: a run that ends before one of these calls does not
    return normally. *)
Theorem createGitHubPR_returns_after_opening {S : Type} (h : host S)
    (numberToString : Z -> jsstring) (config : Config) (ftlContent entrypoint : jsstring)
    (webhookDetails : option WebhookDetails) (s : S) :
  fst (fst (run h (createGitHubPR numberToString config ftlContent entrypoint
              webhookDetails) s))
    = inr tt ->
  existsb isGitCreateRef
    (snd (run h (createGitHubPR numberToString config ftlContent entrypoint
              webhookDetails) s))
    = true /\
  existsb isCommit
    (snd (run h (createGitHubPR numberToString config ftlContent entrypoint
              webhookDetails) s))
    = true /\
  existsb isPullsCreate
    (snd (run h (createGitHubPR numberToString config ftlContent entrypoint
              webhookDetails) s))
    = true.
Proof.
  unfold createGitHubPR, currentFileSha. reduce_run.
  repeat first
    [ answer h
    | match goal with
      | |- context [match ?x with File _ => _ | Directory => _ end] =>
          destruct x; reduce_run
      end ];
    intros Hret; try discriminate Hret; repeat split.
Qed.

Lemma createGitHubPR_returns_after_opening_witness :
  existsb isGitCreateRef
    (snd (run gitHub
            (createGitHubPR integerToString ReconcilerExamples.exampleConfig
              signinFtl
               (js "signin") None) ReconcilerExamples.quiet)) = true /\
  existsb isCommit
    (snd (run gitHub
            (createGitHubPR integerToString ReconcilerExamples.exampleConfig
              signinFtl
               (js "signin") None) ReconcilerExamples.quiet)) = true /\
  existsb isPullsCreate
    (snd (run gitHub
            (createGitHubPR integerToString ReconcilerExamples.exampleConfig
              signinFtl
               (js "signin") None) ReconcilerExamples.quiet)) = true.
Proof.
  apply (createGitHubPR_returns_after_opening gitHub integerToString
           ReconcilerExamples.exampleConfig signinFtl (js "signin") None
           ReconcilerExamples.quiet).
  vm_compute. reflexivity.
Defined.

(** The commit message chosen for the sha found on the branch. *)
Definition commitMessageFor (fileSha : option jsstring) : jsstring :=
  match fileSha with
  | Some (_ :: _) => updateMessage
  | _ => addMessage
  end.

(** X18. Whatever the host answers, [updateExistingPR] commits at most
    once, and only after the pull request has been fetched and the file
    looked up on its head branch: the commit goes to that head branch,
    under the path [locales/en/cms.ftl], with the content given; it
    carries the sha of the file found there and the update message when
    a file with a non-empty sha was found, and no sha and the message of
    an addition when the lookup was rejected or found a directory. No
    branch is created and no pull request opened. *)
Theorem updateExistingPR_commits_to_head {S : Type} (h : host S)
    (config : Config) (prNumber : Z) (ftlContent : jsstring)
    (webhookDetails : option WebhookDetails) (s : S) :
  existsb isCommit
    (snd (run h (updateExistingPR config prNumber ftlContent webhookDetails) s))
    = true ->
  exists logs pr fileSha rest,
    snd (run h (updateExistingPR config prNumber ftlContent webhookDetails) s) =
      Issued (PullsGet (owner config) (repo config) prNumber) ::
      Issued (ReposGetContent (owner config) (repo config) filePath
                (head_ref pr)) ::
      logs ++
      Issued (ReposCreateOrUpdateFileContents (owner config) (repo config)
                filePath (commitMessageFor fileSha) (utf8Encode ftlContent)
                fileSha (head_ref pr)) ::
      rest /\
    fst (h _ (PullsGet (owner config) (repo config) prNumber) s) = inr pr /\
    fileSha =
      match fst (h _ (ReposGetContent (owner config) (repo config) filePath
                        (head_ref pr))
                   (snd (h _ (PullsGet (owner config) (repo config) prNumber) s)))
      with
      | inr (File sha) => Some sha
      | _ => None
      end /\
    forallb (fun e => negb (isWrite e)) (logs ++ rest) = true.
Proof.
  unfold updateExistingPR, currentFileSha. reduce_run.
  destruct (h _ (PullsGet (owner config) (repo config) prNumber) s)
    as [[e0|pr] s1]; reduce_run; [rejected h|].
  destruct (h _ (ReposGetContent (owner config) (repo config) filePath
                   (head_ref pr)) s1) as [[e1|[sha|]] s2] eqn:Hcontent;
    reduce_run.
  - destruct (h unit (Log (js "info")
                (js "cms.integrations.github.pr.fileNotFound")) s2)
      as [[e2|[]] s3]; reduce_run; [rejected h|].
    repeat answer h; intros _;
      exists [Issued (Log (js "info")
                        (js "cms.integrations.github.pr.fileNotFound"))],
             pr, None;
      eexists; (split; [reflexivity|]);
      (split; [reflexivity|]); (split; [now rewrite Hcontent|reflexivity]).
  - repeat answer h; intros _;
      exists [], pr, (Some sha);
      eexists; (split; [reflexivity|]);
      (split; [reflexivity|]); (split; [now rewrite Hcontent|reflexivity]).
  - repeat answer h; intros _;
      exists [], pr, None;
      eexists; (split; [reflexivity|]);
      (split; [reflexivity|]); (split; [now rewrite Hcontent|reflexivity]).
Qed.

Lemma updateExistingPR_commits_to_head_witness :
  exists logs pr fileSha rest,
    snd (run gitHub
           (updateExistingPR ReconcilerExamples.exampleConfig 1 signinFtl None)
           ReconcilerExamples.quiet) =
      Issued (PullsGet (js "mozilla") (js "fxa-cms-l10n") 1) ::
      Issued (ReposGetContent (js "mozilla") (js "fxa-cms-l10n") filePath
                (head_ref pr)) ::
      logs ++
      Issued (ReposCreateOrUpdateFileContents (js "mozilla") (js "fxa-cms-l10n")
                filePath (commitMessageFor fileSha) (utf8Encode signinFtl)
                fileSha (head_ref pr)) ::
      rest /\
    fst (gitHub _ (PullsGet (js "mozilla") (js "fxa-cms-l10n") 1)
           ReconcilerExamples.quiet) = inr pr /\
    fileSha =
      match fst (gitHub _ (ReposGetContent (js "mozilla") (js "fxa-cms-l10n")
                             filePath (head_ref pr))
                   (snd (gitHub _ (PullsGet (js "mozilla") (js "fxa-cms-l10n") 1)
                           ReconcilerExamples.quiet)))
      with
      | inr (File sha) => Some sha
      | _ => None
      end /\
    forallb (fun e => negb (isWrite e)) (logs ++ rest) = true.
Proof.
  apply (updateExistingPR_commits_to_head gitHub
           ReconcilerExamples.exampleConfig 1 signinFtl None
           ReconcilerExamples.quiet).
  vm_compute. reflexivity.
Defined.



End PullRequestMethods.

(** ** The methods that fetch *)

Module FetchingProperties.
Import Fetching.

Ltac reduce_run :=
  cbn [run tryCatch andThen await settled fst snd existsb forallb app filter
       length isFetch orb negb andb].

Ltac answer h :=
  match goal with
  | |- context [h ?R ?c ?s] => destruct (h R c s) as [[?|?] ?] eqn:?
  end; reduce_run.

(** The request for the localization file of a locale. *)
Definition ftlRequest (settings : Settings) (locale : jsstring) : call Response :=
  Fetch (ftlUrl settings locale)
    [ (js "Authorization", js "token " ++ token settings);
      (js "Accept", js "text/plain") ].

Definition exampleSettings : Settings :=
  {| token := js "ghp_example"; owner := js "mozilla";
     repo := js "fxa-cms-l10n"; apiKey := js "key"; strapiUrl := [] |}.

Definition notFoundResponse : Response :=
  {| status := 404; statusText := js "Not Found";
     text := inr (js "404: Not Found"); json := inl TypeErrorThrown |}.

Definition unavailableResponse : Response :=
  {| status := 503; statusText := js "Service Unavailable";
     text := inr (js "try later"); json := inl TypeErrorThrown |}.

(** X20. When [fetchLocalizationFromGitHub] returns normally it has
    issued exactly one request, and what it returns is either the body
    of a response whose status is in the range 200 to 299, as its text
    was read, or the empty string for a response of status 404: the body
    of no other response is ever returned as content. The request is the
    one for [locale/<locale>/cms.ftl] on the main branch of the
    repository [mza-cms-l10n] of the configured owner. *)
Theorem fetchLocalizationFromGitHub_returns {S : Type} (h : host S)
    (settings : Settings) (locale content : jsstring) (s : S) :
  fst (fst (run h (fetchLocalizationFromGitHub settings locale) s))
    = inr content ->
  (exists response,
     fst (h _ (ftlRequest settings locale)
            (snd (h unit (Log (js "info") (js "cms.localization.github.fetch")) s)))
       = inr response /\
     ((ok response = true /\ text response = inr content) \/
      (status response = 404 /\ content = []))) /\
  filter isFetch
    (snd (run h (fetchLocalizationFromGitHub settings locale) s)) =
    [Issued (ftlRequest settings locale)].
Proof.
  unfold fetchLocalizationFromGitHub, ftlRequest. reduce_run.
  destruct (h unit (Log (js "info") (js "cms.localization.github.fetch")) s)
    as [[e0|[]] s1]; reduce_run.
  { repeat answer h; discriminate. }
  destruct (h _ (Fetch (ftlUrl settings locale)
                   [ (js "Authorization", js "token " ++ token settings);
                     (js "Accept", js "text/plain") ]) s1)
    as [[e1|response] s2]; reduce_run.
  { repeat answer h; discriminate. }
  destruct (ok response) eqn:Hok; cbn [negb].
  - destruct (text response) as [e2|body] eqn:Htext; reduce_run.
    { repeat answer h; discriminate. }
    repeat answer h; intros Hret; try discriminate Hret.
    injection Hret as <-. split; [|reflexivity].
    exists response. split; [reflexivity|]. left. now split.
  - destruct (Z.eqb_spec (status response) 404) as [H404|H404]; reduce_run.
    + repeat answer h; intros Hret; try discriminate Hret.
      injection Hret as <-. split; [|reflexivity].
      exists response. split; [reflexivity|]. right. now split.
    + destruct (text response) as [e2|body]; reduce_run;
        repeat answer h; discriminate.
Qed.

Lemma fetchLocalizationFromGitHub_returns_witness :
  (exists response,
     fst (fixedResponse notFoundResponse _ (ftlRequest exampleSettings (js "fr"))
            (snd (fixedResponse notFoundResponse unit
                    (Log (js "info") (js "cms.localization.github.fetch")) 0)))
       = inr response /\
     ((ok response = true /\ text response = inr []) \/
      (status response = 404 /\ @nil Z = []))) /\
  filter isFetch
    (snd (run (fixedResponse notFoundResponse)
            (fetchLocalizationFromGitHub exampleSettings (js "fr")) 0)) =
    [Issued (ftlRequest exampleSettings (js "fr"))].
Proof.
  apply (fetchLocalizationFromGitHub_returns (fixedResponse notFoundResponse)).
  vm_compute. reflexivity.
Defined.

(** X21. With a logger that does not throw, a response whose status is
    neither in the range 200 to 299 nor 404 makes
    [fetchLocalizationFromGitHub] throw an error whose message is
    [GitHub API returned <status>: <body>], after the request and one
    error log; nothing is fetched again. *)
Theorem fetchLocalizationFromGitHub_throws {S : Type} (h : host S)
    (settings : Settings) (locale body : jsstring) (response : Response)
    (s : S) :
  (forall level event st, fst (h unit (Log level event) st) = inr tt) ->
  fst (h _ (ftlRequest settings locale)
         (snd (h unit (Log (js "info") (js "cms.localization.github.fetch")) s)))
    = inr response ->
  ok response = false ->
  status response <> 404 ->
  text response = inr body ->
  fst (fst (run h (fetchLocalizationFromGitHub settings locale) s)) =
    inl (Failure (js "GitHub API returned " ++ decimal (status response) ++
                  js ": " ++ body)) /\
  snd (run h (fetchLocalizationFromGitHub settings locale) s) =
    [ Issued (Log (js "info") (js "cms.localization.github.fetch"));
      Issued (ftlRequest settings locale);
      Issued (Log (js "error") (js "cms.localization.github.fetch.error")) ].
Proof.
  intros Hlog. unfold fetchLocalizationFromGitHub, ftlRequest. reduce_run.
  pose proof (Hlog (js "info") (js "cms.localization.github.fetch") s) as Hl0.
  destruct (h unit (Log (js "info") (js "cms.localization.github.fetch")) s)
    as [[e0|[]] s1]; cbn [fst] in Hl0; [discriminate|]. reduce_run.
  destruct (h _ (Fetch (ftlUrl settings locale)
                   [ (js "Authorization", js "token " ++ token settings);
                     (js "Accept", js "text/plain") ]) s1)
    as [[e1|response'] s2]; reduce_run; intros [= <-] Hok H404 Htext.
  rewrite Hok. cbn [negb].
  destruct (Z.eqb_spec (status response') 404) as [|_]; [contradiction|].
  rewrite Htext. reduce_run.
  pose proof (Hlog (js "error") (js "cms.localization.github.fetch.error") s2)
    as Hl1.
  destruct (h unit (Log (js "error") (js "cms.localization.github.fetch.error")) s2)
    as [[e2|[]] s3]; cbn [fst] in Hl1; [discriminate|].
  now split.
Qed.

Lemma fetchLocalizationFromGitHub_throws_witness :
  fst (fst (run (fixedResponse unavailableResponse)
              (fetchLocalizationFromGitHub exampleSettings (js "fr")) 0)) =
    inl (Failure (js "GitHub API returned " ++
                  decimal (status unavailableResponse) ++
                  js ": " ++ js "try later")) /\
  snd (run (fixedResponse unavailableResponse)
         (fetchLocalizationFromGitHub exampleSettings (js "fr")) 0) =
    [ Issued (Log (js "info") (js "cms.localization.github.fetch"));
      Issued (ftlRequest exampleSettings (js "fr"));
      Issued (Log (js "error") (js "cms.localization.github.fetch.error")) ].
Proof.
  apply (fetchLocalizationFromGitHub_throws (fixedResponse unavailableResponse)
           exampleSettings (js "fr") (js "try later") unavailableResponse 0).
  - intros level event st. reflexivity.
  - reflexivity.
  - reflexivity.
  - discriminate.
  - reflexivity.
Defined.

(** X22. When the token, the owner or the repository is missing from the
    settings, [validateGitHubConfig] throws without issuing any call,
    not even a log: the token is checked first. *)
Theorem validateGitHubConfig_incomplete {S : Type} (h : host S)
    (settings : Settings) (s : S) :
  token settings = [] \/ owner settings = [] \/ repo settings = [] ->
  run h (validateGitHubConfig settings) s =
    (inl (Failure
            (if str_eqb (token settings) []
             then js "GitHub token is required for Strapi webhook"
             else js "GitHub owner and repo are required for Strapi webhook")),
     s, []).
Proof.
  intros Hmissing. unfold validateGitHubConfig.
  destruct (str_eqb_spec (token settings) []) as [|Htoken]; [reflexivity|].
  destruct (str_eqb_spec (owner settings) []) as [|Howner]; [reflexivity|].
  destruct (str_eqb_spec (repo settings) []) as [|Hrepo]; [reflexivity|].
  tauto.
Qed.

Lemma validateGitHubConfig_incomplete_witness :
  run (fixedResponse notFoundResponse)
    (validateGitHubConfig
       {| token := js "ghp_example"; owner := js "mozilla"; repo := [];
          apiKey := js "key"; strapiUrl := [] |}) 0 =
    (inl (Failure (js "GitHub owner and repo are required for Strapi webhook")),
     0, []).
Proof.
  apply (validateGitHubConfig_incomplete (fixedResponse notFoundResponse)
           {| token := js "ghp_example"; owner := js "mozilla"; repo := [];
              apiKey := js "key"; strapiUrl := [] |} 0).
  right. right. reflexivity.
Defined.

(** X23. With a logger that does not throw, [validateGitHubConfig]
    returns normally exactly when the token, the owner and the
    repository are all given and the repository can be fetched with
    them. *)
Theorem validateGitHubConfig_returns {S : Type} (h : host S)
    (settings : Settings) (s : S) :
  (forall level event st, fst (h unit (Log level event) st) = inr tt) ->
  fst (fst (run h (validateGitHubConfig settings) s)) = inr tt <->
  token settings <> [] /\ owner settings <> [] /\ repo settings <> [] /\
  fst (h _ (ReposGet (owner settings) (repo settings)) s) = inr tt.
Proof.
  intros Hlog. unfold validateGitHubConfig.
  destruct (str_eqb_spec (token settings) []) as [Htoken|Htoken];
    [cbn; split; [discriminate|tauto]|].
  destruct (str_eqb_spec (owner settings) []) as [Howner|Howner];
    [cbn; split; [discriminate|tauto]|].
  destruct (str_eqb_spec (repo settings) []) as [Hrepo|Hrepo];
    [cbn; split; [discriminate|tauto]|].
  cbn [orb]. reduce_run.
  destruct (h _ (ReposGet (owner settings) (repo settings)) s)
    as [[e|[]] s1]; reduce_run.
  - pose proof (Hlog (js "error")
                  (js "cms.integrations.github.config.validation.failed") s1) as Hl.
    destruct (h unit (Log (js "error")
                (js "cms.integrations.github.config.validation.failed")) s1)
      as [[e'|[]] s2]; cbn [fst] in Hl; [discriminate|].
    cbn. split; [discriminate|]. intros (_ & _ & _ & H). discriminate H.
  - pose proof (Hlog (js "info")
                  (js "cms.integrations.github.config.validated") s1) as Hl.
    destruct (h unit (Log (js "info")
                (js "cms.integrations.github.config.validated")) s1)
      as [[e'|[]] s2]; cbn [fst] in Hl; [discriminate|].
    cbn. tauto.
Qed.

Lemma validateGitHubConfig_returns_witness :
  fst (fst (run (fixedResponse notFoundResponse)
              (validateGitHubConfig exampleSettings) 0)) = inr tt <->
  token exampleSettings <> [] /\ owner exampleSettings <> [] /\
  repo exampleSettings <> [] /\
  fst (fixedResponse notFoundResponse _
         (ReposGet (owner exampleSettings) (repo exampleSettings)) 0) = inr tt.
Proof.
  apply (validateGitHubConfig_returns (fixedResponse notFoundResponse)
           exampleSettings 0).
  intros level event st. reflexivity.
Defined.

(** The request for the entries. *)
Definition entriesRequest (settings : Settings) : call Response :=
  Fetch (strapiBaseUrl settings ++ js "/api/relying-parties?populate=*")
    [ (js "Authorization", js "Bearer " ++ apiKey settings);
      (js "Content-Type", js "application/json") ].

Definition entriesResponse (payload : JsVal) : Response :=
  {| status := 200; statusText := js "OK";
     text := inl TypeErrorThrown; json := inr payload |}.

(** X24. What [fetchAllStrapiEntries] returns is never falsy: it is the
    [data] property of the JSON payload of a response whose status is in
    the range 200 to 299, when the payload is an object that has a truthy
    one, and the empty array otherwise. *)
Theorem fetchAllStrapiEntries_returns {S : Type} (h : host S)
    (settings : Settings) (entries : JsVal) (s : S) :
  fst (fst (run h (fetchAllStrapiEntries settings) s)) = inr entries ->
  truthy entries = true /\
  exists response payload,
    fst (h _ (entriesRequest settings)
           (snd (h unit (Log (js "info")
                           (js "cms.integrations.strapi.fetchingEntries")) s)))
      = inr response /\
    ok response = true /\
    json response = inr payload /\
    ((exists props, payload = JObj props /\
                    getProp props (js "data") = Some entries) \/
     (entries = JArr [] /\
      match payload with
      | JObj props => truthy (getField props (js "data")) = false
      | JNull | JUndefined => False
      | _ => True
      end)).
Proof.
  unfold fetchAllStrapiEntries, entriesRequest. reduce_run.
  destruct (h unit (Log (js "info")
              (js "cms.integrations.strapi.fetchingEntries")) s)
    as [[e0|[]] s1]; reduce_run.
  { repeat answer h; discriminate. }
  destruct (h _ (Fetch (strapiBaseUrl settings ++
                        js "/api/relying-parties?populate=*")
                   [ (js "Authorization", js "Bearer " ++ apiKey settings);
                     (js "Content-Type", js "application/json") ]) s1)
    as [[e1|response] s2]; reduce_run.
  { repeat answer h; discriminate. }
  destruct (ok response) eqn:Hok; cbn [negb].
  2:{ destruct (text response); reduce_run; repeat answer h; discriminate. }
  destruct (json response) as [e2|payload] eqn:Hjson; reduce_run.
  { repeat answer h; discriminate. }
  destruct (dataOf payload) as [e3|found] eqn:Hdata; reduce_run.
  { repeat answer h; discriminate. }
  repeat answer h; intros Hret; try discriminate Hret.
  injection Hret as <-. unfold orEmptyArray.
  destruct (truthy found) eqn:Hfound.
  - split; [exact Hfound|]. exists response, payload.
    split; [reflexivity|]. split; [exact Hok|]. split; [exact Hjson|].
    destruct payload; try discriminate Hdata;
      try (injection Hdata as <-; discriminate Hfound).
    left. exists props. split; [reflexivity|].
    injection Hdata as Hdata. unfold getField in Hdata.
    destruct (getProp props (js "data")) as [v|]; [now subst|].
    subst found. discriminate Hfound.
  - split; [reflexivity|]. exists response, payload.
    split; [reflexivity|]. split; [exact Hok|]. split; [exact Hjson|].
    right. split; [reflexivity|].
    destruct payload; try discriminate Hdata; try exact I.
    injection Hdata as ->. exact Hfound.
Qed.

Lemma fetchAllStrapiEntries_returns_witness :
  truthy (JArr []) = true /\
  exists response payload,
    fst (fixedResponse (entriesResponse (JObj [ (js "meta", JObj []) ])) _
           (entriesRequest exampleSettings)
           (snd (fixedResponse (entriesResponse (JObj [ (js "meta", JObj []) ]))
                   unit
                   (Log (js "info")
                      (js "cms.integrations.strapi.fetchingEntries")) 0)))
      = inr response /\
    ok response = true /\
    json response = inr payload /\
    ((exists props, payload = JObj props /\
                    getProp props (js "data") = Some (JArr [])) \/
     (JArr [] = JArr [] /\
      match payload with
      | JObj props => truthy (getField props (js "data")) = false
      | JNull | JUndefined => False
      | _ => True
      end)).
Proof.
  apply (fetchAllStrapiEntries_returns
           (fixedResponse (entriesResponse (JObj [ (js "meta", JObj []) ])))
           exampleSettings (JArr []) 0).
  vm_compute. reflexivity.
Defined.

(** X25. With a logger that does not throw, a response whose status is
    outside the range 200 to 299 makes [fetchAllStrapiEntries] throw an
    error whose message is
    [Failed to fetch Strapi entries: <status> <statusText> - <body>];
    the failure is logged twice, once where it is raised and once where
    it is caught, and the request goes to [http://localhost:1337] when
    no Strapi URL is configured. *)
Theorem fetchAllStrapiEntries_throws {S : Type} (h : host S)
    (settings : Settings) (errorText : jsstring) (response : Response) (s : S) :
  (forall level event st, fst (h unit (Log level event) st) = inr tt) ->
  fst (h _ (entriesRequest settings)
         (snd (h unit (Log (js "info")
                         (js "cms.integrations.strapi.fetchingEntries")) s)))
    = inr response ->
  ok response = false ->
  text response = inr errorText ->
  fst (fst (run h (fetchAllStrapiEntries settings) s)) =
    inl (Failure (js "Failed to fetch Strapi entries: " ++
                  decimal (status response) ++ js " " ++
                  statusText response ++ js " - " ++ errorText)) /\
  snd (run h (fetchAllStrapiEntries settings) s) =
    [ Issued (Log (js "info") (js "cms.integrations.strapi.fetchingEntries"));
      Issued (entriesRequest settings);
      Issued (Log (js "error") (js "cms.integrations.strapi.fetchError"));
      Issued (Log (js "error") (js "cms.integrations.strapi.fetchEntriesError")) ] /\
  (strapiUrl settings = [] ->
   entriesRequest settings =
     Fetch (js "http://localhost:1337/api/relying-parties?populate=*")
       [ (js "Authorization", js "Bearer " ++ apiKey settings);
         (js "Content-Type", js "application/json") ]).
Proof.
  intros Hlog. unfold fetchAllStrapiEntries, entriesRequest. reduce_run.
  pose proof (Hlog (js "info") (js "cms.integrations.strapi.fetchingEntries") s)
    as Hl0.
  destruct (h unit (Log (js "info")
              (js "cms.integrations.strapi.fetchingEntries")) s)
    as [[e0|[]] s1]; cbn [fst] in Hl0; [discriminate|]. reduce_run.
  destruct (h _ (Fetch (strapiBaseUrl settings ++
                        js "/api/relying-parties?populate=*")
                   [ (js "Authorization", js "Bearer " ++ apiKey settings);
                     (js "Content-Type", js "application/json") ]) s1)
    as [[e1|response'] s2]; reduce_run; intros [= <-] Hok Htext.
  rewrite Hok, Htext. cbn [negb]. reduce_run.
  pose proof (Hlog (js "error") (js "cms.integrations.strapi.fetchError") s2)
    as Hl1.
  destruct (h unit (Log (js "error") (js "cms.integrations.strapi.fetchError")) s2)
    as [[e2|[]] s3]; cbn [fst] in Hl1; [discriminate|]. reduce_run.
  pose proof (Hlog (js "error") (js "cms.integrations.strapi.fetchEntriesError") s3)
    as Hl2.
  destruct (h unit (Log (js "error")
              (js "cms.integrations.strapi.fetchEntriesError")) s3)
    as [[e3|[]] s4]; cbn [fst] in Hl2; [discriminate|].
  split; [reflexivity|]. split; [reflexivity|].
  intros Hurl. unfold strapiBaseUrl. now rewrite Hurl.
Qed.

Lemma fetchAllStrapiEntries_throws_witness :
  fst (fst (run (fixedResponse unavailableResponse)
              (fetchAllStrapiEntries exampleSettings) 0)) =
    inl (Failure (js "Failed to fetch Strapi entries: " ++
                  decimal (status unavailableResponse) ++ js " " ++
                  statusText unavailableResponse ++ js " - " ++
                  js "try later")) /\
  snd (run (fixedResponse unavailableResponse)
         (fetchAllStrapiEntries exampleSettings) 0) =
    [ Issued (Log (js "info") (js "cms.integrations.strapi.fetchingEntries"));
      Issued (entriesRequest exampleSettings);
      Issued (Log (js "error") (js "cms.integrations.strapi.fetchError"));
      Issued (Log (js "error") (js "cms.integrations.strapi.fetchEntriesError")) ] /\
  (strapiUrl exampleSettings = [] ->
   entriesRequest exampleSettings =
     Fetch (js "http://localhost:1337/api/relying-parties?populate=*")
       [ (js "Authorization", js "Bearer " ++ apiKey exampleSettings);
         (js "Content-Type", js "application/json") ]).
Proof.
  apply (fetchAllStrapiEntries_throws (fixedResponse unavailableResponse)
           exampleSettings (js "try later") unavailableResponse 0).
  - intros level event st. reflexivity.
  - reflexivity.
  - reflexivity.
  - reflexivity.
Defined.

End FetchingProperties.

(** ** Identifiers and comments of the serializer, read again *)





(** X27. The comment of a field is made from the first two segments of
    its path only: two paths that agree on them get the same comment,
    whatever follows. *)
Theorem generateFieldComment_first_two_segments (ucd : UnicodeData)
    (component field : jsstring) (more : list jsstring) :
  Forall (fun seg => ~ In DOT seg) (component :: field :: more) ->
  generateFieldComment ucd (join (js ".") (component :: field :: more)) =
  generateFieldComment ucd (join (js ".") [component; field]).
Proof.
  intros Hsegs. change (js ".") with [DOT]. unfold generateFieldComment.
  assert (Htwo : Forall (fun seg => ~ In DOT seg) [component; field]).
  { inversion Hsegs as [|? ? Hc Hrest]; subst.
    inversion Hrest as [|? ? Hf _]; subst.
    repeat constructor; assumption. }
  rewrite (split_join DOT (component :: field :: more)) by (discriminate || exact Hsegs).
  rewrite (split_join DOT [component; field]) by (discriminate || exact Htwo).
  reflexivity.
Qed.

Lemma generateFieldComment_first_two_segments_witness :
  generateFieldComment unicodeExcerpt
    (join (js ".") [js "page"; js "logo"; js "alt"]) =
  generateFieldComment unicodeExcerpt (join (js ".") [js "page"; js "logo"]).
Proof.
  apply (generateFieldComment_first_two_segments unicodeExcerpt
           (js "page") (js "logo") [js "alt"]).
  repeat constructor; vm_compute; intuition discriminate.
Defined.
